(** * The tag state of the template parser ([src/parse/state/tag.js])

    A shallow embedding of [tag], [readTagName], [readAttribute],
    [readAttributeValue], [getShorthandValue] and [stripWhitespace],
    together with the properties of the tag-level state machine.

    Conventions of the embedding.
    - A JavaScript string is a [string]; its characters stand for code
      units below 256, offsets count characters.
    - The nodes of the tree are mutable objects shared between the tree
      and the open-element stack.  They live in a store ([heap], a list
      indexed by node identifier); [children] and the stack hold
      identifiers, so a mutation through the stack is seen in the tree.
    - [parser.error] throws; a computation is a function from the parser
      state to a [result], written with the monad [M].
    - Loops whose termination depends on the collaborators take fuel;
      running out of fuel is the separate outcome [Timeout]. *)

From Stdlib Require Import Ascii String NArith Arith Lia Bool List.
From stdpp Require Import base option list strings relations.

Local Open Scope nat_scope.

(** ** JavaScript strings *)

Module JsString.

Fixpoint drop (n : nat) (s : string) : string :=
    match n, s with
    | 0, _ => s
    | S _, EmptyString => EmptyString
    | S n', String _ s' => drop n' s'
    end.

Fixpoint take (n : nat) (s : string) : string :=
    match n, s with
    | 0, _ => EmptyString
    | S _, EmptyString => EmptyString
    | S n', String c s' => String c (take n' s')
    end.

  (** [s.slice(i, j)] for offsets [0 <= i], [0 <= j]; empty when [j <= i]. *)
Definition slice (i j : nat) (s : string) : string := take (j - i) (drop i s).

  (** [s.slice(i)] *)
Definition sliceFrom (i : nat) (s : string) : string := drop i s.

  (** [s[i]], [None] standing for [undefined]. *)
Definition charAt (i : nat) (s : string) : option ascii := String.get i s.

  (** Truthiness of a string: the empty string is falsy. *)
Definition truthy (s : string) : bool :=
    match s with EmptyString => false | String _ _ => true end.

Definition ofChar (c : ascii) : string := String c EmptyString.

Fixpoint forallb (f : ascii -> bool) (s : string) : bool :=
    match s with
    | EmptyString => true
    | String c s' => f c && forallb f s'
    end.

End JsString.

(** ** Regular expressions

    The patterns of the source are translated constructor by constructor
    into [re]; matching is by derivatives.  A [regex] records the anchors
    [^] and [$] next to its body. *)

Module Regex.

Inductive re : Type :=
  | none
  | eps
  | class (f : ascii -> bool)
  | cat (a b : re)
  | alt (a b : re)
  | star (a : re).

Fixpoint nullable (r : re) : bool :=
    match r with
    | none => false
    | eps => true
    | class _ => false
    | cat a b => nullable a && nullable b
    | alt a b => nullable a || nullable b
    | star _ => true
    end.

Fixpoint deriv (c : ascii) (r : re) : re :=
    match r with
    | none => none
    | eps => none
    | class f => if f c then eps else none
    | cat a b =>
        if nullable a then alt (cat (deriv c a) b) (deriv c b)
        else cat (deriv c a) b
    | alt a b => alt (deriv c a) (deriv c b)
    | star a => cat (deriv c a) (star a)
    end.

  (** Does the body match at the beginning of [s]?  With [to_end] the
      match has to reach the end of [s] (the anchor [$]). *)
Fixpoint matchHere (to_end : bool) (r : re) (s : string) : bool :=
    match s with
    | EmptyString => nullable r
    | String c s' => (negb to_end && nullable r) || matchHere to_end (deriv c r) s'
    end.

  (** Offset of the leftmost match. *)
Fixpoint search (to_end : bool) (r : re) (s : string) : option nat :=
    if matchHere to_end r s then Some 0
    else match s with
         | EmptyString => None
         | String _ s' => S <$> search to_end r s'
         end.

Record regex : Type := Regex {
    anchoredStart : bool;
    body : re;
    anchoredEnd : bool
  }.

  (** [pattern.exec(s)], reduced to [match.index]. *)
Definition exec (p : regex) (s : string) : option nat :=
    if anchoredStart p
    then (if matchHere (anchoredEnd p) (body p) s then Some 0 else None)
    else search (anchoredEnd p) (body p) s.

  (** [pattern.test(s)] *)
Definition test (p : regex) (s : string) : bool :=
    match exec p s with Some _ => true | None => false end.

  (** Building blocks of the patterns. *)
Definition chr (c : ascii) : re := class (Ascii.eqb c).
Definition opt (r : re) : re := alt r eps.
Definition plus (r : re) : re := cat r (star r).

Fixpoint lit (s : string) : re :=
    match s with
    | EmptyString => eps
    | String c s' => cat (chr c) (lit s')
    end.

Definition inRange (lo hi c : ascii) : bool :=
    (N_of_ascii lo <=? N_of_ascii c)%N && (N_of_ascii c <=? N_of_ascii hi)%N.

Definition isLetter (c : ascii) : bool :=
    inRange "a" "z" c || inRange "A" "Z" c.

Definition isDigit (c : ascii) : bool := inRange "0" "9" c.

  (** [\w] *)
Definition isWord (c : ascii) : bool :=
    isLetter c || isDigit c || Ascii.eqb c "_".

  (** [\s] on code units below 256: tab, line feed, vertical tab, form
      feed, carriage return, space and the no-break space. *)
Definition isSpace (c : ascii) : bool :=
    match N_of_ascii c with
    | 9%N | 10%N | 11%N | 12%N | 13%N | 32%N | 160%N => true
    | _ => false
    end.

End Regex.

(** ** The tree under construction *)

(** Expression nodes.  [Identifier] is the node [getShorthandValue]
    builds; [Expression] stands for any other node the expression reader
    returns (its span and its source text). *)
Inductive expression : Type :=
| Identifier (start end_ : nat) (name : string)
| Expression (start end_ : nat) (source : string).

(** The chunks of an attribute value, by their [type]. *)
Inductive chunk : Type :=
| TextChunk (start end_ : nat) (data : string)
| MustacheTagChunk (start end_ : nat) (e : expression)
| AttributeShorthandChunk (start end_ : nat) (e : expression).

(** An attribute value is [true] or a sequence of chunks. *)
Inductive attributeValue : Type :=
| ValueTrue
| ValueChunks (chunks : list chunk).

(** The records of an attribute list, by their [type]. *)
Inductive attribute : Type :=
| Attribute (start end_ : nat) (name : string) (value : attributeValue)
| Ref (start end_ : nat) (name : string)
| EventHandler (start end_ : nat) (name : string) (e : expression)
| Binding (start end_ : nat) (name : string) (value : expression).

Definition attributeName (a : attribute) : string :=
  match a with
  | Attribute _ _ n _ | Ref _ _ n | EventHandler _ _ n _ | Binding _ _ n _ => n
  end.

Inductive nodeType : Type :=
| Fragment | Element | Comment | Text | MustacheTag | IfBlock | EachBlock.

Global Instance nodeType_eq_dec : EqDecision nodeType.
Proof. solve_decision. Defined.

(** A node object.  Fields a kind of node does not have are [None], the
    empty string or the empty list. *)
Module Node.
Record t : Type := Make {
    type : nodeType;
    start : option nat;
    end_ : option nat;
    name : option string;
    data : string;
    attributes : list attribute;
    children : list nat
  }.

Definition setEnd (e : option nat) (n : t) : t :=
    Make (type n) (start n) e (name n) (data n) (attributes n) (children n).
Definition setData (d : string) (n : t) : t :=
    Make (type n) (start n) (end_ n) (name n) d (attributes n) (children n).
Definition setChildren (c : list nat) (n : t) : t :=
    Make (type n) (start n) (end_ n) (name n) (data n) (attributes n) c.
End Node.

(** The record a raw-content reader returns. *)
Record content : Type := Content {
  contentStart : nat;
  contentEnd : nat;
  contentAttributes : list attribute;
  contentSource : string
}.

(** ** The parser state *)

Record parser : Type := Parser {
  template : string;
  index : nat;
  stack : list nat;      (* identifiers, the top is the last element *)
  heap : list Node.t;    (* the node objects, by identifier *)
  metaTags : list string;  (* own keys of [parser.metaTags] *)
  js : option content;
  css : option content
}.

Definition setIndex (i : nat) (p : parser) : parser :=
  Parser (template p) i (stack p) (heap p) (metaTags p) (js p) (css p).
Definition setStack (s : list nat) (p : parser) : parser :=
  Parser (template p) (index p) s (heap p) (metaTags p) (js p) (css p).
Definition setHeap (h : list Node.t) (p : parser) : parser :=
  Parser (template p) (index p) (stack p) h (metaTags p) (js p) (css p).
Definition setMetaTags (m : list string) (p : parser) : parser :=
  Parser (template p) (index p) (stack p) (heap p) m (js p) (css p).
Definition setJs (c : option content) (p : parser) : parser :=
  Parser (template p) (index p) (stack p) (heap p) (metaTags p) c (css p).
Definition setCss (c : option content) (p : parser) : parser :=
  Parser (template p) (index p) (stack p) (heap p) (metaTags p) (js p) c.

(** ** Results and the parser monad *)

Inductive exn : Type :=
| SyntaxError (message : string) (pos : option nat)
| TypeError (message : string)
| Stuck (message : string).

Inductive result (A : Type) : Type :=
| Ok (a : A)
| Throw (e : exn)
| Timeout.
Arguments Ok {A} a.
Arguments Throw {A} e.
Arguments Timeout {A}.

Definition M (A : Type) : Type := parser -> result (A * parser).

Definition ret {A} (a : A) : M A := fun p => Ok (a, p).

Definition bind {A B} (m : M A) (k : A -> M B) : M B :=
  fun p =>
    match m p with
    | Ok (a, p') => k a p'
    | Throw e => Throw e
    | Timeout => Timeout
    end.

Definition throw {A} (e : exn) : M A := fun _ => Throw e.
Definition timeout {A} : M A := fun _ => Timeout.
Definition gets {A} (f : parser -> A) : M A := fun p => Ok (f p, p).
Definition modify (f : parser -> parser) : M unit := fun p => Ok (tt, f p).

Declare Scope parser_scope.
Delimit Scope parser_scope with parser.
Notation "x <- m ;; k" := (bind m (fun x => k))
  (at level 100, m at next level, right associativity) : parser_scope.
Notation "m ;;; k" := (bind m (fun _ => k))
  (at level 100, right associativity) : parser_scope.
Notation "'when' b 'then' m" := (if b then m else ret tt)
  (at level 95, b at level 94) : parser_scope.
Local Open Scope parser_scope.

(** ** Cursor primitives *)

(** Modelled from the spec: [parser.error( message, index )], which
    throws the only error of the parser, a [SyntaxError] carrying a
    message and a source offset. *)
Definition error {A} (message : string) (pos : option nat) : M A :=
  throw (SyntaxError message pos).

(** Modelled from the spec: [parser.error( message )] without an offset;
    the error carries the cursor's current offset. *)
Definition errorHere {A} (message : string) : M A :=
  fun p => Throw (SyntaxError message (Some (index p))).

(** Modelled from the spec: [parser.match( str )], the look-ahead for a
    literal at the cursor. *)
Definition pmatch (str : string) : M bool :=
  gets (fun p => String.eqb
      (JsString.slice (index p) (index p + String.length str) (template p)) str).

(** Modelled from the spec: [parser.eat( str, required )], consume a
    literal; when the literal is absent, fail if it is required and
    answer false otherwise. *)
Definition eat (str : string) (required : bool) : M bool :=
  m <- pmatch str ;;
  if m then (modify (fun p => setIndex (index p + String.length str) p) ;;; ret true)
  else if required then errorHere ("Expected " +:+ str)
  else ret false.

Fixpoint leadingSpaces (s : string) : nat :=
  match s with
  | String c s' => if Regex.isSpace c then S (leadingSpaces s') else 0
  | EmptyString => 0
  end.

(** Modelled from the spec: [parser.allowWhitespace()], skip the
    whitespace at the cursor. *)
Definition allowWhitespace : M unit :=
  modify (fun p =>
    setIndex (index p + leadingSpaces (JsString.sliceFrom (index p) (template p))) p).

(** Modelled from the spec: [parser.readUntil( pattern )], consume up to
    the leftmost match of the pattern in the unread input, or all of the
    unread input when there is none, and return what was consumed. *)
Definition readUntil (pattern : Regex.regex) : M string :=
  fun p =>
    let rest := JsString.sliceFrom (index p) (template p) in
    match Regex.exec pattern rest with
    | Some k => Ok (JsString.take k rest, setIndex (index p + k) p)
    | None => Ok (rest, setIndex (index p + String.length rest) p)
    end.

(** ** The store of nodes and the open-element stack *)

(** [parser.current()]: the top of the stack, [None] for [undefined]. *)
Definition current : M (option nat) := gets (fun p => last (stack p)).

(** Reading an object through a reference.  A property access on
    [undefined] is a [TypeError]. *)
Definition getNode (r : option nat) : M Node.t :=
  fun p =>
    match r with
    | None => Throw (TypeError "Cannot read properties of undefined")
    | Some i =>
        match heap p !! i with
        | Some n => Ok (n, p)
        | None => Throw (Stuck "dangling reference")
        end
    end.

Definition updNode (r : option nat) (f : Node.t -> Node.t) : M unit :=
  n <- getNode r ;;
  match r with
  | Some i => modify (fun p => setHeap (<[i := f n]> (heap p)) p)
  | None => ret tt
  end.

(** A new object. *)
Definition alloc (n : Node.t) : M nat :=
  fun p => Ok (length (heap p), setHeap (heap p ++ [n]) p).

(** [r.children.push( c )] *)
Definition pushChild (r : option nat) (c : nat) : M unit :=
  updNode r (fun n => Node.setChildren (Node.children n ++ [c]) n).

(** [parser.stack.push( e )] and [parser.stack.pop()] *)
Definition stackPush (e : nat) : M unit :=
  modify (fun p => setStack (stack p ++ [e]) p).
Definition stackPop : M unit :=
  modify (fun p => setStack (removelast (stack p)) p).

(** ** Constants of [tag.js] *)

Definition doubleQuote : string := String (ascii_of_nat 34) EmptyString.

(** [/^\!?[a-zA-Z]{1,}:?[a-zA-Z0-9\-]*/] *)
Definition isTagNameChar (c : ascii) : bool :=
  Regex.isLetter c || Regex.isDigit c || Ascii.eqb c "-".

Definition validTagName : Regex.regex :=
  Regex.Regex true
    (Regex.cat (Regex.opt (Regex.chr "!"))
      (Regex.cat (Regex.plus (Regex.class Regex.isLetter))
        (Regex.cat (Regex.opt (Regex.chr ":"))
                   (Regex.star (Regex.class isTagNameChar)))))
    false.

(** The class of [invalidUnquotedAttributeCharacters]: whitespace, the
    double quote, the single quote, [=], [<], [>], [/] and the backtick. *)
Definition isInvalidUnquoted (c : ascii) : bool :=
  Regex.isSpace c || Ascii.eqb c (ascii_of_nat 34) || Ascii.eqb c "'"
  || Ascii.eqb c "=" || Ascii.eqb c "<" || Ascii.eqb c ">" || Ascii.eqb c "/"
  || Ascii.eqb c "`".

Definition invalidUnquotedAttributeCharacters : Regex.regex :=
  Regex.Regex false (Regex.class isInvalidUnquoted) false.

Definition SELF : string := ":Self".

(** The [in] operator on an ordinary object: own keys and the keys
    inherited from [Object.prototype]. *)
Definition objectPrototypeKeys : list string :=
  [ "constructor"; "__defineGetter__"; "__defineSetter__"; "hasOwnProperty";
    "__lookupGetter__"; "__lookupSetter__"; "isPrototypeOf";
    "propertyIsEnumerable"; "toString"; "valueOf"; "__proto__";
    "toLocaleString" ].

Definition inObject (key : string) (own : list string) : bool :=
  bool_decide (key ∈ own) || bool_decide (key ∈ objectPrototypeKeys).

(** [const metaTags = { ':Window': true }] *)
Definition metaTagsTable : list string := [ ":Window" ].

Inductive property : Type := PropertyJs | PropertyCss.

(** [disallowedContents], a [Map] from a parent name to the [Set] of the
    names that close it. *)
Definition disallowedContents : list (string * list string) :=
  [ ("li", [ "li" ]);
    ("dt", [ "dt"; "dd" ]);
    ("dd", [ "dt"; "dd" ]);
    ("p", [ "address"; "article"; "aside"; "blockquote"; "div"; "dl";
            "fieldset"; "footer"; "form"; "h1"; "h2"; "h3"; "h4"; "h5"; "h6";
            "header"; "hgroup"; "hr"; "main"; "menu"; "nav"; "ol"; "p"; "pre";
            "section"; "table"; "ul" ]);
    ("rt", [ "rt"; "rp" ]);
    ("rp", [ "rt"; "rp" ]);
    ("optgroup", [ "optgroup" ]);
    ("option", [ "option"; "optgroup" ]);
    ("thead", [ "tbody"; "tfoot" ]);
    ("tbody", [ "tbody"; "tfoot" ]);
    ("tfoot", [ "tbody" ]);
    ("tr", [ "tr"; "tbody" ]);
    ("td", [ "td"; "th"; "tr" ]);
    ("th", [ "td"; "th"; "tr" ]) ].

(** [map.get( key )] on a [Map] with string keys; a key that is
    [undefined] is in none of the maps of this file. *)
Fixpoint mapGet {V} (m : list (string * V)) (key : string) : option V :=
  match m with
  | [] => None
  | (k, v) :: m' => if String.eqb k key then Some v else mapGet m' key
  end.

(** [set.has( x )] and [set.add( x )] on a [Set] of strings kept in
    insertion order. *)
Definition setHas (s : list string) (x : string) : bool := bool_decide (x ∈ s).
Definition setAdd (s : list string) (x : string) : list string :=
  if setHas s x then s else s ++ [x].

(** Patterns handed to [readUntil] and tested on attribute names. *)
Definition isTagNameEnd (c : ascii) : bool :=
  Regex.isSpace c || Ascii.eqb c "/" || Ascii.eqb c ">".
Definition isAttributeNameEnd (c : ascii) : bool :=
  Regex.isSpace c || Ascii.eqb c "=" || Ascii.eqb c "/" || Ascii.eqb c ">".

(** [/-->/] *)
Definition commentEnd : Regex.regex := Regex.Regex false (Regex.lit "-->") false.
(** [/(\s|\/|>)/] *)
Definition tagNameEnd : Regex.regex :=
  Regex.Regex false
    (Regex.alt (Regex.alt (Regex.class Regex.isSpace) (Regex.chr "/")) (Regex.chr ">"))
    false.
(** [/(\s|=|\/|>)/] *)
Definition attributeNameEnd : Regex.regex :=
  Regex.Regex false
    (Regex.alt (Regex.alt (Regex.alt (Regex.class Regex.isSpace) (Regex.chr "="))
                          (Regex.chr "/")) (Regex.chr ">"))
    false.
(** [/^on:/], [/^bind:/], [/^ref:/] and [/^:\w+$/] *)
Definition onPrefix : Regex.regex := Regex.Regex true (Regex.lit "on:") false.
Definition bindPrefix : Regex.regex := Regex.Regex true (Regex.lit "bind:") false.
Definition refPrefix : Regex.regex := Regex.Regex true (Regex.lit "ref:") false.
Definition shorthand : Regex.regex :=
  Regex.Regex true
    (Regex.cat (Regex.chr ":") (Regex.plus (Regex.class Regex.isWord))) true.

(** ** Collaborators

    Functions [tag.js] imports from files of the parser that are not part
    of this development.  A reader receives the template and the cursor
    offset and answers with its result and the new offset, or throws. *)
Class Collaborators : Type := {
  isVoidElementName : string -> bool;
  decodeCharacterReferences : string -> string;
  readExpression : string -> nat -> result (expression * nat);
  readScript : string -> nat -> nat -> list attribute -> result (content * nat);
  readStyle : string -> nat -> nat -> list attribute -> result (content * nat);
  readEventHandlerDirective : string -> nat -> nat -> string -> result (attribute * nat);
  readBindingDirective : string -> nat -> nat -> string -> result (attribute * nat)
}.

(** Running a reader at the cursor. *)
Definition atCursor {A} (reader : string -> nat -> result (A * nat)) : M A :=
  fun p =>
    match reader (template p) (index p) with
    | Ok (a, i) => Ok (a, setIndex i p)
    | Throw e => Throw e
    | Timeout => Timeout
    end.

(** Modelled from the spec: [trimStart] and [trimEnd] of [utils/trim.js],
    which strip the leading, respectively trailing, whitespace. *)
Fixpoint trimStart (s : string) : string :=
  match s with
  | String c s' => if Regex.isSpace c then trimStart s' else s
  | EmptyString => EmptyString
  end.

Fixpoint trimEnd (s : string) : string :=
  match s with
  | String c s' =>
      match trimEnd s' with
      | EmptyString => if Regex.isSpace c then EmptyString else String c EmptyString
      | t => String c t
      end
  | EmptyString => EmptyString
  end.

(** ** The functions of [tag.js] *)

Section Tag.
Context {collaborators : Collaborators}.

(** [specials], a [Map] from a tag name to its reader and to the
    property of the parser that receives the result. *)
Definition specials :
  list (string * ((string -> nat -> nat -> list attribute -> result (content * nat)) * property)) :=
  [ ("script", (readScript, PropertyJs)); ("style", (readStyle, PropertyCss)) ].

Definition getProperty (pr : property) (p : parser) : option content :=
  match pr with PropertyJs => js p | PropertyCss => css p end.

Definition setProperty (pr : property) (c : content) (p : parser) : parser :=
  match pr with PropertyJs => setJs (Some c) p | PropertyCss => setCss (Some c) p end.

(** [stripWhitespace( element )].  [firstChild] and [lastChild] are read
    before the first of them is trimmed, and may be the same object. *)
Definition stripWhitespace (element : option nat) : M unit :=
  e <- getNode element ;;
  match Node.children e with
  | [] => ret tt
  | first :: _ =>
      let firstChild := Some first in
      let lastChild := last (Node.children e) in
      fc <- getNode firstChild ;;
      (when bool_decide (Node.type fc = Text) then
         (updNode firstChild (Node.setData (trimStart (Node.data fc))) ;;;
          when negb (JsString.truthy (trimStart (Node.data fc))) then
            updNode element (fun n => Node.setChildren (tail (Node.children n)) n))) ;;;
      lc <- getNode lastChild ;;
      when bool_decide (Node.type lc = Text) then
        (updNode lastChild (Node.setData (trimEnd (Node.data lc))) ;;;
         when negb (JsString.truthy (trimEnd (Node.data lc))) then
           updNode element (fun n => Node.setChildren (removelast (Node.children n)) n))
  end.

(** The scan of [readTagName] for an enclosing if-block or each-block,
    from the top of the stack downwards. *)
Fixpoint insideBlock (fromTop : list nat) : M bool :=
  match fromTop with
  | [] => ret false
  | i :: below =>
      fragment <- getNode (Some i) ;;
      if bool_decide (Node.type fragment = IfBlock)
         || bool_decide (Node.type fragment = EachBlock)
      then ret true
      else insideBlock below
  end.

(** [readTagName( parser )] *)
Definition readTagName : M string :=
  start <- gets index ;;
  self <- eat SELF false ;;
  if self then
    (s <- gets stack ;;
     legal <- insideBlock (rev s) ;;
     (when negb legal then
        error ("<" +:+ SELF +:+ "> components can only exist inside if-blocks or each-blocks")
              (Some start)) ;;;
     ret SELF)
  else
    (name <- readUntil tagNameEnd ;;
     if inObject name metaTagsTable then ret name
     else
       ((when negb (Regex.test validTagName name) then
           error "Expected valid tag name" (Some start)) ;;;
        ret name)).

(** [getShorthandValue( start, name )] *)
Definition getShorthandValue (start : nat) (name : string) : list chunk :=
  let end_ := start + String.length name in
  [ AttributeShorthandChunk start end_ (Identifier start end_ name) ].

(** The predicate [done] of [readAttributeValue]. *)
Definition done_ (quoteMark : option string) (char : ascii) : bool :=
  match quoteMark with
  | Some q => String.eqb (JsString.ofChar char) q
  | None => Regex.test invalidUnquotedAttributeCharacters (JsString.ofChar char)
  end.

Definition decodeChunk (c : chunk) : chunk :=
  match c with
  | TextChunk s e d => TextChunk s e (decodeCharacterReferences d)
  | _ => c
  end.

(** The loop of [readAttributeValue]; [chunkStart] and [chunkData] are
    the fields of [currentChunk]. *)
Fixpoint readAttributeValueLoop (fuel : nat) (quoteMark : option string)
    (chunkStart : nat) (chunkData : string) (chunks : list chunk) : M (list chunk) :=
  match fuel with
  | 0 => timeout
  | S fuel' =>
      i <- gets index ;;
      len <- gets (fun p => String.length (template p)) ;;
      if i <? len then
        (opened <- eat "{{" false ;;
         if opened then
           (let chunks1 :=
              if JsString.truthy chunkData
              then chunks ++ [TextChunk chunkStart i chunkData] else chunks in
            expression <- atCursor readExpression ;;
            allowWhitespace ;;;
            closed <- eat "}}" false ;;
            (when negb closed then errorHere "Expected }}") ;;;
            e <- gets index ;;
            readAttributeValueLoop fuel' quoteMark e ""
              (chunks1 ++ [MustacheTagChunk i e expression]))
         else
           (c <- gets (fun p => JsString.charAt (index p) (template p)) ;;
            match c with
            | None => throw (Stuck "no character at the cursor")
            | Some char =>
                if done_ quoteMark char then
                  ((when bool_decide (is_Some quoteMark) then
                      modify (fun p => setIndex (index p + 1) p)) ;;;
                   let chunks1 :=
                     if JsString.truthy chunkData
                     then chunks ++ [TextChunk chunkStart i chunkData] else chunks in
                   ret (map decodeChunk chunks1))
                else
                  (modify (fun p => setIndex (index p + 1) p) ;;;
                   readAttributeValueLoop fuel' quoteMark chunkStart
                     (chunkData +:+ JsString.ofChar char) chunks)
            end))
      else errorHere "Unexpected end of input"
  end.

(** [readAttributeValue( parser )] *)
Definition readAttributeValue : M (list chunk) :=
  single <- eat "'" false ;;
  double <- eat doubleQuote false ;;
  let quoteMark :=
    if double then Some doubleQuote else if single then Some "'" else None in
  start <- gets index ;;
  fuel <- gets (fun p => S (String.length (template p))) ;;
  readAttributeValueLoop fuel quoteMark start "" [].

(** [readAttribute( parser, uniqueNames )]; the set is returned with the
    name added. *)
Definition readAttribute (uniqueNames : list string)
  : M (option attribute * list string) :=
  start <- gets index ;;
  name <- readUntil attributeNameEnd ;;
  if negb (JsString.truthy name) then ret (None, uniqueNames)
  else
    ((when setHas uniqueNames name then
        error "Attributes need to be unique" (Some start)) ;;;
     let uniqueNames := setAdd uniqueNames name in
     allowWhitespace ;;;
     if Regex.test onPrefix name then
       (eat "=" true ;;;
        a <- atCursor (fun t i => readEventHandlerDirective t i start (JsString.sliceFrom 3 name)) ;;
        ret (Some a, uniqueNames))
     else if Regex.test bindPrefix name then
       (a <- atCursor (fun t i => readBindingDirective t i start (JsString.sliceFrom 5 name)) ;;
        ret (Some a, uniqueNames))
     else if Regex.test refPrefix name then
       (e <- gets index ;;
        ret (Some (Ref start e (JsString.sliceFrom 4 name)), uniqueNames))
     else if Regex.test shorthand name then
       (let name := JsString.sliceFrom 1 name in
        let value := getShorthandValue (start + 1) name in
        e <- gets index ;;
        ret (Some (Attribute start e name (ValueChunks value)), uniqueNames))
     else
       (eq <- eat "=" false ;;
        value <- (if eq then (chunks <- readAttributeValue ;; ret (ValueChunks chunks))
                  else ret ValueTrue) ;;
        e <- gets index ;;
        ret (Some (Attribute start e name value), uniqueNames))).

(** The attribute loop of [tag]. *)
Fixpoint readAttributes (fuel : nat) (uniqueNames : list string)
    (attributes : list attribute) : M (list attribute * list string) :=
  match fuel with
  | 0 => timeout
  | S fuel' =>
      r <- readAttribute uniqueNames ;;
      match r with
      | (Some a, uniqueNames) =>
          allowWhitespace ;;; readAttributes fuel' uniqueNames (attributes ++ [a])
      | (None, uniqueNames) => ret (attributes, uniqueNames)
      end
  end.

(** The loop of the closing-tag path, lines 113 to 120: close the
    elements that have no closing tag of their own. *)
Fixpoint closeWalk (fuel : nat) (start : nat) (name : string) (parent : option nat)
  : M (option nat) :=
  n <- getNode parent ;;
  if bool_decide (Node.name n = Some name) then ret parent
  else
    match fuel with
    | 0 => timeout
    | S fuel' =>
        (when negb (bool_decide (Node.type n = Element)) then
           error ("</" +:+ name +:+ "> attempted to close an element that was not open")
                 (Some start)) ;;;
        updNode parent (Node.setEnd (Some start)) ;;;
        stackPop ;;;
        parent <- current ;;
        closeWalk fuel' start name parent
    end.

(** The closing-tag path, lines 106 to 128. *)
Definition closeTag (start : nat) (name : string) (parent : option nat) : M unit :=
  (when isVoidElementName name then
     error ("<" +:+ name +:+ "> is a void element and cannot have children, or a closing tag")
           (Some start)) ;;;
  closed <- eat ">" false ;;
  (when negb closed then errorHere "Expected '>'") ;;;
  fuel <- gets (fun p => length (stack p)) ;;
  parent <- closeWalk fuel start name parent ;;
  stripWhitespace parent ;;;
  e <- gets index ;;
  updNode parent (Node.setEnd (Some e)) ;;;
  stackPop.

(** The implied close on an opening tag, lines 129 to 138. *)
Definition impliedClose (start : nat) (name : string) (parent : option nat) : M unit :=
  n <- getNode parent ;;
  match Node.name n ≫= mapGet disallowedContents with
  | Some disallowed =>
      when setHas disallowed name then
        (stripWhitespace parent ;;;
         updNode parent (Node.setEnd (Some start)) ;;;
         stackPop)
  | None => ret tt
  end.

(** The singleton check on a meta tag, lines 87 to 101. *)
Definition checkMetaTag (start : nat) (isClosingTag : bool) (name : string) : M unit :=
  when inObject name metaTagsTable then
    (registered <- gets (fun p => inObject name (metaTags p)) ;;
     (when registered then
        ((when isClosingTag then
            (top <- current ;;
             n <- getNode top ;;
             match Node.children n with
             | [] => ret tt
             | c :: _ =>
                 child <- getNode (Some c) ;;
                 error ("<" +:+ name +:+ "> cannot have children") (Node.start child)
             end)) ;;;
         error ("A component can only have one <" +:+ name +:+ "> tag") (Some start))) ;;;
     modify (fun p => setMetaTags (setAdd (metaTags p) name) p) ;;;
     depth <- gets (fun p => length (stack p)) ;;
     when 1 <? depth then
       error ("<" +:+ name +:+ "> tags cannot be inside elements or blocks") (Some start)).

(** The generic element, lines 165 to 187. *)
Definition createElement (start : nat) (name : string) (attributes : list attribute)
  : M unit :=
  element <- alloc (Node.Make Element (Some start) None (Some name) "" attributes []) ;;
  top <- current ;;
  pushChild top element ;;;
  slash <- eat "/" false ;;
  let selfClosing := slash || isVoidElementName name in
  eat ">" true ;;;
  if selfClosing then
    (e <- gets index ;; updNode (Some element) (Node.setEnd (Some e)))
  else stackPush element.

(** The opening-tag path after the implied close, lines 140 to 187. *)
Definition openTag (start : nat) (name : string) : M unit :=
  fuel <- gets (fun p => S (String.length (template p))) ;;
  r <- readAttributes fuel [] [] ;;
  let attributes := fst r in
  allowWhitespace ;;;
  depth <- gets (fun p => length (stack p)) ;;
  match (if depth =? 1 then mapGet specials name else None) with
  | Some (read, pr) =>
      populated <- gets (getProperty pr) ;;
      (when bool_decide (is_Some populated) then
         (modify (setIndex start) ;;;
          errorHere ("You can only have one top-level <" +:+ name +:+ "> tag per component"))) ;;;
      eat ">" true ;;;
      c <- atCursor (fun t i => read t i start attributes) ;;
      modify (setProperty pr c)
  | None => createElement start name attributes
  end.

(** [tag( parser )] *)
Definition tag : M unit :=
  start <- gets index ;;
  modify (fun p => setIndex (index p + 1) p) ;;;
  parent <- current ;;
  comment <- eat "!--" false ;;
  if comment then
    (data <- readUntil commentEnd ;;
     eat "-->" false ;;;
     e <- gets index ;;
     c <- alloc (Node.Make Comment (Some start) (Some e) None data [] []) ;;
     top <- current ;;
     pushChild top c)
  else
    (isClosingTag <- eat "/" false ;;
     name <- readTagName ;;
     checkMetaTag start isClosingTag name ;;;
     allowWhitespace ;;;
     if isClosingTag then closeTag start name parent
     else (impliedClose start name parent ;;; openTag start name)).

(** ** The document driver *)

Fixpoint textRun (s : string) : nat :=
  match s with
  | String "<" _ => 0
  | String "{" (String "{" _) => 0
  | String _ s' => S (textRun s')
  | EmptyString => 0
  end.

(** Modelled from the spec: the text handler of the document driver,
    which is not part of [tag.js].  It consumes the literal text up to
    the next tag or embedded expression and appends a [Text] node to the
    children of the top of the stack. *)
Definition text : M unit :=
  start <- gets index ;;
  rest <- gets (fun p => JsString.sliceFrom (index p) (template p)) ;;
  let data := JsString.take (textRun rest) rest in
  modify (fun p => setIndex (index p + textRun rest) p) ;;;
  e <- gets index ;;
  t <- alloc (Node.Make Text (Some start) (Some e) None
                (decodeCharacterReferences data) [] []) ;;
  top <- current ;;
  pushChild top t.

(** Modelled from the spec: the dispatch of the document driver, which
    calls the tag handler at a [<] and the text handler otherwise.  The
    handler of embedded expressions and blocks is outside this
    development. *)
Definition fragment : M unit :=
  isTag <- pmatch "<" ;;
  if isTag then tag
  else
    (isMustache <- pmatch "{{" ;;
     if isMustache then throw (Stuck "the mustache state is not modelled")
     else text).

(** Modelled from the spec: the loop of the document driver, which
    dispatches until the template is consumed. *)
Fixpoint parseLoop (fuel : nat) : M unit :=
  i <- gets index ;;
  len <- gets (fun p => String.length (template p)) ;;
  if i <? len then
    match fuel with
    | 0 => timeout
    | S fuel' => fragment ;;; parseLoop fuel'
    end
  else ret tt.

End Tag.

(** Modelled from the spec: the state a parse starts from.  The stack
    holds the root fragment, nothing is registered. *)
Definition root : Node.t := Node.Make Fragment None None None "" [] [].

Definition initial (template : string) : parser :=
  Parser template 0 [0] [root] [] None None.

Definition parse `{Collaborators} (template : string) : result (unit * parser) :=
  parseLoop (S (String.length template)) (initial template).

(** The tree a store holds below a node, for reading results. *)
Inductive tree : Type :=
| Tree (n : Node.t) (children : list tree).

Fixpoint reify (depth : nat) (h : list Node.t) (i : nat) : option tree :=
  match depth with
  | 0 => None
  | S depth' =>
      n ← h !! i;
      kids ← mapM (reify depth' h) (Node.children n);
      Some (Tree n kids)
  end.

(** ** Reference collaborators

    Simple collaborators for running the parser on concrete templates.
    The general theorems below hold for every instance of
    [Collaborators]. *)
Module Reference.

(** Modelled from the spec: the void-element names, the element kinds
    that can never have children or a closing tag (such as [br], [hr] and
    [input]); the table itself is in [utils/isVoidElementName.js]. *)
Definition voidElementNames : list string :=
  [ "area"; "base"; "br"; "col"; "command"; "doctype"; "embed"; "hr"; "img";
    "input"; "keygen"; "link"; "meta"; "param"; "source"; "track"; "wbr" ].

Definition isVoid (name : string) : bool := bool_decide (name ∈ voidElementNames).

Definition isIdentifierChar (c : ascii) : bool := Regex.isWord c || Ascii.eqb c "$".

Fixpoint identifierRun (s : string) : nat :=
  match s with
  | String c s' => if isIdentifierChar c then S (identifierRun s') else 0
  | EmptyString => 0
  end.

(** Modelled from the spec: an expression reader, which returns an
    expression node and advances the cursor past it.  This one reads an
    identifier after optional whitespace. *)
Definition readIdentifier (template : string) (i : nat) : result (expression * nat) :=
  let start := i + leadingSpaces (JsString.sliceFrom i template) in
  let rest := JsString.sliceFrom start template in
  match identifierRun rest with
  | 0 => Throw (SyntaxError "Unexpected token" (Some start))
  | n => Ok (Identifier start (start + n) (JsString.take n rest), start + n)
  end.

(** Modelled from the spec: a raw-content reader, which consumes up to
    the matching closing tag and returns a content record. *)
Definition readRaw (closing : string) (template : string) (i start : nat)
    (attributes : list attribute) : result (content * nat) :=
  let rest := JsString.sliceFrom i template in
  match Regex.search false (Regex.lit closing) rest with
  | Some k =>
      Ok (Content start (i + k + String.length closing) attributes (JsString.take k rest),
          i + k + String.length closing)
  | None => Throw (SyntaxError ("Expected " +:+ closing) (Some i))
  end.

Definition noDirective (template : string) (i start : nat) (name : string)
  : result (attribute * nat) :=
  Throw (Stuck "the directive readers are not modelled").

#[export] Instance collaborators : Collaborators := {
  isVoidElementName := isVoid;
  decodeCharacterReferences := fun s => s;
  readExpression := readIdentifier;
  readScript := readRaw "</script>";
  readStyle := readRaw "</style>";
  readEventHandlerDirective := noDirective;
  readBindingDirective := noDirective
}.

End Reference.

(** * Properties *)

(** ** Strings *)

Module JsStringFacts.
Import JsString.

Lemma drop_empty n : drop n "" = "".
Proof. by destruct n. Qed.

Lemma drop_drop i k s : drop k (drop i s) = drop (i + k) s.
Proof.
  revert s. induction i as [|i IH]; intros s; simpl; [done|].
  destruct s as [|c s]; [by rewrite drop_empty | apply IH].
Qed.

Lemma take_app_length a b : take (String.length a) (a +:+ b) = a.
Proof. induction a as [|c a IH]; simpl; [by destruct b | by rewrite IH]. Qed.

Lemma drop_app_length a b : drop (String.length a) (a +:+ b) = b.
Proof. induction a as [|c a IH]; simpl; [done | apply IH]. Qed.

Lemma length_app a b : String.length (a +:+ b) = String.length a + String.length b.
Proof. induction a as [|c a IH]; simpl; [done | by rewrite IH]. Qed.

Lemma length_drop n s : String.length (drop n s) = String.length s - n.
Proof.
  revert s. induction n as [|n IH]; intros s; simpl; [lia|].
  destruct s as [|c s]; simpl; [done | apply IH].
Qed.

Lemma app_cons c a b : String c a +:+ b = String c (a +:+ b).
Proof. reflexivity. Qed.

Lemma app_empty_l s : "" +:+ s = s.
Proof. reflexivity. Qed.

Lemma app_assoc a b c : (a +:+ b) +:+ c = a +:+ (b +:+ c).
Proof. induction a as [|x a IH]; [done | by rewrite !app_cons, IH]. Qed.

Lemma get_drop i s : String.get i s = String.get 0 (drop i s).
Proof.
  revert s. induction i as [|i IH]; intros s; simpl; [done|].
  destruct s as [|c s]; simpl; [done | apply IH].
Qed.

End JsStringFacts.

(** ** Regular expressions *)

Module RegexFacts.
Import Regex.

(** A body that matches nothing, recognisably. *)
Fixpoint dead (r : re) : bool :=
  match r with
  | none => true
  | cat a _ => dead a
  | alt a b => dead a && dead b
  | _ => false
  end.

Lemma dead_not_nullable r : dead r = true -> nullable r = false.
Proof.
  induction r; simpl; try done.
  - intros H. by rewrite IHr1.
  - intros [H1 H2]%andb_true_iff. by rewrite IHr1, IHr2.
Qed.

Lemma dead_deriv c r : dead r = true -> dead (deriv c r) = true.
Proof.
  induction r; simpl; try done.
  - intros H. rewrite (dead_not_nullable r1 H). simpl. auto.
  - intros [H1 H2]%andb_true_iff. by rewrite IHr1, IHr2.
Qed.

Lemma matchHere_dead b r s : dead r = true -> matchHere b r s = false.
Proof.
  revert r. induction s as [|c s IH]; intros r H; simpl.
  - by apply dead_not_nullable.
  - rewrite (dead_not_nullable r H), andb_false_r. simpl.
    apply IH. by apply dead_deriv.
Qed.

Lemma matchHere_nullable r s : nullable r = true -> matchHere false r s = true.
Proof. intros H. destruct s; simpl; by rewrite H. Qed.

Lemma matchHere_alt b x y s :
  matchHere b (alt x y) s = matchHere b x s || matchHere b y s.
Proof.
  revert x y. induction s as [|c s IH]; intros x y; simpl; [done|].
  rewrite IH. destruct b, (nullable x), (nullable y); simpl; try done;
    by destruct (matchHere _ (deriv c x) s).
Qed.

Lemma matchHere_cat_eps b r s : matchHere b (cat eps r) s = matchHere b r s.
Proof.
  destruct s as [|c s]; simpl; [done|].
  rewrite matchHere_alt, (matchHere_dead b (cat none r)); done.
Qed.

(** A literal matches at the beginning exactly when it is a prefix. *)
Lemma matchHere_lit l s : matchHere false (lit l) s = String.prefix l s.
Proof.
  revert s. induction l as [|c l IH]; intros s.
  - simpl. destruct s; by rewrite ?matchHere_nullable.
  - destruct s as [|d s]; [done|].
    cbn [lit matchHere deriv nullable chr negb andb orb].
    destruct (Ascii.eqb_spec c d) as [->|Hne]; cbn [String.prefix].
    + rewrite matchHere_cat_eps, IH.
      destruct (ascii_dec d d); [done | congruence].
    + rewrite matchHere_dead by done.
      destruct (ascii_dec c d); [congruence | done].
Qed.

(** Bodies that match exactly the single characters of a class. *)
Definition singleChar (r : re) (f : ascii -> bool) : Prop :=
  forall s, matchHere false r s =
            match s with String c _ => f c | EmptyString => false end.

Lemma search_singleChar_hit r f tok t rest :
  singleChar r f ->
  JsString.forallb (fun c => negb (f c)) tok = true ->
  f t = true ->
  search false r (tok +:+ String t rest) = Some (String.length tok).
Proof.
  intros Hr. induction tok as [|c tok IH]; intros Htok Ht.
  - rewrite JsStringFacts.app_empty_l. cbn [search String.length].
    by rewrite Hr, Ht.
  - cbn [JsString.forallb] in Htok. apply andb_true_iff in Htok as [Hc Htok].
    rewrite JsStringFacts.app_cons. cbn [search String.length]. rewrite Hr.
    apply negb_true_iff in Hc. rewrite Hc, IH; done.
Qed.

Lemma search_singleChar_miss r f s :
  singleChar r f ->
  JsString.forallb (fun c => negb (f c)) s = true ->
  search false r s = None.
Proof.
  intros Hr. induction s as [|c s IH]; intros Hs.
  - cbn [search]. by rewrite Hr.
  - cbn [JsString.forallb] in Hs. apply andb_true_iff in Hs as [Hc Hs].
    cbn [search]. rewrite Hr. apply negb_true_iff in Hc. rewrite Hc, IH; done.
Qed.

Lemma search_singleChar_first r f c s :
  singleChar r f -> f c = true -> search false r (String c s) = Some 0.
Proof. intros Hr Hc. cbn [search]. by rewrite Hr, Hc. Qed.

End RegexFacts.

(** ** The patterns of [tag.js] *)

Module PatternFacts.
Import Regex RegexFacts.

Ltac flat_cases :=
  simpl; first [ apply matchHere_nullable; reflexivity
               | apply matchHere_dead; reflexivity ].

Lemma tagNameEnd_singleChar : singleChar (body tagNameEnd) isTagNameEnd.
Proof.
  intros [|c s]; [done|].
  cbn [tagNameEnd body matchHere deriv nullable chr negb andb orb].
  unfold isTagNameEnd. rewrite (Ascii.eqb_sym c "/"), (Ascii.eqb_sym c ">").
  destruct (isSpace c), (Ascii.eqb "/" c), (Ascii.eqb ">" c); flat_cases.
Qed.

Lemma attributeNameEnd_singleChar :
  singleChar (body attributeNameEnd) isAttributeNameEnd.
Proof.
  intros [|c s]; [done|].
  cbn [attributeNameEnd body matchHere deriv nullable chr negb andb orb].
  unfold isAttributeNameEnd.
  rewrite (Ascii.eqb_sym c "="), (Ascii.eqb_sym c "/"), (Ascii.eqb_sym c ">").
  destruct (isSpace c), (Ascii.eqb "=" c), (Ascii.eqb "/" c), (Ascii.eqb ">" c);
    flat_cases.
Qed.

(** [validTagName] has no [$]: it accepts every name that begins with a
    letter, whatever follows. *)
Lemma validTagName_letter c rest :
  isLetter c = true -> test validTagName (String c rest) = true.
Proof.
  intros Hc. unfold test, exec, validTagName.
  cbn [anchoredStart anchoredEnd body matchHere nullable opt plus chr
       negb andb orb deriv].
  rewrite Hc, matchHere_alt.
  rewrite (matchHere_nullable (cat (cat eps _) _)) by reflexivity.
  by rewrite orb_true_r.
Qed.

(** A prefix test fails on a name whose first character differs. *)
Lemma prefix_test_first l0 l c s :
  c <> l0 -> test (Regex true (lit (String l0 l)) false) (String c s) = false.
Proof.
  intros Hne. unfold test, exec. cbn [anchoredStart anchoredEnd body].
  rewrite matchHere_lit. cbn [String.prefix].
  destruct (ascii_dec l0 c); [congruence | done].
Qed.

Lemma matchHere_star_word w :
  JsString.forallb isWord w = true ->
  matchHere true (star (class isWord)) w = true.
Proof.
  induction w as [|c w IH]; [done|].
  cbn [JsString.forallb]. intros [Hc Hw]%andb_true_iff.
  cbn [matchHere deriv negb andb orb]. rewrite Hc, matchHere_cat_eps. auto.
Qed.

(** [/^:\w+$/] accepts a colon followed by a non-empty word. *)
Lemma shorthand_accepts c w :
  isWord c = true -> JsString.forallb isWord w = true ->
  test shorthand (String ":" (String c w)) = true.
Proof.
  intros Hc Hw. unfold test, exec, shorthand.
  cbn [anchoredStart anchoredEnd body matchHere deriv nullable plus chr
       negb andb orb].
  change (Ascii.eqb ":" ":") with true. cbn [nullable deriv].
  rewrite Hc, matchHere_alt, (matchHere_dead _ (cat none _)) by done.
  cbn [orb]. rewrite matchHere_cat_eps, matchHere_star_word; done.
Qed.

(** ... and nothing that does not begin with a colon. *)
Lemma shorthand_rejects c s : c <> ":"%char -> test shorthand (String c s) = false.
Proof.
  intros Hne. unfold test, exec, shorthand.
  cbn [anchoredStart anchoredEnd body matchHere deriv nullable plus chr
       negb andb orb].
  destruct (Ascii.eqb_spec ":" c) as [Heq|_]; [congruence|].
  rewrite matchHere_dead; done.
Qed.

End PatternFacts.

(** ** The cursor *)

(** The unread input and the state after consuming [k] characters. *)
Definition unread (p : parser) : string := JsString.sliceFrom (index p) (template p).
Definition advance (k : nat) (p : parser) : parser := setIndex (index p + k) p.

Module CursorFacts.
Import JsStringFacts.

Lemma unread_advance k p : unread (advance k p) = JsString.drop k (unread p).
Proof. unfold unread, advance, JsString.sliceFrom. simpl. by rewrite drop_drop. Qed.

Lemma advance_advance j k p : advance k (advance j p) = advance (j + k) p.
Proof. unfold advance, setIndex. simpl. f_equal. lia. Qed.

Lemma advance_0 p : advance 0 p = p.
Proof. destruct p. unfold advance, setIndex. simpl. f_equal. lia. Qed.

Lemma pmatch_unread str p :
  pmatch str p
  = Ok (String.eqb (JsString.take (String.length str) (unread p)) str, p).
Proof.
  unfold pmatch, gets, JsString.slice, unread, JsString.sliceFrom.
  by replace (index p + String.length str - index p) with (String.length str) by lia.
Qed.

Lemma eat_unread str required p :
  eat str required p
  = if String.eqb (JsString.take (String.length str) (unread p)) str
    then Ok (true, advance (String.length str) p)
    else if required
         then Throw (SyntaxError ("Expected " +:+ str) (Some (index p)))
         else Ok (false, p).
Proof.
  unfold eat, bind. rewrite pmatch_unread.
  destruct (String.eqb _ str); [done|]. by destruct required.
Qed.

Lemma eat_hit str required rest p :
  unread p = str +:+ rest ->
  eat str required p = Ok (true, advance (String.length str) p).
Proof.
  intros H. rewrite eat_unread, H, take_app_length. by rewrite String.eqb_refl.
Qed.

Lemma allowWhitespace_unread p :
  allowWhitespace p = Ok (tt, advance (leadingSpaces (unread p)) p).
Proof. reflexivity. Qed.

Lemma readUntil_unread pattern p :
  readUntil pattern p
  = match Regex.exec pattern (unread p) with
    | Some k => Ok (JsString.take k (unread p), advance k p)
    | None => Ok (unread p, advance (String.length (unread p)) p)
    end.
Proof. reflexivity. Qed.

Lemma eat_miss s0 str c rest p :
  unread p = String c rest -> c <> s0 ->
  eat (String s0 str) false p = Ok (false, p).
Proof.
  intros Hu Hne. rewrite eat_unread, Hu.
  cbn [String.length JsString.take String.eqb].
  by rewrite (proj2 (Ascii.eqb_neq c s0) Hne).
Qed.

(** Reading a name that ends at a terminator. *)
Lemma readUntil_token pattern f tok t rest p :
  Regex.anchoredStart pattern = false ->
  Regex.anchoredEnd pattern = false ->
  RegexFacts.singleChar (Regex.body pattern) f ->
  JsString.forallb (fun c => negb (f c)) tok = true ->
  f t = true ->
  unread p = tok +:+ String t rest ->
  readUntil pattern p = Ok (tok, advance (String.length tok) p).
Proof.
  intros Hs He Hr Htok Ht Hu. rewrite readUntil_unread, Hu. unfold Regex.exec.
  rewrite Hs, He.
  rewrite (RegexFacts.search_singleChar_hit _ f tok t rest Hr Htok Ht).
  by rewrite take_app_length.
Qed.

Lemma readUntil_tagName tok t rest p :
  JsString.forallb (fun c => negb (isTagNameEnd c)) tok = true ->
  isTagNameEnd t = true ->
  unread p = tok +:+ String t rest ->
  readUntil tagNameEnd p = Ok (tok, advance (String.length tok) p).
Proof.
  apply readUntil_token; [done | done | apply PatternFacts.tagNameEnd_singleChar].
Qed.

Lemma readUntil_attributeName tok t rest p :
  JsString.forallb (fun c => negb (isAttributeNameEnd c)) tok = true ->
  isAttributeNameEnd t = true ->
  unread p = tok +:+ String t rest ->
  readUntil attributeNameEnd p = Ok (tok, advance (String.length tok) p).
Proof.
  apply readUntil_token;
    [done | done | apply PatternFacts.attributeNameEnd_singleChar].
Qed.

End CursorFacts.

(** ** Reasoning about computations *)

Lemma bind_Ok_inv {A B} (m : M A) (k : A -> M B) p b p' :
  bind m k p = Ok (b, p') ->
  exists a p1, m p = Ok (a, p1) /\ k a p1 = Ok (b, p').
Proof.
  unfold bind. destruct (m p) as [[a p1]| |]; [eauto | done | done].
Qed.

Lemma bind_Ok {A B} (m : M A) (k : A -> M B) p a p1 :
  m p = Ok (a, p1) -> bind m k p = k a p1.
Proof. unfold bind. by intros ->. Qed.

Lemma bind_Throw {A B} (m : M A) (k : A -> M B) p e :
  m p = Throw e -> bind m k p = Throw e.
Proof. unfold bind. by intros ->. Qed.

(** A computation preserves a relation between its initial and final
    states when every successful run is related. *)
Definition preserves {A} (R : relation parser) (m : M A) : Prop :=
  forall p a p', m p = Ok (a, p') -> R p p'.

Section Preserves.
Context (R : relation parser) `{!Reflexive R} `{!Transitive R}.

Lemma preserves_ret {A} (a : A) : preserves R (ret a).
Proof. intros p a' p' [= _ <-]. reflexivity. Qed.

Lemma preserves_gets {A} (f : parser -> A) : preserves R (gets f).
Proof. intros p a' p' [= _ <-]. reflexivity. Qed.

Lemma preserves_throw {A} e : preserves R (throw (A := A) e).
Proof. intros p a p' [=]. Qed.

Lemma preserves_error {A} msg pos : preserves R (error (A := A) msg pos).
Proof. intros p a p' [=]. Qed.

Lemma preserves_errorHere {A} msg : preserves R (errorHere (A := A) msg).
Proof. intros p a p' [=]. Qed.

Lemma preserves_timeout {A} : preserves R (timeout (A := A)).
Proof. intros p a p' [=]. Qed.

Lemma preserves_bind {A B} (m : M A) (k : A -> M B) :
  preserves R m -> (forall a, preserves R (k a)) -> preserves R (bind m k).
Proof.
  intros Hm Hk p b p' (a & p1 & H1 & H2)%bind_Ok_inv.
  transitivity p1; [eapply Hm | eapply Hk]; eauto.
Qed.

Lemma preserves_if {A} (b : bool) (m1 m2 : M A) :
  preserves R m1 -> preserves R m2 -> preserves R (if b then m1 else m2).
Proof. by destruct b. Qed.

Lemma preserves_modify (f : parser -> parser) :
  (forall p, R p (f p)) -> preserves R (modify f).
Proof. intros Hf p a p' [= _ <-]. apply Hf. Qed.

End Preserves.

Lemma preserves_getNode (R : relation parser) `{!Reflexive R} r :
  preserves R (getNode r).
Proof.
  intros p a p'. unfold getNode. destruct r as [i|]; [|done].
  destruct (heap p !! i); [|done]. intros [= _ <-]. reflexivity.
Qed.

Create HintDb preserves.

Ltac preserves_step :=
  first
    [ simple apply preserves_ret; apply _
    | simple apply preserves_gets; apply _
    | simple apply preserves_getNode; apply _
    | simple apply preserves_throw | simple apply preserves_error
    | simple apply preserves_errorHere | simple apply preserves_timeout
    | solve [ eauto with preserves ]
    | simple apply preserves_bind; [ apply _ | | intros ? ]
    | simple apply preserves_if
    | match goal with
      | |- preserves _ (match ?x with _ => _ end) => destruct x
      end ].

Ltac preserves_auto := repeat preserves_step.

(** ** Computations that only move the cursor *)

(** The cursor moved and nothing else changed. *)
Definition cursorMoved (p p' : parser) : Prop := p' = setIndex (index p') p.

Global Instance cursorMoved_refl : Reflexive cursorMoved.
Proof. by intros []. Qed.

Global Instance cursorMoved_trans : Transitive cursorMoved.
Proof. intros p1 p2 p3 H12 H23. unfold cursorMoved in *. rewrite H23, H12. done. Qed.

Lemma modify_cursorMoved (f : parser -> nat) :
  preserves cursorMoved (modify (fun p => setIndex (f p) p)).
Proof. by simple apply preserves_modify. Qed.
Global Hint Resolve modify_cursorMoved : preserves.

Lemma setIndex_cursorMoved i : preserves cursorMoved (modify (setIndex i)).
Proof. by simple apply preserves_modify. Qed.
Global Hint Resolve setIndex_cursorMoved : preserves.

Lemma eat_cursorMoved str required : preserves cursorMoved (eat str required).
Proof. unfold eat, pmatch. preserves_auto. Qed.
Global Hint Resolve eat_cursorMoved : preserves.

Lemma allowWhitespace_cursorMoved : preserves cursorMoved allowWhitespace.
Proof. unfold allowWhitespace. preserves_auto. Qed.
Global Hint Resolve allowWhitespace_cursorMoved : preserves.

Lemma readUntil_cursorMoved pattern : preserves cursorMoved (readUntil pattern).
Proof.
  intros p a p'. unfold readUntil.
  destruct (Regex.exec _ _); intros [= _ <-]; done.
Qed.
Global Hint Resolve readUntil_cursorMoved : preserves.

Lemma atCursor_cursorMoved {A} (reader : string -> nat -> result (A * nat)) :
  preserves cursorMoved (atCursor reader).
Proof.
  intros p a p'. unfold atCursor.
  destruct (reader _ _) as [[? ?]| |]; [|done..]. by intros [= _ <-].
Qed.
Global Hint Resolve atCursor_cursorMoved : preserves.

Lemma insideBlock_cursorMoved l : preserves cursorMoved (insideBlock l).
Proof. induction l; simpl; preserves_auto. Qed.
Global Hint Resolve insideBlock_cursorMoved : preserves.

Lemma readTagName_cursorMoved : preserves cursorMoved readTagName.
Proof. unfold readTagName. preserves_auto. Qed.
Global Hint Resolve readTagName_cursorMoved : preserves.

Section CursorOnly.
Context {collaborators : Collaborators}.

Lemma readAttributeValueLoop_cursorMoved fuel q s d c :
  preserves cursorMoved (readAttributeValueLoop fuel q s d c).
Proof.
  revert q s d c. induction fuel as [|fuel IH]; intros q s d c; simpl;
    preserves_auto.
Qed.
Hint Resolve readAttributeValueLoop_cursorMoved : preserves.

Lemma readAttributeValue_cursorMoved : preserves cursorMoved readAttributeValue.
Proof. unfold readAttributeValue. preserves_auto. Qed.
Hint Resolve readAttributeValue_cursorMoved : preserves.

Lemma readAttribute_cursorMoved names : preserves cursorMoved (readAttribute names).
Proof. unfold readAttribute. preserves_auto. Qed.
Hint Resolve readAttribute_cursorMoved : preserves.

Lemma readAttributes_cursorMoved fuel names attrs :
  preserves cursorMoved (readAttributes fuel names attrs).
Proof.
  revert names attrs. induction fuel as [|fuel IH]; intros names attrs; simpl;
    preserves_auto.
Qed.

End CursorOnly.
Global Hint Resolve readAttributeValueLoop_cursorMoved readAttributeValue_cursorMoved
  readAttribute_cursorMoved readAttributes_cursorMoved : preserves.

(** ** Inversion of successful runs *)

Lemma ret_Ok_inv {A} (a b : A) p p' : ret a p = Ok (b, p') -> b = a /\ p' = p.
Proof. by intros [= <- <-]. Qed.

Lemma gets_Ok_inv {A} (f : parser -> A) p a p' :
  gets f p = Ok (a, p') -> a = f p /\ p' = p.
Proof. by intros [= <- <-]. Qed.

Lemma modify_Ok_inv f p a p' : modify f p = Ok (a, p') -> p' = f p.
Proof. by intros [= <-]. Qed.

Lemma getNode_Ok_inv r p n p' :
  getNode r p = Ok (n, p') -> exists i, r = Some i /\ heap p !! i = Some n /\ p' = p.
Proof.
  unfold getNode. destruct r as [i|]; [|done].
  destruct (heap p !! i) eqn:E; [|done]. intros [= <- <-]. eauto.
Qed.

Lemma updNode_Ok_inv r f p a p' :
  updNode r f p = Ok (a, p') ->
  exists i n, r = Some i /\ heap p !! i = Some n
              /\ p' = setHeap (<[i := f n]> (heap p)) p.
Proof.
  unfold updNode. intros (n & p1 & (i & -> & Hn & ->)%getNode_Ok_inv & H)%bind_Ok_inv.
  apply modify_Ok_inv in H. eauto.
Qed.

Lemma alloc_Ok_inv n p a p' :
  alloc n p = Ok (a, p') -> a = length (heap p) /\ p' = setHeap (heap p ++ [n]) p.
Proof. by intros [= <- <-]. Qed.

Lemma cursorMoved_inv {A} (m : M A) p a p' :
  preserves cursorMoved m -> m p = Ok (a, p') -> p' = setIndex (index p') p.
Proof. intros Hm H. exact (Hm _ _ _ H). Qed.

(** Decompose a hypothesis stating that a computation succeeded into
    the runs of its steps.  Steps that leave the state alone are
    eliminated; the others are kept, with a name for the state they
    produce. *)
Ltac inv_step H :=
  lazymatch type of H with
  | ret _ _ = Ok _ => apply ret_Ok_inv in H as [? ?]; subst
  | gets _ _ = Ok _ => apply gets_Ok_inv in H as [? ?]; subst
  | current _ = Ok _ => apply gets_Ok_inv in H as [? ?]; subst
  | throw _ _ = Ok _ => discriminate H
  | error _ _ _ = Ok _ => discriminate H
  | errorHere _ _ = Ok _ => discriminate H
  | timeout _ = Ok _ => discriminate H
  | getNode _ _ = Ok _ =>
      let i := fresh "i" in let Hr := fresh "Hr" in let Hn := fresh "Hn" in
      apply getNode_Ok_inv in H as (i & Hr & Hn & ?); subst
  | _ => idtac
  end.

Ltac inv_run H :=
  lazymatch type of H with
  | bind _ _ _ = Ok _ =>
      let a := fresh "a" in let q := fresh "q" in let H1 := fresh "Hm" in
      apply bind_Ok_inv in H as (a & q & H1 & H); inv_run H1; inv_run H
  | (if ?c then _ else _) _ = Ok _ => destruct c eqn:?; inv_run H
  | (match ?x with _ => _ end) _ = Ok _ => destruct x eqn:?; inv_run H
  | _ => inv_step H
  end.

(** ** Frames *)

(** What no operation changes in a node object. *)
Definition sameIdentity (n n' : Node.t) : Prop :=
  Node.type n' = Node.type n /\ Node.name n' = Node.name n
  /\ Node.start n' = Node.start n /\ Node.attributes n' = Node.attributes n.

Global Instance sameIdentity_refl : Reflexive sameIdentity.
Proof. by intros n. Qed.
Global Instance sameIdentity_trans : Transitive sameIdentity.
Proof. intros a b c (?&?&?&?) (?&?&?&?). unfold sameIdentity. split_and!; congruence. Qed.

(** [framesAbove b p p']: from [p] to [p'] the template is the same,
    registrations and objects persist, every object below [b] that is
    neither on the stack nor a text node is untouched, and the stack
    gained nothing below [b]. *)
Record framesAbove (b : nat) (p p' : parser) : Prop := FramesAbove {
  fr_template : template p' = template p;
  fr_metaTags : forall k, k ∈ metaTags p -> k ∈ metaTags p';
  fr_length : length (heap p) <= length (heap p');
  fr_identity : forall i n, heap p !! i = Some n ->
                  exists n', heap p' !! i = Some n' /\ sameIdentity n n';
  fr_closed : forall i n, i < b -> heap p !! i = Some n -> i ∉ stack p ->
                Node.type n <> Text -> heap p' !! i = Some n;
  fr_stack : forall i, i ∈ stack p' -> i ∈ stack p \/ b <= i
}.

Global Instance framesAbove_refl b : Reflexive (framesAbove b).
Proof. intros p. split; eauto. intros i n Hn. exists n. done. Qed.

Global Instance framesAbove_trans b : Transitive (framesAbove b).
Proof.
  intros p1 p2 p3 [T1 M1 L1 I1 C1 S1] [T2 M2 L2 I2 C2 S2]. split.
  - congruence.
  - auto.
  - lia.
  - intros i n Hn. destruct (I1 i n Hn) as (n' & Hn' & Hs).
    destruct (I2 i n' Hn') as (n'' & Hn'' & Hs'). exists n''. split; [done|].
    by etrans.
  - intros i n Hb Hn Hi Ht. apply C2; auto.
    intros Hin. destruct (S1 i Hin); [done | lia].
  - intros i Hi. destruct (S2 i Hi) as [Hin|]; auto.
Qed.

Lemma framesAbove_weaken b b' p p' :
  b <= b' -> framesAbove b' p p' -> framesAbove b p p'.
Proof.
  intros Hb [T Mt L I C S]. split; auto.
  - intros i n Hi. apply C. lia.
  - intros i Hi. destruct (S i Hi); [auto | right; lia].
Qed.

Lemma framesAbove_setIndex b j p : framesAbove b p (setIndex j p).
Proof. split; simpl; eauto. intros i n Hn. by exists n. Qed.

Lemma framesAbove_cursorMoved b p p' : cursorMoved p p' -> framesAbove b p p'.
Proof. intros ->. apply framesAbove_setIndex. Qed.

Lemma framesAbove_insert b i n n' p :
  heap p !! i = Some n -> sameIdentity n n' ->
  i ∈ stack p \/ b <= i \/ Node.type n = Text ->
  framesAbove b p (setHeap (<[i := n']> (heap p)) p).
Proof.
  intros Hn Hs Hc. split; simpl; auto.
  - by rewrite length_insert.
  - intros j m Hm. destruct (decide (i = j)) as [<-|Hne].
    + exists n'. rewrite list_lookup_insert_eq by (by eapply lookup_lt_Some).
      split; [done|]. congruence.
    + exists m. by rewrite list_lookup_insert_ne.
  - intros j m Hj Hm Hstack Ht. destruct (decide (i = j)) as [<-|Hne].
    + destruct Hc as [|[|]]; [done | lia | congruence].
    + by rewrite list_lookup_insert_ne.
Qed.

Lemma framesAbove_alloc b n p : framesAbove b p (setHeap (heap p ++ [n]) p).
Proof.
  split; simpl; auto.
  - rewrite length_app. lia.
  - intros i m Hm. exists m. split; [|done]. by apply lookup_app_l_Some.
  - intros i m _ Hm _ _. by apply lookup_app_l_Some.
Qed.

Lemma elem_of_removelast {A} (x : A) l : x ∈ removelast l -> x ∈ l.
Proof.
  induction l as [|a l IH]; simpl; [done|].
  destruct l as [|a' l]; [by intros ?%elem_of_nil|].
  intros [->|H]%elem_of_cons; [left | right; auto].
Qed.

Lemma framesAbove_pop b p : framesAbove b p (setStack (removelast (stack p)) p).
Proof.
  split; simpl; auto.
  - intros i n Hn. by exists n.
  - intros i Hi. left. by apply elem_of_removelast.
Qed.

Lemma framesAbove_push b e p : b <= e -> framesAbove b p (setStack (stack p ++ [e]) p).
Proof.
  intros He. split; simpl; auto.
  - intros i n Hn. by exists n.
  - intros i [Hi|Hi%list_elem_of_singleton]%elem_of_app; [auto | right; lia].
Qed.

Lemma framesAbove_setMetaTags b name p :
  framesAbove b p (setMetaTags (setAdd (metaTags p) name) p).
Proof.
  split; simpl; auto.
  - intros k Hk. unfold setAdd. destruct (setHas _ _); [done|].
    apply elem_of_app. by left.
  - intros i n Hn. by exists n.
Qed.

Lemma framesAbove_setProperty b pr c p :
  framesAbove b p (setProperty pr c p).
Proof. destruct pr; split; simpl; eauto; intros i n Hn; by exists n. Qed.

Lemma last_elem_of {A} (l : list A) x : last l = Some x -> x ∈ l.
Proof.
  intros H. apply last_Some in H as [l' ->]. apply elem_of_app. right. by left.
Qed.

(** The steps, as frames. *)
Lemma updNode_frames b r f p a q :
  updNode r f p = Ok (a, q) ->
  (forall n, sameIdentity n (f n)) ->
  (forall i n, r = Some i -> heap p !! i = Some n ->
               i ∈ stack p \/ b <= i \/ Node.type n = Text) ->
  framesAbove b p q.
Proof.
  intros (i & n & -> & Hn & ->)%updNode_Ok_inv Hf Hc.
  eapply framesAbove_insert; eauto.
Qed.

Lemma alloc_frames b n p a q : alloc n p = Ok (a, q) -> framesAbove b p q.
Proof. intros [-> ->]%alloc_Ok_inv. apply framesAbove_alloc. Qed.

Lemma stackPop_frames b p a q : stackPop p = Ok (a, q) -> framesAbove b p q.
Proof. intros ->%modify_Ok_inv. apply framesAbove_pop. Qed.

Lemma stackPush_frames b e p a q :
  stackPush e p = Ok (a, q) -> b <= e -> framesAbove b p q.
Proof. intros ->%modify_Ok_inv ?. by apply framesAbove_push. Qed.

Lemma cursor_frames {A} b (m : M A) p a q :
  preserves cursorMoved m -> m p = Ok (a, q) -> framesAbove b p q.
Proof. intros Hm H. apply framesAbove_cursorMoved. eapply Hm, H. Qed.

Lemma setEnd_identity e n : sameIdentity n (Node.setEnd e n).
Proof. done. Qed.
Lemma setData_identity d n : sameIdentity n (Node.setData d n).
Proof. done. Qed.
Lemma setChildren_identity c n : sameIdentity n (Node.setChildren c n).
Proof. done. Qed.
Global Hint Resolve setEnd_identity setData_identity setChildren_identity : core.

(** Only the store changed. *)
Definition storeMoved (p p' : parser) : Prop := p' = setHeap (heap p') p.

Global Instance storeMoved_refl : Reflexive storeMoved.
Proof. by intros []. Qed.
Global Instance storeMoved_trans : Transitive storeMoved.
Proof. intros p1 p2 p3 H12 H23. unfold storeMoved in *. rewrite H23, H12. done. Qed.

Lemma storeMoved_stack p q : storeMoved p q -> stack q = stack p.
Proof. by intros ->. Qed.
Lemma storeMoved_index p q : storeMoved p q -> index q = index p.
Proof. by intros ->. Qed.

Lemma updNode_storeMoved r f : preserves storeMoved (updNode r f).
Proof. intros p a p' (i & n & -> & Hn & ->)%updNode_Ok_inv. done. Qed.
Global Hint Resolve updNode_storeMoved : preserves.

Lemma alloc_storeMoved n : preserves storeMoved (alloc n).
Proof. intros p a p' [-> ->]%alloc_Ok_inv. done. Qed.
Global Hint Resolve alloc_storeMoved : preserves.

Lemma stripWhitespace_storeMoved r : preserves storeMoved (stripWhitespace r).
Proof. unfold stripWhitespace. preserves_auto. Qed.
Global Hint Resolve stripWhitespace_storeMoved : preserves.

Lemma updNode_stack r f p a q : updNode r f p = Ok (a, q) -> stack q = stack p.
Proof. intros H. eapply storeMoved_stack, updNode_storeMoved, H. Qed.

(** Only the registry of meta tags and the slots of the special blocks
    changed. *)
Definition slotsMoved (p p' : parser) : Prop :=
  p' = setJs (js p') (setCss (css p') (setMetaTags (metaTags p') p)).

Global Instance slotsMoved_refl : Reflexive slotsMoved.
Proof. by intros []. Qed.
Global Instance slotsMoved_trans : Transitive slotsMoved.
Proof. intros p1 p2 p3 H12 H23. unfold slotsMoved in *. rewrite H23, H12. done. Qed.

Lemma setMetaTags_slotsMoved (f : parser -> list string) :
  preserves slotsMoved (modify (fun p => setMetaTags (f p) p)).
Proof. simple apply preserves_modify. by intros []. Qed.
Global Hint Resolve setMetaTags_slotsMoved : preserves.

Lemma setProperty_slotsMoved pr c : preserves slotsMoved (modify (setProperty pr c)).
Proof. simple apply preserves_modify. by intros [] ; destruct pr. Qed.
Global Hint Resolve setProperty_slotsMoved : preserves.

Lemma checkMetaTag_slotsMoved start isClosingTag name :
  preserves slotsMoved (checkMetaTag start isClosingTag name).
Proof. unfold checkMetaTag, current. preserves_auto. Qed.
Global Hint Resolve checkMetaTag_slotsMoved : preserves.

Lemma stack_slots {A} (m : M A) x a y :
  preserves slotsMoved m -> m x = Ok (a, y) -> stack y = stack x.
Proof. intros Hm H. by rewrite (Hm _ _ _ H). Qed.

Lemma heap_slots {A} (m : M A) x a y :
  preserves slotsMoved m -> m x = Ok (a, y) -> heap y = heap x.
Proof. intros Hm H. by rewrite (Hm _ _ _ H). Qed.

Lemma slotsMoved_frames b p q :
  slotsMoved p q -> (forall k, k ∈ metaTags p -> k ∈ metaTags q) -> framesAbove b p q.
Proof.
  intros -> Hk. split; simpl; auto. intros i n Hn. by exists n.
Qed.

Lemma stack_cursor {A} (m : M A) x a y :
  preserves cursorMoved m -> m x = Ok (a, y) -> stack y = stack x.
Proof. intros Hm H. by rewrite (Hm _ _ _ H). Qed.

Lemma heap_cursor {A} (m : M A) x a y :
  preserves cursorMoved m -> m x = Ok (a, y) -> heap y = heap x.
Proof. intros Hm H. by rewrite (Hm _ _ _ H). Qed.

Lemma stack_store {A} (m : M A) x a y :
  preserves storeMoved m -> m x = Ok (a, y) -> stack y = stack x.
Proof. intros Hm H. by rewrite (Hm _ _ _ H). Qed.

Lemma index_store {A} (m : M A) x a y :
  preserves storeMoved m -> m x = Ok (a, y) -> index y = index x.
Proof. intros Hm H. by rewrite (Hm _ _ _ H). Qed.

Lemma index_pop x a y : stackPop x = Ok (a, y) -> index y = index x.
Proof. by intros ->%modify_Ok_inv. Qed.

Lemma stack_pop x a y : stackPop x = Ok (a, y) -> stack y = removelast (stack x).
Proof. by intros ->%modify_Ok_inv. Qed.

Lemma heap_pop x a y : stackPop x = Ok (a, y) -> heap y = heap x.
Proof. by intros ->%modify_Ok_inv. Qed.

(** Record what the kept steps do to the stack and to the store. *)
Ltac note_states :=
  repeat match goal with
    | H : ?m ?x = Ok (_, ?y) |- _ =>
        lazymatch goal with
        | _ : stack y = stack x |- _ => fail
        | _ =>
            first
              [ assert (stack y = stack x)
                  by (eapply stack_cursor; [ | exact H ]; solve [ eauto with preserves ]);
                assert (heap y = heap x)
                  by (eapply heap_cursor; [ | exact H ]; solve [ eauto with preserves ])
              | assert (stack y = stack x)
                  by (eapply stack_store; [ | exact H ]; solve [ eauto with preserves ]);
                assert (index y = index x)
                  by (eapply index_store; [ | exact H ]; solve [ eauto with preserves ])
              | assert (stack y = stack x)
                  by (eapply stack_slots; [ | exact H ]; solve [ eauto with preserves ]);
                assert (heap y = heap x)
                  by (eapply heap_slots; [ | exact H ]; solve [ eauto with preserves ]) ]
        end
    | H : stackPop ?x = Ok (_, ?y) |- _ =>
        lazymatch goal with
        | _ : stack y = removelast (stack x) |- _ => fail
        | _ => pose proof (stack_pop _ _ _ H); pose proof (heap_pop _ _ _ H);
               pose proof (index_pop _ _ _ H)
        end
    end.

(** Chain the frames of the kept steps, leaving their side conditions. *)
Ltac frames_chain :=
  lazymatch goal with
  | |- framesAbove _ ?p ?p => reflexivity
  | |- framesAbove ?b ?p ?q =>
      match goal with
      | H : framesAbove b ?q0 q |- _ =>
          transitivity q0; [ frames_chain | exact H ]
      | H : updNode _ _ ?q0 = Ok (_, q) |- _ =>
          transitivity q0;
          [ frames_chain | eapply (updNode_frames b _ _ _ _ _ H); [ auto | ] ]
      | H : alloc _ ?q0 = Ok (_, q) |- _ =>
          transitivity q0; [ frames_chain | exact (alloc_frames b _ _ _ _ H) ]
      | H : stackPop ?q0 = Ok (_, q) |- _ =>
          transitivity q0; [ frames_chain | exact (stackPop_frames b _ _ _ H) ]
      | H : stackPush _ ?q0 = Ok (_, q) |- _ =>
          transitivity q0; [ frames_chain | eapply (stackPush_frames b _ _ _ _ H) ]
      | H : ?m ?q0 = Ok (_, q) |- _ =>
          transitivity q0;
          [ frames_chain
          | eapply cursor_frames; [ | exact H ]; solve [ eauto with preserves ] ]
      end
  end.

Ltac on_stack :=
  left; simplify_eq;
  first
    [ by apply last_elem_of
    | repeat match goal with H : stack _ = stack _ |- _ => rewrite H end;
      first [ assumption | by apply last_elem_of ]
    | repeat match goal with H : stack _ = stack _ |- _ => rewrite H in * end;
      first [ assumption | by apply last_elem_of ] ].

Ltac is_text :=
  right; right; simplify_eq;
  match goal with
  | H : bool_decide (_ = Text) = true |- _ => by apply bool_decide_eq_true in H
  end.

Lemma stripWhitespace_frames b i p a p' :
  i ∈ stack p ->
  stripWhitespace (Some i) p = Ok (a, p') ->
  framesAbove b p p'.
Proof.
  intros Hi H. unfold stripWhitespace in H. inv_run H; note_states; frames_chain.
  all: intros j m Hj Hm'; first [ on_stack | is_text ].
Qed.

Section Frames.
Context {collaborators : Collaborators}.

Lemma closeWalk_frames b fuel start name : forall parent p r p',
  parent = last (stack p) ->
  closeWalk fuel start name parent p = Ok (r, p') ->
  framesAbove b p p' /\ r = last (stack p') /\ index p' = index p
  /\ exists i n, r = Some i /\ heap p' !! i = Some n /\ Node.name n = Some name.
Proof.
  induction fuel as [|fuel IH]; intros parent p r p' Hparent H; simpl in H.
  - inv_run H. split; [reflexivity|]. split; [done|]. split; [done|].
    apply bool_decide_eq_true in Heqb0. eauto.
  - inv_run H.
    + split; [reflexivity|]. split; [done|]. split; [done|].
      apply bool_decide_eq_true in Heqb0. eauto.
    + note_states.
      destruct (IH _ _ _ _ eq_refl H) as (Hf & Hr' & Hidx & Hnode).
      split; [|split; [done|split; [|done]]].
      * frames_chain. intros j m Hj Hm'. on_stack.
      * congruence.
Qed.

Lemma closeTag_frames b start name parent p a p' :
  parent = last (stack p) ->
  closeTag start name parent p = Ok (a, p') ->
  framesAbove b p p'.
Proof.
  intros Hparent H. unfold closeTag in H. inv_run H; note_states.
  match goal with
  | Hw : closeWalk _ _ _ _ _ = Ok _ |- _ =>
      eapply (closeWalk_frames b) in Hw
        as (Hf & Hr' & Hidx & i & n & -> & Hn & Hname); [ | congruence ]
  end.
  match goal with
  | Hs : stripWhitespace _ _ = Ok _ |- _ =>
      pose proof (stripWhitespace_frames b _ _ _ _ (last_elem_of _ _ (eq_sym Hr')) Hs)
  end.
  frames_chain. intros j m Hj Hm'. on_stack.
Qed.

Lemma impliedClose_frames b start name parent p a p' :
  parent = last (stack p) ->
  impliedClose start name parent p = Ok (a, p') ->
  framesAbove b p p'.
Proof.
  intros Hparent H. unfold impliedClose in H. inv_run H; note_states;
    try reflexivity.
  pose proof (last_elem_of _ _ Hr) as Hi. rewrite Hr in Hm, Hm0.
  eapply (stripWhitespace_frames b) in Hm; [ | done ].
  frames_chain. intros j m Hj Hm'. on_stack.
Qed.

(** The generic element: the new object is the last of the store. *)
Lemma createElement_frames b start name attributes p a p' :
  b <= length (heap p) ->
  createElement start name attributes p = Ok (a, p') ->
  framesAbove b p p'.
Proof.
  intros Hb H. unfold createElement in H. inv_run H; note_states.
  all: match goal with
       | Ha : alloc _ _ = Ok _ |- _ =>
           pose proof (proj1 (alloc_Ok_inv _ _ _ _ Ha))
       end; subst.
  all: unfold pushChild in *; frames_chain; try done.
  all: intros j m Hj _; simplify_eq; first [ on_stack | right; left; lia ].
Qed.

Lemma checkMetaTag_frames b start isClosingTag name p a p' :
  checkMetaTag start isClosingTag name p = Ok (a, p') -> framesAbove b p p'.
Proof.
  intros H. pose proof (checkMetaTag_slotsMoved _ _ _ _ _ _ H) as Hs.
  apply slotsMoved_frames; [done|].
  unfold checkMetaTag in H. inv_run H; try done.
  all: match goal with
       | Hm : modify _ _ = Ok _ |- _ => apply modify_Ok_inv in Hm; subst
       end; simpl.
  all: intros k Hk; unfold setAdd; destruct (setHas _ _); [done|];
    apply elem_of_app; by left.
Qed.

Lemma openTag_frames b start name p a p' :
  b <= length (heap p) ->
  openTag start name p = Ok (a, p') -> framesAbove b p p'.
Proof.
  intros Hb H. unfold openTag in H. inv_run H; note_states.
  - match goal with
    | Hm : modify (setProperty _ _) ?x = Ok (_, ?y) |- _ =>
        assert (framesAbove b x y)
          by (apply modify_Ok_inv in Hm; subst; apply framesAbove_setProperty)
    end.
    frames_chain.
  - eapply (createElement_frames b) in H; [ frames_chain | congruence ].
Qed.

(** Every successful run of the tag handler is a frame above the store
    it started from. *)
Lemma tag_frames p a p' :
  tag p = Ok (a, p') -> framesAbove (length (heap p)) p p'.
Proof.
  intros H. unfold tag in H. inv_run H; note_states.
  - unfold pushChild in *. frames_chain. intros j m Hj _. on_stack.
  - match goal with
    | Hc : checkMetaTag _ _ _ _ = Ok _ |- _ =>
        eapply (checkMetaTag_frames (length (heap p))) in Hc
    end.
    eapply (closeTag_frames (length (heap p))) in H; [ | simpl in *; congruence ].
    frames_chain.
  - match goal with
    | Hc : checkMetaTag _ _ _ _ = Ok _ |- _ =>
        eapply (checkMetaTag_frames (length (heap p))) in Hc
    end.
    match goal with
    | Hc : impliedClose _ _ _ _ = Ok _ |- _ =>
        eapply (impliedClose_frames (length (heap p))) in Hc;
          [ | simpl in *; congruence ]
    end.
    eapply (openTag_frames (length (heap p))) in H.
    + frames_chain.
    + match goal with
      | Hc : framesAbove _ ?x ?y |- _ <= length (heap ?y) =>
          transitivity (length (heap x)); [ | by destruct Hc ]
      end.
      simpl in *. apply Nat.eq_le_incl. congruence.
Qed.

Lemma text_frames p a p' :
  text p = Ok (a, p') -> framesAbove (length (heap p)) p p'.
Proof.
  intros H. unfold text in H. inv_run H; note_states.
  unfold pushChild in *. frames_chain. intros j m Hj _. on_stack.
Qed.

End Frames.

(** ** Well-formed states *)

(** The root fragment is at the bottom of the stack, the stack and the
    children of every object refer to objects of the store. *)
Record wellFormed (p : parser) : Prop := WellFormed {
  wf_root : exists r rest n,
      stack p = r :: rest /\ heap p !! r = Some n
      /\ Node.type n = Fragment /\ Node.name n = None;
  wf_stack : forall i, i ∈ stack p -> i < length (heap p);
  wf_children : forall i n c,
      heap p !! i = Some n -> c ∈ Node.children n -> c < length (heap p)
}.

Lemma initial_wellFormed template : wellFormed (initial template).
Proof.
  split.
  - exists 0, [], root. done.
  - intros i ->%list_elem_of_singleton. simpl. lia.
  - intros [|i] n c; simpl; [|done]. intros [= <-]. by intros ?%elem_of_nil.
Qed.

Lemma cursorMoved_wf p q : wellFormed p -> cursorMoved p q -> wellFormed q.
Proof. intros [R S C] ->. split; simpl; eauto. Qed.

Lemma slotsMoved_wf p q : wellFormed p -> slotsMoved p q -> wellFormed q.
Proof. intros [R S C] ->. split; simpl; eauto. Qed.

Lemma cursor_wf {A} (m : M A) p a q :
  preserves cursorMoved m -> m p = Ok (a, q) -> wellFormed p -> wellFormed q.
Proof. intros Hm H Hw. eapply cursorMoved_wf; [done|]. eapply Hm, H. Qed.

Lemma slots_wf {A} (m : M A) p a q :
  preserves slotsMoved m -> m p = Ok (a, q) -> wellFormed p -> wellFormed q.
Proof. intros Hm H Hw. eapply slotsMoved_wf; [done|]. eapply Hm, H. Qed.

Lemma updNode_wf r f p a q :
  updNode r f p = Ok (a, q) ->
  (forall n, sameIdentity n (f n)) ->
  (forall n c, c ∈ Node.children (f n) ->
               c ∈ Node.children n \/ c < length (heap p)) ->
  wellFormed p -> wellFormed q.
Proof.
  intros (i & n & -> & Hn & ->)%updNode_Ok_inv Hf Hc [R S C].
  split; simpl.
  - destruct R as (r & rest & m & Hs & Hm & Ht & Hname).
    destruct (decide (i = r)) as [->|Hne].
    + exists r, rest, (f n). rewrite list_lookup_insert_eq by (by eapply lookup_lt_Some).
      destruct (Hf n) as (? & ? & _). split_and!; [done|done|congruence|congruence].
    + exists r, rest, m. by rewrite list_lookup_insert_ne.
  - intros j Hj. rewrite length_insert. auto.
  - intros j m c. rewrite length_insert. destruct (decide (i = j)) as [->|Hne].
    + rewrite list_lookup_insert_eq by (by eapply lookup_lt_Some).
      intros [= <-] Hin. destruct (Hc _ _ Hin); eauto.
    + rewrite list_lookup_insert_ne by done. eauto.
Qed.

Lemma alloc_wf n p a q :
  alloc n p = Ok (a, q) -> Node.children n = [] -> wellFormed p -> wellFormed q.
Proof.
  intros [-> ->]%alloc_Ok_inv Hn [R S C]. split; simpl.
  - destruct R as (r & rest & m & Hs & Hm & Ht & Hname).
    exists r, rest, m. split_and!; try done. by apply lookup_app_l_Some.
  - intros j Hj. rewrite length_app. specialize (S j Hj). lia.
  - intros j m c Hm Hin. rewrite length_app.
    apply lookup_app_Some in Hm as [Hm|[_ Hm]].
    + specialize (C _ _ _ Hm Hin). lia.
    + destruct (j - length (heap p)); simplify_eq/=.
      * rewrite Hn in Hin. by apply elem_of_nil in Hin.
Qed.

Lemma stackPop_wf p a q :
  stackPop p = Ok (a, q) ->
  (exists i n, last (stack p) = Some i /\ heap p !! i = Some n
               /\ (Node.name n <> None \/ Node.type n = Element)) ->
  wellFormed p -> wellFormed q.
Proof.
  intros ->%modify_Ok_inv (i & n & Hl & Hn & Hnamed) [R S C]. split; simpl; auto.
  - destruct R as (r & rest & m & Hs & Hm & Ht & Hname). rewrite Hs in *.
    destruct rest as [|x rest].
    + simpl in Hl. simplify_eq. destruct Hnamed; congruence.
    + exists r, (removelast (x :: rest)), m. done.
  - intros j Hj. by apply S, elem_of_removelast.
Qed.

Lemma stackPush_wf e p a q :
  stackPush e p = Ok (a, q) -> e < length (heap p) -> wellFormed p -> wellFormed q.
Proof.
  intros ->%modify_Ok_inv He [R S C]. split; simpl; auto.
  - destruct R as (r & rest & m & Hs & Hm & Ht & Hname). rewrite Hs.
    exists r, (rest ++ [e]), m. done.
  - intros j [Hj| ->%list_elem_of_singleton]%elem_of_app; auto.
Qed.

Lemma elem_of_tail {A} (x : A) l : x ∈ tail l -> x ∈ l.
Proof. destruct l; simpl; [done|]. by right. Qed.

(** Chain the steps of a run for well-formedness. *)
Ltac wf_chain :=
  lazymatch goal with
  | |- wellFormed ?q =>
      first
        [ assumption
        | match goal with
          | H : updNode _ _ ?q0 = Ok (_, q) |- _ =>
              eapply (updNode_wf _ _ _ _ _ H); [ auto | | wf_chain ]
          | H : alloc _ ?q0 = Ok (_, q) |- _ =>
              eapply (alloc_wf _ _ _ _ H); [ reflexivity | wf_chain ]
          | H : stackPop ?q0 = Ok (_, q) |- _ =>
              eapply (stackPop_wf _ _ _ H); [ | wf_chain ]
          | H : stackPush _ ?q0 = Ok (_, q) |- _ =>
              eapply (stackPush_wf _ _ _ _ H); [ | wf_chain ]
          | H : ?m ?q0 = Ok (_, q) |- _ =>
              first
                [ eapply (cursor_wf m q0 _ q); [ solve [ eauto with preserves ] | exact H | wf_chain ]
                | eapply (slots_wf m q0 _ q); [ solve [ eauto with preserves ] | exact H | wf_chain ] ]
          end ]
  end.

Ltac children_shrink :=
  intros ? ? ?; simpl; first [ by left | left; by apply elem_of_tail
                             | left; by apply elem_of_removelast ].

Lemma stripWhitespace_wf r p a q :
  stripWhitespace r p = Ok (a, q) -> wellFormed p -> wellFormed q.
Proof.
  intros H Hw. unfold stripWhitespace in H. inv_run H; wf_chain.
  all: children_shrink.
Qed.

Lemma updNode_lookup i f p a q n :
  updNode (Some i) f p = Ok (a, q) -> heap p !! i = Some n ->
  heap q !! i = Some (f n).
Proof.
  intros (j & m & [= <-] & Hm & ->)%updNode_Ok_inv Hn. simpl.
  rewrite list_lookup_insert_eq by (by eapply lookup_lt_Some). congruence.
Qed.

Lemma updNode_length r f p a q :
  updNode r f p = Ok (a, q) -> length (heap q) = length (heap p).
Proof.
  intros (j & m & -> & Hm & ->)%updNode_Ok_inv. simpl. by rewrite length_insert.
Qed.

Section WellFormed.
Context {collaborators : Collaborators}.

Lemma closeWalk_wf fuel start name : forall parent p r q,
  parent = last (stack p) ->
  closeWalk fuel start name parent p = Ok (r, q) ->
  wellFormed p -> wellFormed q.
Proof.
  induction fuel as [|fuel IH]; intros parent p r q Hparent H Hw; simpl in H.
  - inv_run H. done.
  - inv_run H; [done|]. note_states.
    eapply IH; [ reflexivity | exact H | ].
    match goal with
    | Hl : last (stack p) = Some _ |- _ => rewrite Hl in *
    end.
    match goal with
    | Hb : negb (bool_decide (Node.type _ = Element)) = false |- _ =>
        apply negb_false_iff, bool_decide_eq_true in Hb
    end.
    match goal with
    | Hu : updNode (Some _) _ p = Ok _, Hl : heap p !! _ = Some _ |- _ =>
        pose proof (updNode_lookup _ _ _ _ _ _ Hu Hl) as Hn'
    end.
    wf_chain.
    + eexists _, _. split_and!; [ | exact Hn' | by right ]. congruence.
    + children_shrink.
Qed.

Lemma closeTag_wf start name parent p a q :
  parent = last (stack p) ->
  closeTag start name parent p = Ok (a, q) ->
  wellFormed p -> wellFormed q.
Proof.
  intros Hparent H Hw. unfold closeTag in H. inv_run H; note_states.
  match goal with
  | Hc : closeWalk _ _ _ _ ?x = Ok (_, ?y) |- _ =>
      assert (wellFormed y)
        by (eapply closeWalk_wf; [ | exact Hc | wf_chain ]; congruence);
      eapply (closeWalk_frames 0) in Hc
        as (_ & Hr' & _ & i & n & -> & Hn & Hname); [ | congruence ]
  end.
  match goal with
  | Hs : stripWhitespace _ ?x = Ok (_, ?y) |- _ =>
      assert (wellFormed y) by (eapply stripWhitespace_wf; eauto);
      eapply (stripWhitespace_frames 0) in Hs; [ | by apply last_elem_of ];
      destruct (fr_identity _ _ _ Hs _ _ Hn) as (n' & Hn' & _ & Hname' & _)
  end.
  match goal with
  | Hu : updNode (Some i) _ _ = Ok _ |- _ =>
      pose proof (updNode_lookup _ _ _ _ _ _ Hu Hn')
  end.
  wf_chain.
  - eexists i, _. split_and!; [ congruence | done | left; simpl; congruence ].
  - children_shrink.
Qed.

Lemma impliedClose_wf start name parent p a q :
  parent = last (stack p) ->
  impliedClose start name parent p = Ok (a, q) ->
  wellFormed p -> wellFormed q.
Proof.
  intros Hparent H Hw. unfold impliedClose in H. inv_run H; note_states; try done.
  rewrite Hr in *.
  assert (Hname : Node.name a0 <> None) by (by destruct (Node.name a0)).
  match goal with
  | Hs : stripWhitespace _ ?x = Ok (_, ?y) |- _ =>
      assert (wellFormed y) by (eapply stripWhitespace_wf; eauto);
      eapply (stripWhitespace_frames 0) in Hs; [ | by apply last_elem_of ];
      destruct (fr_identity _ _ _ Hs _ _ Hn) as (n' & Hn' & _ & Hname' & _)
  end.
  match goal with
  | Hu : updNode (Some i) _ _ = Ok _ |- _ =>
      pose proof (updNode_lookup _ _ _ _ _ _ Hu Hn')
  end.
  wf_chain.
  - eexists i, _. split_and!; [ congruence | done | left; simpl; congruence ].
  - children_shrink.
Qed.

Lemma appended_child_wf c : forall p n d,
  c < length (heap p) -> d ∈ Node.children n ++ [c] ->
  d ∈ Node.children n \/ d < length (heap p).
Proof.
  intros p n d Hc [Hd| ->%list_elem_of_singleton]%elem_of_app; auto.
Qed.

Lemma createElement_wf start name attributes p a q :
  createElement start name attributes p = Ok (a, q) ->
  wellFormed p -> wellFormed q.
Proof.
  intros H Hw. unfold createElement in H. inv_run H; note_states.
  all: match goal with
       | Ha : alloc _ ?x = Ok (_, ?y) |- _ =>
           pose proof (alloc_Ok_inv _ _ _ _ Ha) as [-> Hy];
           assert (length (heap x) < length (heap y))
             by (rewrite Hy; simpl; rewrite length_app; simpl; lia)
       end.
  all: unfold pushChild in *; wf_chain.
  all: try children_shrink.
  all: try (intros n c; apply appended_child_wf; done).
  match goal with
  | Hu : updNode _ _ _ = Ok _ |- _ => pose proof (updNode_length _ _ _ _ _ Hu)
  end.
  congruence.
Qed.

Lemma openTag_wf start name p a q :
  openTag start name p = Ok (a, q) -> wellFormed p -> wellFormed q.
Proof.
  intros H Hw. unfold openTag in H. inv_run H.
  - wf_chain.
  - eapply createElement_wf; [ exact H | wf_chain ].
Qed.

Lemma tag_wf p a q : tag p = Ok (a, q) -> wellFormed p -> wellFormed q.
Proof.
  intros H Hw. unfold tag in H. inv_run H; note_states.
  - match goal with
    | Ha : alloc _ ?x = Ok (_, ?y) |- _ =>
        pose proof (alloc_Ok_inv _ _ _ _ Ha) as [-> Hy];
        assert (length (heap x) < length (heap y))
          by (rewrite Hy; simpl; rewrite length_app; simpl; lia)
    end.
    unfold pushChild in *. wf_chain.
    intros n c; apply appended_child_wf; done.
  - eapply closeTag_wf; [ | exact H | wf_chain ]. simpl in *. congruence.
  - eapply openTag_wf; [ exact H | ].
    match goal with
    | Hc : impliedClose _ _ _ _ = Ok _ |- _ =>
        eapply impliedClose_wf; [ | exact Hc | wf_chain ]
    end.
    simpl in *. congruence.
Qed.

Lemma text_wf p a q : text p = Ok (a, q) -> wellFormed p -> wellFormed q.
Proof.
  intros H Hw. unfold text in H. inv_run H; note_states.
  match goal with
  | Ha : alloc _ ?x = Ok (_, ?y) |- _ =>
      pose proof (alloc_Ok_inv _ _ _ _ Ha) as [-> Hy];
      assert (length (heap x) < length (heap y))
        by (rewrite Hy; simpl; rewrite length_app; simpl; lia)
  end.
  unfold pushChild in *. wf_chain.
  intros n c; apply appended_child_wf; done.
Qed.

End WellFormed.

(** ** Tag names *)

(** The grammar as the specification words it: the whole token is an
    optional [!], letters, an optional colon, then alphanumerics and
    hyphens. *)
Definition tagNameGrammar : Regex.regex :=
  Regex.Regex true (Regex.body validTagName) true.

Lemma letter_not_colon c : Regex.isLetter c = true -> c <> ":"%char.
Proof. intros H ->. discriminate H. Qed.

Lemma letter_not_tagNameEnd c : Regex.isLetter c = true -> isTagNameEnd c = false.
Proof. destruct c as [[] [] [] [] [] [] [] []]; vm_compute; congruence. Qed.

(** A token that begins with a letter is returned as the tag name,
    whatever characters follow the letter. *)
Lemma readTagName_letter p c tok t rest :
  Regex.isLetter c = true ->
  JsString.forallb (fun c => negb (isTagNameEnd c)) tok = true ->
  isTagNameEnd t = true ->
  unread p = String c tok +:+ String t rest ->
  readTagName p = Ok (String c tok, advance (S (String.length tok)) p).
Proof.
  intros Hc Htok Ht Hu. unfold readTagName, bind at 1, gets.
  unfold bind at 1, SELF.
  rewrite (CursorFacts.eat_miss _ _ c (tok +:+ String t rest))
    by auto using letter_not_colon.
  unfold bind at 1.
  rewrite (CursorFacts.readUntil_tagName (String c tok) t rest); [| | done | done].
  2:{ cbn [JsString.forallb]. by rewrite (letter_not_tagNameEnd c Hc), Htok. }
  cbn [String.length].
  destruct (inObject _ _); [done|].
  unfold bind. by rewrite PatternFacts.validTagName_letter.
Qed.

(** C4, at the input [<a@b>]: the token [a@b] is outside the tag-name
    grammar, it is neither the self-reference sentinel nor a meta-tag
    name, and [readTagName] returns it without an error; the parse goes
    on to build an element of that name. *)
Theorem tag_name_with_foreign_characters_accepted :
  Regex.test tagNameGrammar "a@b" = false /\
  "a@b" <> SELF /\ inObject "a@b" metaTagsTable = false /\
  readTagName (advance 1 (initial "<a@b>"))
  = Ok ("a@b", advance 4 (initial "<a@b>")) /\
  exists p, parse (H := Reference.collaborators) "<a@b>x</a@b>" = Ok (tt, p)
            /\ Node.name <$> heap p !! 1 = Some (Some "a@b").
Proof.
  split; [reflexivity|]. split; [discriminate|]. split; [reflexivity|].
  split; [reflexivity|]. eexists. split; [vm_compute; reflexivity|reflexivity].
Qed.

(** ** Meta tags *)

Import CursorFacts.

Section MetaTags.
Context {collaborators : Collaborators}.

Lemma unread_advance_cons k p c s :
  unread p = String c s -> unread (advance (S k) p) = JsString.drop k s.
Proof. intros H. by rewrite unread_advance, H. Qed.

(** The header of a meta tag: after the [<], [:Window] and a terminator. *)
Lemma readTagName_Window p t rest :
  unread p = ":Window" +:+ String t rest -> isTagNameEnd t = true ->
  readTagName p = Ok (":Window", advance 7 p).
Proof.
  intros Hu Ht. unfold readTagName, bind at 1, gets.
  unfold bind at 1. rewrite eat_unread, Hu.
  cbv [String.append SELF String.length JsString.take].
  replace (String.eqb _ _) with false by reflexivity.
  unfold bind at 1.
  rewrite (readUntil_tagName ":Window" t rest); [ | reflexivity | done | done ].
  reflexivity.
Qed.

Definition windowTag (closing : bool) (p : parser) : Prop :=
  exists t rest,
    isTagNameEnd t = true /\
    unread p = (if closing then "</:Window" else "<:Window") +:+ String t rest.

Lemma tag_Window_header closing p :
  windowTag closing p ->
  tag p = (checkMetaTag (index p) closing ":Window" ;;;
           allowWhitespace ;;;
           if closing then closeTag (index p) ":Window" (last (stack p))
           else (impliedClose (index p) ":Window" (last (stack p)) ;;;
                 openTag (index p) ":Window")) (advance (if closing then 9 else 8) p).
Proof.
  intros (t & rest & Ht & Hu). unfold tag.
  unfold bind at 1. cbn [gets]. unfold bind at 1. cbn [modify].
  unfold bind at 1. cbn [current gets stack setIndex].
  change (setIndex (index p + 1) p) with (advance 1 p).
  assert (Hu1 : unread (advance 1 p)
                = (if closing then "/:Window" else ":Window") +:+ String t rest).
  { rewrite unread_advance, Hu. by destruct closing. }
  unfold bind at 1.
  rewrite (eat_miss "!" "--" (if closing then "/" else ":")%char
             ((if closing then ":Window" else "Window") +:+ String t rest));
    [ | by destruct closing | by destruct closing ].
  unfold bind at 1. destruct closing.
  - rewrite (eat_hit "/" false (":Window" +:+ String t rest)) by done.
    rewrite advance_advance. cbn [String.length Nat.add].
    unfold bind at 1.
    rewrite (readTagName_Window _ t rest); [ | | done].
    2:{ rewrite unread_advance, Hu. done. }
    by rewrite advance_advance.
  - rewrite (eat_miss "/" "" ":" ("Window" +:+ String t rest)) by done.
    unfold bind at 1.
    rewrite (readTagName_Window _ t rest) by done.
    by rewrite advance_advance.
Qed.
End MetaTags.

(** ** Runs of the handlers *)

Section Steps.
Context {collaborators : Collaborators}.

(** One call of a handler by the document driver. *)
Inductive handlerStep : parser -> parser -> Prop :=
| tagStep p a p' : tag p = Ok (a, p') -> handlerStep p p'
| textStep p a p' : text p = Ok (a, p') -> handlerStep p p'.

(** The states a parse goes through. *)
Definition reachable (q : parser) : Prop :=
  exists template, rtc handlerStep (initial template) q.

Lemma step_frames p q : handlerStep p q -> framesAbove (length (heap p)) p q.
Proof. intros [? ? ? H|? ? ? H]; [ by eapply tag_frames | by eapply text_frames ]. Qed.

Lemma steps_frames p q : rtc handlerStep p q -> framesAbove (length (heap p)) p q.
Proof.
  induction 1 as [p|p q r Hpq _ IH]; [reflexivity|].
  apply step_frames in Hpq. etrans; [exact Hpq|].
  eapply framesAbove_weaken; [ | exact IH ]. by destruct Hpq.
Qed.

Lemma step_wf p q : handlerStep p q -> wellFormed p -> wellFormed q.
Proof. intros [? ? ? H|? ? ? H]; [ by eapply tag_wf | by eapply text_wf ]. Qed.

Lemma steps_wf p q : rtc handlerStep p q -> wellFormed p -> wellFormed q.
Proof. induction 1; eauto using step_wf. Qed.

Lemma reachable_wf q : reachable q -> wellFormed q.
Proof. intros [t H]. eapply steps_wf; [ exact H | apply initial_wellFormed ]. Qed.

Lemma fragment_step p a q : fragment p = Ok (a, q) -> handlerStep p q.
Proof.
  unfold fragment, pmatch. intros H. inv_run H; [ by eapply tagStep | by eapply textStep ].
Qed.

Lemma parseLoop_steps fuel : forall p a q,
  parseLoop fuel p = Ok (a, q) -> rtc handlerStep p q.
Proof.
  induction fuel as [|fuel IH]; intros p a q H; simpl in H; inv_run H;
    try reflexivity.
  eapply rtc_l; [ eapply fragment_step; eassumption | eapply IH; eassumption ].
Qed.

Lemma parse_reachable template a q : parse template = Ok (a, q) -> reachable q.
Proof. intros H. exists template. by eapply parseLoop_steps. Qed.

(** *** The singleton check *)

Lemma inObject_elem name own : name ∈ own -> inObject name own = true.
Proof. intros H. unfold inObject. by rewrite bool_decide_eq_true_2. Qed.

Lemma checkMetaTag_registers start closing p a q :
  checkMetaTag start closing ":Window" p = Ok (a, q) -> ":Window" ∈ metaTags q.
Proof.
  unfold checkMetaTag.
  replace (inObject ":Window" metaTagsTable) with true by reflexivity.
  intros H. inv_run H. apply modify_Ok_inv in Hm. subst. simpl.
  unfold setAdd, setHas; case_bool_decide; [ done | set_solver ].
Qed.

Lemma tag_Window_registers p a q :
  windowTag false p -> tag p = Ok (a, q) -> ":Window" ∈ metaTags q.
Proof.
  intros Hw H. rewrite (tag_Window_header false p Hw) in H. inv_run H.
  match goal with
  | Hc : checkMetaTag _ _ _ _ = Ok _ |- _ =>
      pose proof (checkMetaTag_registers _ _ _ _ _ Hc) as Hreg
  end.
  note_states.
  match goal with
  | Hc : impliedClose _ _ _ _ = Ok _ |- _ =>
      eapply (impliedClose_frames 0) in Hc; [ | simpl in *; congruence ]
  end.
  eapply (openTag_frames 0) in H; [ | lia ].
  eapply fr_metaTags; [ exact H | ]. eapply fr_metaTags; [ eassumption | ].
  match goal with
  | Hc : allowWhitespace ?x = Ok (_, ?y) |- _ =>
      apply (cursor_frames 0) in Hc; [ | eauto with preserves ];
      eapply fr_metaTags; [ exact Hc | done ]
  end.
Qed.

Lemma checkMetaTag_registered_open start p :
  inObject ":Window" (metaTags p) = true ->
  checkMetaTag start false ":Window" p
  = Throw (SyntaxError "A component can only have one <:Window> tag" (Some start)).
Proof.
  intros H. unfold checkMetaTag.
  replace (inObject ":Window" metaTagsTable) with true by reflexivity.
  unfold bind at 1. cbn [gets]. unfold bind at 1. unfold bind at 1. by rewrite H.
Qed.

Lemma checkMetaTag_nested start p :
  inObject ":Window" (metaTags p) = false -> 1 < length (stack p) ->
  checkMetaTag start false ":Window" p
  = Throw (SyntaxError "<:Window> tags cannot be inside elements or blocks" (Some start)).
Proof.
  intros H Hd. unfold checkMetaTag.
  replace (inObject ":Window" metaTagsTable) with true by reflexivity.
  unfold bind at 1. cbn [gets]. unfold bind at 1. rewrite H.
  cbn [ret]. unfold bind at 1. cbn [modify]. unfold bind at 1. cbn [gets stack setMetaTags].
  by rewrite (proj2 (Nat.ltb_lt _ _) Hd).
Qed.

(** C8.  [:Window] is the singleton meta tag of [metaTagsTable].  An
    opening [<:Window] met after an earlier one was parsed raises a
    [SyntaxError] at the offset of the second tag, and so does an opening
    [<:Window] met while the stack holds more than the root. *)
Theorem singleton_meta_tag_twice_or_nested p :
  windowTag false p ->
  (forall p0 a p1,
      windowTag false p0 -> tag p0 = Ok (a, p1) -> rtc handlerStep p1 p ->
      tag p = Throw (SyntaxError "A component can only have one <:Window> tag"
                                 (Some (index p))))
  /\ (1 < length (stack p) ->
      exists message, tag p = Throw (SyntaxError message (Some (index p)))).
Proof.
  intros Hw. rewrite (tag_Window_header false p Hw). split.
  - intros p0 a p1 Hw0 H0 Hsteps.
    assert (Hreg : inObject ":Window" (metaTags p) = true).
    { apply inObject_elem. eapply fr_metaTags; [ by apply steps_frames | ].
      by eapply tag_Window_registers. }
    erewrite bind_Throw; [ reflexivity | ].
    by apply checkMetaTag_registered_open.
  - intros Hd. destruct (inObject ":Window" (metaTags p)) eqn:Hreg.
    + eexists. erewrite bind_Throw; [ reflexivity | ].
      by apply checkMetaTag_registered_open.
    + eexists. erewrite bind_Throw; [ reflexivity | ].
      by apply checkMetaTag_nested.
Qed.

Lemma getNode_Ok i n p : heap p !! i = Some n -> getNode (Some i) p = Ok (n, p).
Proof. intros H. unfold getNode. by rewrite H. Qed.

Lemma wellFormed_top p :
  wellFormed p -> exists i n, last (stack p) = Some i /\ heap p !! i = Some n.
Proof.
  intros [R S C]. destruct R as (r & rest & m & Hs & _).
  destruct (last (stack p)) as [i|] eqn:Hl.
  - destruct (lookup_lt_is_Some_2 (heap p) i) as [n Hn]; [ | by eauto ].
    by apply S, last_elem_of.
  - rewrite Hs in Hl. by apply last_None in Hl.
Qed.

Lemma checkMetaTag_registered_close start p :
  wellFormed p ->
  inObject ":Window" (metaTags p) = true ->
  exists message pos,
    checkMetaTag start true ":Window" p = Throw (SyntaxError message pos)
    /\ (message = "<:Window> cannot have children"
        \/ message = "A component can only have one <:Window> tag").
Proof.
  intros Hw H. destruct (wellFormed_top p Hw) as (i & n & Hl & Hn).
  unfold checkMetaTag.
  replace (inObject ":Window" metaTagsTable) with true by reflexivity.
  unfold bind at 1. cbn [gets]. unfold bind at 1. rewrite H.
  unfold bind at 1. unfold bind at 1. cbn [current gets].
  unfold bind at 1. rewrite Hl, (getNode_Ok i n p Hn).
  destruct (Node.children n) as [|c cs] eqn:Hc.
  - cbn [ret]. eauto.
  - destruct (lookup_lt_is_Some_2 (heap p) c) as [cn Hcn].
    { eapply wf_children; [ done | exact Hn | rewrite Hc; by left ]. }
    unfold bind at 1. rewrite (getNode_Ok c cn p Hcn). eauto.
Qed.

(** C9.  [</:Window] met in a well-formed state in which [:Window] is
    registered raises a [SyntaxError]; in particular the closing tag of
    an opening [<:Window] that was parsed earlier always raises. *)
Theorem closing_meta_tag_always_raises p :
  windowTag true p ->
  wellFormed p ->
  (inObject ":Window" (metaTags p) = true ->
   exists message pos,
     tag p = Throw (SyntaxError message pos)
     /\ (message = "<:Window> cannot have children"
         \/ message = "A component can only have one <:Window> tag"))
  /\ (forall p0 a p1,
        windowTag false p0 -> tag p0 = Ok (a, p1) -> rtc handlerStep p1 p ->
        exists message pos, tag p = Throw (SyntaxError message pos)).
Proof.
  intros Hw Hwf.
  assert (Hreg : inObject ":Window" (metaTags p) = true ->
          exists message pos,
            tag p = Throw (SyntaxError message pos)
            /\ (message = "<:Window> cannot have children"
                \/ message = "A component can only have one <:Window> tag")).
  { intros Hreg. rewrite (tag_Window_header true p Hw).
    destruct (checkMetaTag_registered_close (index p) (advance 9 p))
      as (message & pos & Hc & Hm); [ by eapply cursorMoved_wf | done | ].
    exists message, pos. split; [ | done ]. by erewrite bind_Throw. }
  split; [ done | ].
  intros p0 a p1 Hw0 H0 Hsteps.
  destruct Hreg as (message & pos & Ht & _); [ | by eauto ].
  apply inObject_elem. eapply fr_metaTags; [ by apply steps_frames | ].
  by eapply tag_Window_registers.
Qed.

End Steps.

(** ** The implied close *)

(** Every object but [i] and the text nodes is as it was. *)
Definition keepsOthers (i : nat) (p p' : parser) : Prop :=
  forall j m, j <> i -> heap p !! j = Some m -> Node.type m <> Text ->
              heap p' !! j = Some m.

Global Instance keepsOthers_refl i : Reflexive (keepsOthers i).
Proof. by intros p j m. Qed.
Global Instance keepsOthers_trans i : Transitive (keepsOthers i).
Proof. intros p1 p2 p3 H12 H23 j m Hj Hm Ht. eauto. Qed.

Lemma updNode_keepsOthers i r f p a q :
  updNode r f p = Ok (a, q) ->
  (forall k n, r = Some k -> heap p !! k = Some n -> k = i \/ Node.type n = Text) ->
  keepsOthers i p q.
Proof.
  intros (k & n & -> & Hn & ->)%updNode_Ok_inv Hc j m Hj Hm Ht. simpl.
  destruct (decide (k = j)) as [->|Hne].
  - destruct (Hc j n eq_refl Hn); [ done | congruence ].
  - by rewrite list_lookup_insert_ne.
Qed.

Ltac others_chain :=
  lazymatch goal with
  | |- keepsOthers _ ?p ?p => reflexivity
  | |- keepsOthers ?i ?p ?q =>
      match goal with
      | H : keepsOthers i ?q0 q |- _ =>
          transitivity q0; [ others_chain | exact H ]
      | H : updNode _ _ ?q0 = Ok (_, q) |- _ =>
          transitivity q0;
          [ others_chain | eapply (updNode_keepsOthers i _ _ _ _ _ H) ]
      end
  end.

Lemma stripWhitespace_keepsOthers i p a q :
  stripWhitespace (Some i) p = Ok (a, q) -> keepsOthers i p q.
Proof.
  intros H. unfold stripWhitespace in H. inv_run H; others_chain.
  all: intros k n' Hk Hn'; simplify_eq;
    first [ by left
          | right;
            match goal with
            | Hb : bool_decide (_ = Text) = true |- _ =>
                by apply bool_decide_eq_true in Hb
            end ].
Qed.

(** Does a parent of this name close at an opening tag of that name? *)
Definition closes (parentName : option string) (name : string) : bool :=
  match parentName ≫= mapGet disallowedContents with
  | Some disallowed => setHas disallowed name
  | None => false
  end.

(** C10.  The implied close looks at the name of the top of the stack
    only, pops the top or nothing, and leaves the entries below the top,
    and the objects they refer to, as they were. *)
Theorem implied_close_touches_only_the_top start name p a p' :
  impliedClose start name (last (stack p)) p = Ok (a, p') ->
  exists below top n,
    stack p = below ++ [top] /\ heap p !! top = Some n
    /\ stack p' = (if closes (Node.name n) name then below else below ++ [top])
    /\ index p' = index p
    /\ forall j m, j <> top -> heap p !! j = Some m -> Node.type m <> Text ->
                   heap p' !! j = Some m.
Proof.
  intros H. unfold impliedClose in H. inv_run H; note_states.
  all: match goal with
       | Hl : last (stack ?x) = Some ?i |- _ =>
           pose proof Hl as Hs; apply last_Some in Hs as [below Hs];
           exists below, i; eexists; split; [ exact Hs | split; [ eassumption | ] ]
       end.
  all: unfold closes;
    match goal with Ho : _ ≫= _ = _ |- _ => rewrite Ho end;
    try match goal with Hb : setHas _ _ = _ |- _ => rewrite Hb end.
  2, 3: by rewrite Hs.
  match goal with Hl : last (stack _) = Some _ |- _ => rewrite Hl in * end.
  split; [ | split ].
  - rewrite Hs in *.
    repeat match goal with Hx : stack _ = _ |- _ => rewrite Hx end.
    by rewrite removelast_last.
  - congruence.
  - match goal with
    | Hw : stripWhitespace _ _ = Ok _ |- _ => apply stripWhitespace_keepsOthers in Hw
    end.
    match goal with
    | Hp : heap p' = heap ?x |- _ =>
        assert (Hk : keepsOthers i p x)
          by (others_chain; intros ? ? [= ?] _; left; congruence);
        intros j m Hj Hm' Ht; rewrite Hp; eauto
    end.
Qed.

(** ** Void elements *)

(** The store keeps its size. *)

Definition sameSize (p p' : parser) : Prop := length (heap p') = length (heap p).

Global Instance sameSize_refl : Reflexive sameSize.
Proof. by intros p. Qed.
Global Instance sameSize_trans : Transitive sameSize.
Proof. unfold sameSize. intros p1 p2 p3 H12 H23. congruence. Qed.

Lemma cursor_sameSize {A} (m : M A) :
  preserves cursorMoved m -> preserves sameSize m.
Proof. intros Hm p a q H. unfold sameSize. by rewrite (Hm _ _ _ H). Qed.

Lemma slots_sameSize {A} (m : M A) :
  preserves slotsMoved m -> preserves sameSize m.
Proof. intros Hm p a q H. unfold sameSize. by rewrite (Hm _ _ _ H). Qed.

Global Hint Extern 5 (preserves sameSize _) =>
  simple apply @cursor_sameSize; solve [ eauto with preserves ] : preserves.
Global Hint Extern 6 (preserves sameSize _) =>
  simple apply @slots_sameSize; solve [ eauto with preserves ] : preserves.

Lemma updNode_sameSize r f : preserves sameSize (updNode r f).
Proof. intros p a q H. by eapply updNode_length. Qed.
Global Hint Resolve updNode_sameSize : preserves.

Lemma stackPop_sameSize : preserves sameSize stackPop.
Proof. unfold stackPop. by simple apply preserves_modify. Qed.
Global Hint Resolve stackPop_sameSize : preserves.

Lemma stripWhitespace_sameSize r : preserves sameSize (stripWhitespace r).
Proof. unfold stripWhitespace. preserves_auto. Qed.
Global Hint Resolve stripWhitespace_sameSize : preserves.

Ltac fold_heaps :=
  repeat match goal with
    | H : heap ?y = heap ?x |- _ => rewrite H in *; clear H
    end.

Section Created.
Context {collaborators : Collaborators}.

Lemma closeWalk_sameSize fuel start name parent :
  preserves sameSize (closeWalk fuel start name parent).
Proof.
  revert parent. induction fuel as [|fuel IH]; intros parent; simpl;
    unfold current; preserves_auto.
Qed.
Hint Resolve closeWalk_sameSize : preserves.

Lemma closeTag_sameSize start name parent :
  preserves sameSize (closeTag start name parent).
Proof. unfold closeTag. preserves_auto. Qed.

Lemma impliedClose_sameSize start name parent :
  preserves sameSize (impliedClose start name parent).
Proof. unfold impliedClose. preserves_auto. Qed.

(** What [createElement] builds. *)
Lemma createElement_spec start name attributes p a p' :
  wellFormed p ->
  createElement start name attributes p = Ok (a, p') ->
  exists slash : bool,
    heap p' !! length (heap p)
    = Some (Node.Make Element (Some start)
              (if slash || isVoidElementName name then Some (index p') else None)
              (Some name) "" attributes [])
    /\ stack p'
       = (if slash || isVoidElementName name then stack p
          else stack p ++ [length (heap p)]).
Proof.
  intros Hw H. unfold createElement in H. inv_run H; note_states.
  all: match goal with
       | Ha : alloc _ ?x = Ok (_, ?y) |- _ =>
           pose proof (alloc_Ok_inv _ _ _ _ Ha) as [-> Hy]
       end.
  all: match goal with
       | He : eat "/" false _ = Ok (?s, _) |- _ => exists s
       end.
  all: match goal with Hb : _ || _ = _ |- _ => rewrite Hb end.
  all: unfold pushChild in *.
  all: match goal with
       | Hu : updNode (last (stack ?y)) _ ?y = Ok (_, ?z) |- _ =>
           apply updNode_Ok_inv in Hu as (top & n & Hl & Hn & Hz);
           assert (Htop : top <> length (heap p))
             by (apply last_elem_of in Hl;
                 assert (top < length (heap p)); [ | lia ];
                 apply (wf_stack p Hw); congruence);
           assert (Hnew : heap z !! length (heap p)
                          = Some (Node.Make Element (Some start) None (Some name)
                                    "" attributes []))
             by (rewrite Hz, Hy; simpl;
                 rewrite list_lookup_insert_ne by done;
                 by rewrite lookup_app_r, Nat.sub_diag by lia)
       end.
  - split.
    + match goal with
      | Hu : updNode (Some _) _ ?x = Ok (_, p') |- _ =>
          assert (Hx : heap x !! length (heap p)
                       = Some (Node.Make Element (Some start) None (Some name)
                                 "" attributes [])) by congruence;
          rewrite (updNode_lookup _ _ _ _ _ _ Hu Hx);
          apply index_store in Hu; [ | eauto with preserves ]
      end.
      unfold Node.setEnd. simpl. do 3 f_equal. congruence.
    + rewrite Hz, Hy in *. simpl in *. congruence.
  - match goal with
    | Hs : stackPush _ ?x = Ok (_, p') |- _ =>
        apply modify_Ok_inv in Hs; subst p'
    end.
    simpl. split; [ congruence | ]. rewrite Hz, Hy in *. simpl in *. congruence.
Qed.

(** An element in the first new cell of the store was built by
    [createElement], in a well-formed state with the store of [p]. *)
Lemma tag_created p a p' e :
  wellFormed p ->
  tag p = Ok (a, p') ->
  heap p' !! length (heap p) = Some e ->
  Node.type e = Element ->
  exists start name attributes q,
    createElement start name attributes q = Ok (a, p')
    /\ wellFormed q /\ length (heap q) = length (heap p)
    /\ forall i, i ∈ stack q -> i ∈ stack p.
Proof.
  intros Hw H He Ht. unfold tag in H. inv_run H; note_states.
  - exfalso.
    match goal with
    | Ha : alloc _ ?x = Ok (_, ?y) |- _ =>
        pose proof (alloc_Ok_inv _ _ _ _ Ha) as [-> Hy]
    end.
    unfold pushChild in *.
    match goal with
    | Hu : updNode (last (stack ?y)) _ ?y = Ok (_, ?z) |- _ =>
        apply updNode_Ok_inv in Hu as (top & n & Hl & Hn & Hz);
        assert (Htop : top <> length (heap p))
          by (apply last_elem_of in Hl;
              assert (top < length (heap p)); [ | lia ];
              apply (wf_stack p Hw); simpl in *; congruence)
    end.
    match goal with
    | Hq : q3 = setHeap (heap ?x ++ _) ?x |- _ =>
        assert (Hh : heap x = heap p) by congruence
    end.
    rewrite Hz, Hy in He. simpl in He. rewrite Hh in He.
    rewrite list_lookup_insert_ne in He by done.
    rewrite lookup_app_r, Nat.sub_diag in He by lia.
    simpl in He. by simplify_eq.
  - exfalso.
    match goal with
    | Hc : closeTag _ _ _ ?x = Ok _ |- _ =>
        apply closeTag_sameSize in Hc; unfold sameSize in Hc
    end.
    apply lookup_lt_Some in He. simpl in *. fold_heaps. lia.
  - match goal with
    | Hc : impliedClose _ _ _ ?x = Ok (_, ?y) |- _ =>
        assert (wellFormed y)
          by (eapply impliedClose_wf; [ | exact Hc | wf_chain ]; simpl in *; congruence);
        pose proof (impliedClose_sameSize _ _ _ _ _ _ Hc) as Hsz;
        eapply (impliedClose_frames (length (heap x))) in Hc;
          [ | simpl in *; congruence ]
    end.
    unfold openTag in H. inv_run H; note_states.
    + exfalso. apply lookup_lt_Some in He. unfold sameSize in Hsz. simpl in *.
      fold_heaps. lia.
    + do 3 eexists. eexists. split; [ exact H | ].
      split; [ wf_chain | ]. split.
      * unfold sameSize in Hsz. simpl in *. fold_heaps. lia.
      * intros i Hi.
        match goal with
        | Hf : framesAbove _ ?x ?y, Hwf : wellFormed ?y |- _ =>
            assert (Hi' : i ∈ stack y) by congruence;
            destruct (fr_stack _ _ _ Hf i Hi') as [Hin|Hge];
            [ | pose proof (wf_stack _ Hwf i Hi'); unfold sameSize in Hsz; lia ]
        end.
        repeat match goal with
          | Hx : stack _ = stack _ |- _ => rewrite Hx in Hin; clear Hx
          end.
        done.
Qed.

End Created.

Section Void.
Context {collaborators : Collaborators}.

(** C6.  An element with a void-element name that a call of [tag]
    creates is not pushed on the stack, has its end set to the offset
    after the tag and has no children; it is never pushed later and is
    the same object, with no children, in every later state of the
    parse. *)
Theorem void_element_is_closed_at_once p a p' e name :
  wellFormed p ->
  tag p = Ok (a, p') ->
  heap p' !! length (heap p) = Some e ->
  Node.type e = Element ->
  Node.name e = Some name ->
  isVoidElementName name = true ->
  (length (heap p) ∉ stack p')
  /\ Node.end_ e = Some (index p')
  /\ Node.children e = []
  /\ forall q, rtc handlerStep p' q ->
               heap q !! length (heap p) = Some e /\ length (heap p) ∉ stack q.
Proof.
  intros Hw H He Ht Hname Hvoid.
  destruct (tag_created p a p' e Hw H He Ht)
    as (start & name' & attributes & q & Hc & Hwq & Hlen & Hstack).
  destruct (createElement_spec _ _ _ _ _ _ Hwq Hc) as (slash & Hnew & Hst).
  rewrite Hlen, He in Hnew. injection Hnew as ->. simpl in Hname.
  injection Hname as ->. rewrite Hvoid, orb_true_r in *. simpl.
  assert (Hout : length (heap p) ∉ stack p').
  { rewrite Hst. intros Hin%Hstack. apply (wf_stack p Hw) in Hin. lia. }
  split_and!; try done.
  intros r Hsteps. apply steps_frames in Hsteps.
  pose proof (lookup_lt_Some _ _ _ He) as Hlt. split.
  - eapply fr_closed; [ exact Hsteps | done | exact He | done | done ].
  - intros Hin. destruct (fr_stack _ _ _ Hsteps _ Hin); [ done | lia ].
Qed.

End Void.

(** ** Attribute names *)

(** How an attribute record comes from the token it was written as. *)
Definition writtenAs (token : string) (a : attribute) : Prop :=
  if Regex.test onPrefix token then True
  else if Regex.test bindPrefix token then True
  else if Regex.test refPrefix token
       then exists s e, a = Ref s e (JsString.sliceFrom 4 token)
  else if Regex.test shorthand token
       then exists s e v, a = Attribute s e (JsString.sliceFrom 1 token) v
  else exists s e v, a = Attribute s e token v.

Section Attributes.
Context {collaborators : Collaborators}.

Lemma setAdd_fresh names token :
  setHas names token = false -> setAdd names token = names ++ [token].
Proof. unfold setAdd. by intros ->. Qed.

Lemma readAttribute_Some names p a names' q :
  readAttribute names p = Ok ((Some a, names'), q) ->
  exists token, (token ∉ names) /\ names' = names ++ [token] /\ writtenAs token a.
Proof.
  intros H. unfold readAttribute in H. inv_run H; simplify_eq.
  all: match goal with
       | Hr : readUntil _ _ = Ok (?tok, _), Hh : setHas _ ?tok = false |- _ =>
           exists tok; rewrite (setAdd_fresh _ _ Hh);
           split; [ by apply bool_decide_eq_false in Hh | split; [ done | ] ]
       end.
  all: unfold writtenAs;
    repeat match goal with
      | Hb : Regex.test _ _ = _ |- _ => rewrite Hb; clear Hb
      end; eauto.
Qed.

Lemma readAttribute_None names p names' q :
  readAttribute names p = Ok ((None, names'), q) -> names' = names.
Proof. intros H. unfold readAttribute in H. inv_run H; by simplify_eq. Qed.

Lemma readAttributes_tokens fuel : forall names attrs p attrs' names' q,
  readAttributes fuel names attrs p = Ok ((attrs', names'), q) ->
  exists tokens new,
    names' = names ++ tokens /\ attrs' = attrs ++ new
    /\ Forall2 writtenAs tokens new
    /\ (NoDup names -> NoDup names').
Proof.
  induction fuel as [|fuel IH]; intros names attrs p attrs' names' q H;
    simpl in H; [ done | ].
  inv_run H.
  - match goal with
    | Hr : readAttribute _ _ = Ok _ |- _ =>
        apply readAttribute_Some in Hr as (token & Hfresh & -> & Hw)
    end.
    apply IH in H as (tokens & new & -> & -> & Hall & Hnd).
    exists (token :: tokens), (a0 :: new).
    rewrite <- !app_assoc. split_and!; try done.
    + by constructor.
    + intros Hn. rewrite <- app_assoc in Hnd. apply Hnd. apply NoDup_app. split_and!; [ done | | ].
      * intros x Hx ->%list_elem_of_singleton. done.
      * apply NoDup_singleton.
  - match goal with
    | Hr : readAttribute _ _ = Ok _ |- _ => apply readAttribute_None in Hr as ->
    end.
    simplify_eq.
    exists [], []. rewrite !app_nil_r. split_and!; done.
Qed.

Lemma readAttribute_duplicate names p token t rest :
  unread p = token +:+ String t rest ->
  token <> "" ->
  JsString.forallb (fun c => negb (isAttributeNameEnd c)) token = true ->
  isAttributeNameEnd t = true ->
  token ∈ names ->
  readAttribute names p
  = Throw (SyntaxError "Attributes need to be unique" (Some (index p))).
Proof.
  intros Hu Hne Htok Ht Hin. unfold readAttribute.
  unfold bind at 1. cbn [gets]. unfold bind at 1.
  rewrite (readUntil_attributeName token t rest) by done.
  destruct token as [|c token]; [ done | ]. cbn [JsString.truthy negb].
  unfold bind at 1. unfold setHas. by rewrite bool_decide_eq_true_2.
Qed.

(** X28.  The attribute tokens of a tag, as they are written,
    are pairwise distinct and each attribute record comes from its own
    token: a plain attribute is named by its token, a shorthand by its
    token without the colon, a ref by its token without the prefix.  A
    token equal to an earlier token of the tag raises a [SyntaxError] at
    the offset of the token. *)
Theorem attribute_tokens_are_unique :
  (forall fuel p attributes tokens q,
      readAttributes fuel [] [] p = Ok ((attributes, tokens), q) ->
      NoDup tokens /\ Forall2 writtenAs tokens attributes)
  /\ (forall names p token t rest,
         unread p = token +:+ String t rest ->
         token <> "" ->
         JsString.forallb (fun c => negb (isAttributeNameEnd c)) token = true ->
         isAttributeNameEnd t = true ->
         token ∈ names ->
         readAttribute names p
         = Throw (SyntaxError "Attributes need to be unique" (Some (index p)))).
Proof.
  split.
  - intros fuel p attributes tokens q H.
    apply readAttributes_tokens in H as (tokens' & new & -> & -> & Hall & Hnd).
    simpl. split; [ apply Hnd, NoDup_nil_2 | done ].
  - apply readAttribute_duplicate.
Qed.

End Attributes.

(** ** Special blocks *)

Section Specials.
Context {collaborators : Collaborators}.

(** The header of an opening tag whose name begins with a letter. *)
Lemma tag_named_header p c tok t rest :
  Regex.isLetter c = true ->
  JsString.forallb (fun c => negb (isTagNameEnd c)) tok = true ->
  isTagNameEnd t = true ->
  unread p = "<" +:+ String c tok +:+ String t rest ->
  tag p = (checkMetaTag (index p) false (String c tok) ;;;
           allowWhitespace ;;;
           impliedClose (index p) (String c tok) (last (stack p)) ;;;
           openTag (index p) (String c tok)) (advance (S (S (String.length tok))) p)
  /\ unread (advance (S (S (String.length tok))) p) = String t rest.
Proof.
  intros Hc Htok Ht Hu. 
  assert (Hu1 : unread (advance 1 p) = String c tok +:+ String t rest).
  { by rewrite unread_advance, Hu. }
  split.
  - unfold tag.
    unfold bind at 1. cbn [gets]. unfold bind at 1. cbn [modify].
    unfold bind at 1. cbn [current gets stack setIndex].
    change (setIndex (index p + 1) p) with (advance 1 p).
    unfold bind at 1.
    rewrite (eat_miss "!" "--" c (tok +:+ String t rest)); [ | done | ].
    2:{ intros ->. discriminate Hc. }
    unfold bind at 1.
    rewrite (eat_miss "/" "" c (tok +:+ String t rest)); [ | done | ].
    2:{ intros ->. discriminate Hc. }
    unfold bind at 1.
    rewrite (readTagName_letter _ c tok t rest) by done.
    by rewrite advance_advance.
  - rewrite unread_advance, Hu.
    change (JsString.drop (S (S (String.length tok))) ("<" +:+ String c tok +:+ String t rest))
      with (JsString.drop (String.length tok) (tok +:+ String t rest)).
    apply JsStringFacts.drop_app_length.
Qed.

Lemma specials_names name read pr :
  mapGet specials name = Some (read, pr) ->
  (name = "script" /\ pr = PropertyJs) \/ (name = "style" /\ pr = PropertyCss).
Proof.
  unfold specials. cbn [mapGet].
  destruct (String.eqb_spec "script" name) as [<-|_]; [ intros [= _ <-]; by left | ].
  destruct (String.eqb_spec "style" name) as [<-|_]; [ intros [= _ <-]; by right | ].
  done.
Qed.

Lemma wellFormed_root_only p :
  wellFormed p -> length (stack p) = 1 ->
  exists r n, last (stack p) = Some r /\ heap p !! r = Some n /\ Node.name n = None.
Proof.
  intros [R S C] Hlen. destruct R as (r & rest & n & Hs & Hn & _ & Hname).
  rewrite Hs in *. destruct rest; [ | done ]. exists r, n. done.
Qed.

(** C3, amended.  At an opening [<script] or [<style] tag met at top
    level when the slot of its kind is populated, once the attributes of
    the tag are read, [tag] raises a [SyntaxError] that carries the
    offset of this tag, not of the block that filled the slot. *)
Theorem duplicate_special_error_at_second_tag p name t rest read pr r q :
  wellFormed p ->
  length (stack p) = 1 ->
  mapGet specials name = Some (read, pr) ->
  isTagNameEnd t = true ->
  unread p = "<" +:+ name +:+ String t rest ->
  is_Some (getProperty pr p) ->
  readAttributes (S (String.length (template p))) [] []
    (advance (leadingSpaces (String t rest)) (advance (S (String.length name)) p))
  = Ok (r, q) ->
  tag p = Throw (SyntaxError
                   ("You can only have one top-level <" +:+ name +:+ "> tag per component")
                   (Some (index p))).
Proof.
  intros Hw Hdepth Hsp Ht Hu Hslot Hattrs.
  destruct (wellFormed_root_only p Hw Hdepth) as (root & n & Hl & Hn & Hname).
  assert (Hname' : exists c tok, name = String c tok /\ Regex.isLetter c = true
            /\ JsString.forallb (fun c => negb (isTagNameEnd c)) tok = true
            /\ inObject name metaTagsTable = false).
  { destruct (specials_names _ _ _ Hsp) as [[-> _]|[-> _]]; do 2 eexists; done. }
  destruct Hname' as (c & tok & -> & Hc & Htok & Hmeta).
  destruct (tag_named_header p c tok t rest Hc Htok Ht Hu) as [-> Hu2].
  set (p1 := advance (S (S (String.length tok))) p) in *.
  unfold bind at 1. unfold checkMetaTag. rewrite Hmeta. cbn [ret].
  unfold bind at 1. rewrite allowWhitespace_unread, Hu2.
  unfold bind at 1. unfold impliedClose. unfold bind at 1.
  rewrite Hl. rewrite (getNode_Ok root n) by done. rewrite Hname. cbn [mbind option_bind ret].
  unfold openTag. unfold bind at 1. cbn [gets]. unfold bind at 1.
  change (template (advance _ p1)) with (template p).
  change (String.length (String c tok)) with (S (String.length tok)) in Hattrs.
  fold p1 in Hattrs. rewrite Hattrs.
  pose proof (readAttributes_cursorMoved _ _ _ _ _ _ Hattrs) as Hq.
  unfold bind at 1. rewrite allowWhitespace_unread.
  unfold bind at 1. cbn [gets].
  replace (length (stack (advance _ q))) with 1
    by (rewrite Hq; simpl; done).
  cbn [Nat.eqb]. rewrite Hsp.
  unfold bind at 1. cbn [gets].
  replace (getProperty pr (advance _ q)) with (getProperty pr p)
    by (rewrite Hq; by destruct pr).
  rewrite bool_decide_eq_true_2 by done.
  reflexivity.
Qed.

End Specials.

(** ** The attribute shorthand *)

Lemma word_not_attributeNameEnd c :
  Regex.isWord c = true -> isAttributeNameEnd c = false.
Proof. destruct c as [[] [] [] [] [] [] [] []]; vm_compute; congruence. Qed.

Lemma word_not_colon c : Regex.isWord c = true -> c <> ":"%char.
Proof. intros H ->. discriminate H. Qed.

Lemma words_not_attributeNameEnd w :
  JsString.forallb Regex.isWord w = true ->
  JsString.forallb (fun c => negb (isAttributeNameEnd c)) w = true.
Proof.
  induction w as [|c w IH]; [ done | ]. cbn [JsString.forallb].
  intros [Hc Hw]%andb_true_iff. by rewrite (word_not_attributeNameEnd c Hc), IH.
Qed.

Lemma prefix_word l s :
  String.prefix l s = true -> JsString.forallb Regex.isWord s = true ->
  JsString.forallb Regex.isWord l = true.
Proof.
  revert s. induction l as [|a l IH]; intros s; [ done | ].
  destruct s as [|b s]; [ done | ]. cbn [String.prefix JsString.forallb].
  destruct (ascii_dec a b) as [->|]; [ | done ].
  intros Hp [Hb Hs]%andb_true_iff. rewrite Hb. eauto.
Qed.

Lemma prefix_test_word l s :
  JsString.forallb Regex.isWord l = false ->
  JsString.forallb Regex.isWord s = true ->
  Regex.test (Regex.Regex true (Regex.lit l) false) s = false.
Proof.
  intros Hl Hs. unfold Regex.test, Regex.exec.
  cbn [Regex.anchoredStart Regex.anchoredEnd Regex.body].
  rewrite RegexFacts.matchHere_lit.
  destruct (String.prefix l s) eqn:Hp; [ | done ].
  by rewrite (prefix_word l s Hp Hs) in Hl.
Qed.

Lemma index_lt_length p ch s :
  unread p = String ch s -> index p < String.length (template p).
Proof.
  intros Hu. pose proof (JsStringFacts.length_drop (index p) (template p)) as Hl.
  unfold unread, JsString.sliceFrom in Hu. rewrite Hu in Hl. simpl in Hl. lia.
Qed.

Lemma charAt_unread p ch s :
  unread p = String ch s -> JsString.charAt (index p) (template p) = Some ch.
Proof.
  intros Hu. unfold JsString.charAt. rewrite JsStringFacts.get_drop.
  unfold unread, JsString.sliceFrom in Hu. by rewrite Hu.
Qed.

Section Shorthand.
Context {collaborators : Collaborators}.

(** [:word] followed by a terminator. *)
Lemma readAttribute_shorthand names p c w t rest :
  Regex.isWord c = true ->
  JsString.forallb Regex.isWord w = true ->
  isAttributeNameEnd t = true ->
  unread p = ":" +:+ String c w +:+ String t rest ->
  (":" +:+ String c w) ∉ names ->
  let q := advance (leadingSpaces (String t rest)) (advance (S (S (String.length w))) p) in
  let span := index p + 1 + String.length (String c w) in
  readAttribute names p
  = Ok ((Some (Attribute (index p) (index q) (String c w)
                 (ValueChunks
                    [ AttributeShorthandChunk (index p + 1) span
                        (Identifier (index p + 1) span (String c w)) ])),
         names ++ [":" +:+ String c w]), q).
Proof.
  intros Hc Hw Ht Hu Hfresh q span. unfold readAttribute.
  unfold bind at 1. cbn [gets]. unfold bind at 1.
  rewrite (readUntil_attributeName (":" +:+ String c w) t rest); [ | | done | done ].
  2:{ change (":" +:+ String c w) with (String ":" (String c w)).
      cbn [JsString.forallb].
      by rewrite (word_not_attributeNameEnd c Hc), words_not_attributeNameEnd. }
  change (":" +:+ String c w) with (String ":" (String c w)) in *.
  cbn [JsString.truthy negb String.length].
  unfold bind at 1. unfold setHas at 1. rewrite bool_decide_eq_false_2 by done.
  cbn [ret]. unfold bind at 1. rewrite allowWhitespace_unread.
  rewrite unread_advance, Hu.
  change (":" +:+ String c w +:+ String t rest)
    with (String ":" (String c (w +:+ String t rest))).
  cbn [JsString.drop]. rewrite JsStringFacts.drop_app_length.
  unfold onPrefix, bindPrefix, refPrefix.
  rewrite !(PatternFacts.prefix_test_first _ _ ":") by done.
  rewrite PatternFacts.shorthand_accepts by done.
  unfold bind at 1. cbn [gets ret JsString.sliceFrom JsString.drop].
  unfold setAdd, setHas. rewrite bool_decide_eq_false_2 by done.
  reflexivity.
Qed.


Lemma setIndex_setIndex a b p : setIndex a (setIndex b p) = setIndex a p.
Proof. reflexivity. Qed.

Lemma advance_setIndex a b p : advance a (setIndex b p) = setIndex (b + a) p.
Proof. reflexivity. Qed.

Lemma advance_as_setIndex a p : advance a p = setIndex (index p + a) p.
Proof. reflexivity. Qed.

(** A quoted value that is one embedded expression. *)
Lemma readAttributeValue_mustache q body e j rest :
  unread q = doubleQuote +:+ "{{" +:+ body ->
  readExpression (template q) (index q + 3) = Ok (e, j) ->
  let k := leadingSpaces (unread (setIndex j q)) in
  JsString.drop k (unread (setIndex j q)) = "}}" +:+ doubleQuote +:+ rest ->
  readAttributeValue q
  = Ok ([ MustacheTagChunk (index q + 1) (j + k + 2) e ], setIndex (j + k + 3) q).
Proof.
  intros Hu He k Hclose. unfold readAttributeValue.
  unfold bind at 1.
  rewrite (eat_miss "'" "" (ascii_of_nat 34) ("{{" +:+ body)) by done.
  unfold bind at 1. rewrite (eat_hit doubleQuote false ("{{" +:+ body)) by done.
  change (String.length doubleQuote) with 1.
  assert (Hu1 : unread (advance 1 q) = "{{" +:+ body).
  { by rewrite unread_advance, Hu. }
  unfold bind at 1. cbn [gets]. unfold bind at 1. cbn [gets].
  change (template (advance 1 q)) with (template q).
  cbn [readAttributeValueLoop].
  unfold bind at 1. cbn [gets]. unfold bind at 1. cbn [gets].
  change (template (advance 1 q)) with (template q).
  assert (Hlt : index (advance 1 q) < String.length (template q)).
  { eapply (index_lt_length (advance 1 q)). exact Hu1. }
  rewrite (proj2 (Nat.ltb_lt _ _) Hlt).
  unfold bind at 1. rewrite (eat_hit "{{" false body) by done.
  rewrite advance_advance. cbn [String.length Nat.add JsString.truthy].
  unfold bind at 1. unfold atCursor at 1.
  change (template (advance 3 q)) with (template q).
  change (index (advance 3 q)) with (index q + 3). rewrite He.
  unfold bind at 1. rewrite allowWhitespace_unread.
  change (unread (setIndex j (advance 3 q))) with (unread (setIndex j q)).
  fold k. rewrite advance_setIndex.
  assert (Hu2 : unread (setIndex (j + k) q) = "}}" +:+ doubleQuote +:+ rest).
  { rewrite <- Hclose. change (setIndex (j + k) q) with (advance k (setIndex j q)).
    apply unread_advance. }
  change (setIndex (j + k) (advance 3 q)) with (setIndex (j + k) q).
  unfold bind at 1. rewrite (eat_hit "}}" false (doubleQuote +:+ rest)) by done.
  rewrite advance_setIndex. cbn [String.length negb].
  unfold bind at 1. cbn [ret]. unfold bind at 1. cbn [gets index setIndex].
  assert (Hu3 : unread (setIndex (j + k + 2) q) = doubleQuote +:+ rest).
  { change (setIndex (j + k + 2) q) with (advance 2 (setIndex (j + k) q)).
    by rewrite unread_advance, Hu2. }
  pose proof (index_lt_length _ _ _ Hu3) as Hlt2.
  change (template (setIndex (j + k + 2) q)) with (template q) in Hlt2.
  cbn [index setIndex] in Hlt2.
  remember (String.length (template q)) as len eqn:Hlen.
  clearbody k. destruct len as [|fuel]; [ lia | ].
  cbn [readAttributeValueLoop].
  unfold bind at 1. cbn [gets]. unfold bind at 1. cbn [gets].
  change (template (setIndex (j + k + 2) q)) with (template q).
  rewrite <- Hlen. cbn [index setIndex].
  rewrite (proj2 (Nat.ltb_lt _ _) Hlt2).
  unfold bind at 1.
  rewrite (eat_miss "{" "{" (ascii_of_nat 34) rest) by done.
  unfold bind at 1. cbn [gets].
  rewrite (charAt_unread _ _ _ Hu3).
  replace (done_ (Some doubleQuote) (ascii_of_nat 34)) with true by reflexivity.
  rewrite bool_decide_eq_true_2 by done.
  unfold bind at 1. cbn [modify JsString.truthy app map decodeChunk ret index setIndex].
  change (setIndex (j + k + 2 + 1) (setIndex (j + k + 2) q))
    with (setIndex (j + k + 2 + 1) q).
  replace (j + k + 2 + 1) with (j + k + 3) by lia. reflexivity.
Qed.

(** [word="{{ expression }}"], the expression being read by the
    expression reader. *)
Lemma readAttribute_mustache names p c w body e j rest :
  Regex.isWord c = true ->
  JsString.forallb Regex.isWord w = true ->
  unread p = String c w +:+ "=" +:+ doubleQuote +:+ "{{" +:+ body ->
  String c w ∉ names ->
  let opened := index p + String.length (String c w) + 2 in
  readExpression (template p) (opened + 2) = Ok (e, j) ->
  let k := leadingSpaces (unread (setIndex j p)) in
  JsString.drop k (unread (setIndex j p)) = "}}" +:+ doubleQuote +:+ rest ->
  readAttribute names p
  = Ok ((Some (Attribute (index p) (j + k + 3) (String c w)
                 (ValueChunks [ MustacheTagChunk opened (j + k + 2) e ])),
         names ++ [String c w]), setIndex (j + k + 3) p).
Proof.
  intros Hc Hw Hu Hfresh opened He k Hclose. unfold readAttribute.
  unfold bind at 1. cbn [gets]. unfold bind at 1.
  rewrite (readUntil_attributeName (String c w) "=" (doubleQuote +:+ "{{" +:+ body));
    [ | | done | done ].
  2:{ cbn [JsString.forallb].
      by rewrite (word_not_attributeNameEnd c Hc), words_not_attributeNameEnd. }
  cbn [JsString.truthy negb].
  unfold bind at 1. unfold setHas at 1. rewrite bool_decide_eq_false_2 by done.
  cbn [ret]. unfold bind at 1. rewrite allowWhitespace_unread.
  set (n := String.length (String c w)) in *.
  assert (Hu1 : unread (advance n p) = "=" +:+ doubleQuote +:+ "{{" +:+ body).
  { rewrite unread_advance, Hu. apply JsStringFacts.drop_app_length. }
  rewrite Hu1.
  change (leadingSpaces ("=" +:+ doubleQuote +:+ "{{" +:+ body)) with 0.
  rewrite advance_0.
  assert (Hcw : JsString.forallb Regex.isWord (String c w) = true).
  { cbn [JsString.forallb]. by rewrite Hc, Hw. }
  unfold onPrefix, bindPrefix, refPrefix.
  rewrite !prefix_test_word by done.
  rewrite PatternFacts.shorthand_rejects by (by apply word_not_colon).
  unfold bind at 1.
  rewrite (eat_hit "=" false (doubleQuote +:+ "{{" +:+ body)) by done.
  rewrite advance_advance. cbn [String.length].
  unfold bind at 1. unfold bind at 1.
  rewrite (readAttributeValue_mustache _ body e j rest).
  - cbn [ret]. unfold bind at 1. cbn [gets ret index setIndex].
    unfold setAdd, setHas. rewrite bool_decide_eq_false_2 by done.
    change (unread (setIndex j (advance (n + 1) p))) with (unread (setIndex j p)).
    fold k.
    change (setIndex (j + k + 3) (advance (n + 1) p)) with (setIndex (j + k + 3) p).
    replace (index (advance (n + 1) p) + 1) with opened
      by (subst opened; cbn [index advance setIndex]; lia).
    reflexivity.
  - by rewrite <- advance_advance, unread_advance, Hu1.
  - rewrite <- He. f_equal. subst opened. cbn [index advance setIndex]. lia.
  - exact Hclose.
Qed.

End Shorthand.

Section ShorthandClaim.
Context {collaborators : Collaborators}.

(** C2, amended.  [:word] produces an attribute named [word] whose value
    is one [AttributeShorthand] chunk that wraps the identifier [word]
    and spans the word after the colon.  [word="{{ expression }}"]
    produces an attribute named [word] whose value is one [MustacheTag]
    chunk that wraps the node the expression reader returns and spans
    the braces.  The two agree in the attribute name and in having one
    chunk; they differ in the type of the chunk and in the spans. *)
Theorem shorthand_is_an_attribute_shorthand_chunk :
  (forall names p c w t rest,
      Regex.isWord c = true ->
      JsString.forallb Regex.isWord w = true ->
      isAttributeNameEnd t = true ->
      unread p = ":" +:+ String c w +:+ String t rest ->
      (":" +:+ String c w) ∉ names ->
      let q := advance (leadingSpaces (String t rest))
                 (advance (S (S (String.length w))) p) in
      let span := index p + 1 + String.length (String c w) in
      readAttribute names p
      = Ok ((Some (Attribute (index p) (index q) (String c w)
                     (ValueChunks
                        [ AttributeShorthandChunk (index p + 1) span
                            (Identifier (index p + 1) span (String c w)) ])),
             names ++ [":" +:+ String c w]), q))
  /\ (forall names p c w body e j rest,
         Regex.isWord c = true ->
         JsString.forallb Regex.isWord w = true ->
         unread p = String c w +:+ "=" +:+ doubleQuote +:+ "{{" +:+ body ->
         String c w ∉ names ->
         let opened := index p + String.length (String c w) + 2 in
         readExpression (template p) (opened + 2) = Ok (e, j) ->
         let k := leadingSpaces (unread (setIndex j p)) in
         JsString.drop k (unread (setIndex j p)) = "}}" +:+ doubleQuote +:+ rest ->
         readAttribute names p
         = Ok ((Some (Attribute (index p) (j + k + 3) (String c w)
                        (ValueChunks [ MustacheTagChunk opened (j + k + 2) e ])),
                names ++ [String c w]), setIndex (j + k + 3) p)).
Proof.
  split.
  - intros. by apply readAttribute_shorthand.
  - intros. by eapply readAttribute_mustache.
Qed.

End ShorthandClaim.

(** ** The closing-tag walk *)

(** Every object has the children and the data it had. *)
Definition sameContent (p p' : parser) : Prop :=
  forall i n, heap p !! i = Some n ->
    exists n', heap p' !! i = Some n'
               /\ Node.children n' = Node.children n /\ Node.data n' = Node.data n.

Global Instance sameContent_refl : Reflexive sameContent.
Proof. intros p i n Hn. by exists n. Qed.
Global Instance sameContent_trans : Transitive sameContent.
Proof.
  intros p1 p2 p3 H12 H23 i n Hn.
  destruct (H12 i n Hn) as (n' & Hn' & Hc & Hd).
  destruct (H23 i n' Hn') as (n'' & Hn'' & Hc' & Hd').
  exists n''. split_and!; congruence.
Qed.

Lemma setEnd_sameContent r e : preserves sameContent (updNode r (Node.setEnd e)).
Proof.
  intros p a q (i & n & -> & Hn & ->)%updNode_Ok_inv j m Hm. simpl.
  destruct (decide (i = j)) as [<-|Hne].
  - rewrite list_lookup_insert_eq by (by eapply lookup_lt_Some).
    exists (Node.setEnd e n). by simplify_eq.
  - exists m. by rewrite list_lookup_insert_ne.
Qed.
Global Hint Resolve setEnd_sameContent : preserves.

Lemma stackPop_sameContent : preserves sameContent stackPop.
Proof.
  unfold stackPop. simple apply preserves_modify. intros p i n Hn. by exists n.
Qed.
Global Hint Resolve stackPop_sameContent : preserves.

(** The walk sets ends and pops; it trims nothing. *)
Lemma closeWalk_keeps_content fuel start name parent :
  preserves sameContent (closeWalk fuel start name parent).
Proof.
  revert parent. induction fuel as [|fuel IH]; intros parent; simpl;
    unfold current; preserves_auto.
Qed.

(** C1, at the inputs [<ul><li> a <li> b </ul>] and [<div><p> </div>].
    In the first, the first [li] is closed by the second, on the
    opening-tag path, and is trimmed; the second [li] is closed by the
    walk of [</ul>], has its end set, and keeps its whitespace.  In the
    second, the [p] closed by the walk of [</div>] keeps a child that is
    nothing but whitespace. *)
Theorem auto_closed_element_is_not_trimmed :
  (exists p,
    parse (H := Reference.collaborators) "<ul><li> a <li> b </ul>" = Ok (tt, p)
    /\ stack p = [0]
    /\ reify 4 (heap p) 0
       = Some (Tree (Node.Make Fragment None None None "" [] [1])
           [ Tree (Node.Make Element (Some 0) (Some 23) (Some "ul") "" [] [2; 4])
             [ Tree (Node.Make Element (Some 4) (Some 11) (Some "li") "" [] [3])
                 [ Tree (Node.Make Text (Some 8) (Some 11) None "a" [] []) [] ];
               Tree (Node.Make Element (Some 11) (Some 18) (Some "li") "" [] [5])
                 [ Tree (Node.Make Text (Some 15) (Some 18) None " b " [] []) [] ] ] ]))
  /\ (exists p,
    parse (H := Reference.collaborators) "<div><p> </div>" = Ok (tt, p)
    /\ stack p = [0]
    /\ reify 4 (heap p) 0
       = Some (Tree (Node.Make Fragment None None None "" [] [1])
           [ Tree (Node.Make Element (Some 0) (Some 15) (Some "div") "" [] [2])
             [ Tree (Node.Make Element (Some 5) (Some 9) (Some "p") "" [] [3])
                 [ Tree (Node.Make Text (Some 8) (Some 9) None " " [] []) [] ] ] ])).
Proof.
  split; eexists; (split; [ vm_compute; reflexivity | split; reflexivity ]).
Qed.

(** ** Implied closes *)

Section Li.
Context {collaborators : Collaborators}.

Lemma parseLoop_step fuel p a q :
  (index p <? String.length (template p)) = true ->
  fragment p = Ok (a, q) ->
  parseLoop (S fuel) p = parseLoop fuel q.
Proof.
  intros Hlt Hf. cbn [parseLoop]. unfold bind at 1. cbn [gets].
  unfold bind at 1. cbn [gets]. rewrite Hlt. unfold bind at 1. by rewrite Hf.
Qed.

Lemma parseLoop_done fuel p :
  (index p <? String.length (template p)) = false ->
  parseLoop fuel p = Ok (tt, p).
Proof.
  intros Hlt. destruct fuel; cbn [parseLoop]; unfold bind at 1; cbn [gets];
    unfold bind at 1; cbn [gets]; by rewrite Hlt.
Qed.

(** C7.  In [<li>one<li>two] the second [<li>] closes the first, which
    the table of disallowed contents lists under [li]: the root has two
    [li] children, each with its text, and the first [li] ends where the
    second begins. *)
Theorem li_closes_li :
  isVoidElementName "li" = false ->
  decodeCharacterReferences "one" = "one" ->
  decodeCharacterReferences "two" = "two" ->
  mapGet disallowedContents "li" = Some ["li"] /\
  exists p,
    parse "<li>one<li>two" = Ok (tt, p)
    /\ stack p = [0; 3]
    /\ reify 3 (heap p) 0
       = Some (Tree (Node.Make Fragment None None None "" [] [1; 3])
                 [ Tree (Node.Make Element (Some 0) (Some 7) (Some "li") "" [] [2])
                     [ Tree (Node.Make Text (Some 4) (Some 7) None "one" [] []) [] ];
                   Tree (Node.Make Element (Some 7) None (Some "li") "" [] [4])
                     [ Tree (Node.Make Text (Some 11) (Some 14) None "two" [] []) [] ] ]).
Proof.
  intros Hli Hone Htwo. split; [ reflexivity | ].
  vm_compute in Hli, Hone, Htwo.
  eexists. split; [ | split ].
  - change (parse "<li>one<li>two") with (parseLoop 15 (initial "<li>one<li>two")).
    erewrite parseLoop_step;
      [ | reflexivity | vm_compute; rewrite ?Hli; vm_compute; reflexivity ].
    erewrite parseLoop_step;
      [ | reflexivity | vm_compute; rewrite ?Hone; reflexivity ].
    erewrite parseLoop_step;
      [ | reflexivity | vm_compute; rewrite ?Hli; vm_compute; reflexivity ].
    erewrite parseLoop_step;
      [ | reflexivity | vm_compute; rewrite ?Htwo; reflexivity ].
    apply parseLoop_done. reflexivity.
  - reflexivity.
  - reflexivity.
Qed.
End Li.

(** * Runs on concrete templates *)

Module Examples.
Import Reference.

(** The state after [n] dispatches of the document driver. *)
Definition stateAfter (n : nat) (template : string) : parser :=
  match Nat.iter n (fun r => match r with
                             | Ok (_, p) => fragment p
                             | other => other
                             end) (Ok (tt, initial template)) with
  | Ok (_, p) => p
  | _ => initial template
  end.

Lemma stateAfter_reachable n template : reachable (stateAfter n template).
Proof.
  exists template. unfold stateAfter.
  induction n as [|n IH]; simpl; [ apply rtc_refl | ].
  destruct (Nat.iter n _ _) as [[a p]| |]; simpl;
    [ | apply rtc_refl | apply rtc_refl ].
  destruct (fragment p) as [[b q]| |] eqn:Hf; simpl;
    [ | apply rtc_refl | apply rtc_refl ].
  eapply rtc_r; [ exact IH | by eapply fragment_step ].
Qed.

Lemma stateAfter_wellFormed n template : wellFormed (stateAfter n template).
Proof. apply reachable_wf, stateAfter_reachable. Qed.

(** ** The attribute shorthand *)

Definition mustacheFoo : string :=
  "foo=" +:+ doubleQuote +:+ "{{foo}}" +:+ doubleQuote +:+ ">".

(** C2 as stated fails at [:foo]: its chunk is an [AttributeShorthand]
    chunk, not a [MustacheTag] chunk, and the attribute differs from the
    one [foo="{{foo}}"] produces. *)
Lemma shorthand_is_not_a_mustache_tag :
  exists a1 a2 names1 names2 q1 q2,
    readAttribute [] (initial ":foo>") = Ok ((Some a1, names1), q1)
    /\ readAttribute [] (initial mustacheFoo) = Ok ((Some a2, names2), q2)
    /\ a1 <> a2
    /\ (forall s e cs ce x,
           a1 <> Attribute s e "foo" (ValueChunks [ MustacheTagChunk cs ce x ])).
Proof.
  do 6 eexists. split; [ vm_compute; reflexivity | ].
  split; [ vm_compute; reflexivity | ]. split; [ discriminate | ].
  intros s e cs ce x. discriminate.
Qed.

Lemma shorthand_is_an_attribute_shorthand_chunk_witness :
  readAttribute [] (initial ":foo>")
  = Ok ((Some (Attribute 0 4 "foo"
                 (ValueChunks [ AttributeShorthandChunk 1 4 (Identifier 1 4 "foo") ])),
         [":foo"]), advance 4 (initial ":foo>"))
  /\ readAttribute [] (initial mustacheFoo)
     = Ok ((Some (Attribute 0 13 "foo"
                    (ValueChunks [ MustacheTagChunk 5 12 (Identifier 7 10 "foo") ])),
            ["foo"]), setIndex 13 (initial mustacheFoo)).
Proof.
  split.
  - apply (proj1 shorthand_is_an_attribute_shorthand_chunk
             [] (initial ":foo>") "f"%char "oo" ">"%char "");
      [ reflexivity | reflexivity | reflexivity | reflexivity | ].
    apply not_elem_of_nil.
  - apply (proj2 shorthand_is_an_attribute_shorthand_chunk
             [] (initial mustacheFoo) "f"%char "oo"
             ("foo}}" +:+ doubleQuote +:+ ">") (Identifier 7 10 "foo") 10 ">");
      [ reflexivity | reflexivity | reflexivity | | reflexivity | reflexivity ].
    apply not_elem_of_nil.
Defined.

(** ** Special blocks *)

Definition twoScripts : string := "<script>a</script><script>b</script>".

(** C3 as stated fails at two [script] blocks: the first begins at
    offset 0, the error carries offset 18, where the second begins. *)
Lemma second_script_error_is_not_at_the_first :
  exists p c,
    index (initial twoScripts) = 0
    /\ tag (initial twoScripts) = Ok (tt, p)
    /\ js p = Some c /\ contentStart c = 0
    /\ tag p = Throw (SyntaxError
                        "You can only have one top-level <script> tag per component"
                        (Some 18))
    /\ Some 18 <> Some (contentStart c).
Proof.
  do 2 eexists. split; [ reflexivity | ].
  split; [ vm_compute; reflexivity | ].
  split; [ reflexivity | ]. split; [ reflexivity | ].
  split; [ vm_compute; reflexivity | discriminate ].
Qed.

Lemma duplicate_special_error_at_second_tag_witness :
  wellFormed (stateAfter 1 twoScripts)
  /\ length (stack (stateAfter 1 twoScripts)) = 1
  /\ is_Some (js (stateAfter 1 twoScripts))
  /\ tag (stateAfter 1 twoScripts)
     = Throw (SyntaxError "You can only have one top-level <script> tag per component"
                          (Some 18)).
Proof.
  split; [ apply stateAfter_wellFormed | ]. split; [ reflexivity | ].
  split; [ vm_compute; eauto | ].
  apply (duplicate_special_error_at_second_tag (stateAfter 1 twoScripts)
           "script" ">"%char "b</script>" readScript PropertyJs ([], [])
           (advance 7 (stateAfter 1 twoScripts)));
    [ apply stateAfter_wellFormed | reflexivity | reflexivity | reflexivity
    | reflexivity | vm_compute; eauto | vm_compute; reflexivity ].
Defined.

(** ** Attribute names *)

(** C5 as stated fails at [<div foo :foo>] and at [<div :foo foo>]: the
    tag is parsed without an error and both attributes are named [foo]. *)
Lemma equal_attribute_names_accepted :
  (exists p n,
      tag (initial "<div foo :foo>") = Ok (tt, p)
      /\ heap p !! 1 = Some n
      /\ ~ NoDup (attributeName <$> Node.attributes n))
  /\ (exists p n,
         tag (initial "<div :foo foo>") = Ok (tt, p)
         /\ heap p !! 1 = Some n
         /\ attributeName <$> Node.attributes n = ["foo"; "foo"]).
Proof.
  split.
  - do 2 eexists. split; [ vm_compute; reflexivity | ].
    split; [ reflexivity | ]. simpl. intros Hn.
    apply NoDup_cons_1_1 in Hn. apply Hn. by left.
  - do 2 eexists. split; [ vm_compute; reflexivity | ].
    split; reflexivity.
Qed.

Lemma attribute_tokens_are_unique_witness :
  (NoDup ["class"; ":id"]
   /\ Forall2 writtenAs ["class"; ":id"]
        [ Attribute 5 12 "class" (ValueChunks [ TextChunk 11 12 "a" ]);
          Attribute 13 16 "id"
            (ValueChunks [ AttributeShorthandChunk 14 16 (Identifier 14 16 "id") ]) ])
  /\ readAttribute ["class"] (advance 13 (initial "<div class=a class=b>"))
     = Throw (SyntaxError "Attributes need to be unique" (Some 13)).
Proof.
  split.
  - apply (proj1 attribute_tokens_are_unique 10
             (advance 5 (initial "<div class=a :id>")) _ _
             (advance 16 (initial "<div class=a :id>"))).
    vm_compute. reflexivity.
  - apply (proj2 attribute_tokens_are_unique ["class"]
             (advance 13 (initial "<div class=a class=b>")) "class" "="%char "b>");
      [ reflexivity | discriminate | reflexivity | reflexivity | by left ].
Defined.

(** ** Void elements *)

Lemma void_element_is_closed_at_once_witness :
  let p := stateAfter 2 "<p>a<br>b" in
  let e := Node.Make Element (Some 4) (Some 8) (Some "br") "" [] [] in
  tag p = Ok (tt, stateAfter 3 "<p>a<br>b")
  /\ heap (stateAfter 3 "<p>a<br>b") !! length (heap p) = Some e
  /\ isVoidElementName "br" = true
  /\ (length (heap p) ∉ stack (stateAfter 3 "<p>a<br>b"))
  /\ Node.end_ e = Some (index (stateAfter 3 "<p>a<br>b"))
  /\ Node.children e = []
  /\ forall q, rtc handlerStep (stateAfter 3 "<p>a<br>b") q ->
               heap q !! length (heap p) = Some e /\ (length (heap p) ∉ stack q).
Proof.
  intros p e.
  assert (Ht : tag p = Ok (tt, stateAfter 3 "<p>a<br>b")) by (vm_compute; reflexivity).
  split; [ exact Ht | ]. split; [ reflexivity | ]. split; [ reflexivity | ].
  apply (void_element_is_closed_at_once p tt (stateAfter 3 "<p>a<br>b") e "br");
    [ apply stateAfter_wellFormed | exact Ht | reflexivity | reflexivity
    | reflexivity | reflexivity ].
Defined.

(** ** Implied closes *)

Lemma li_closes_li_witness :
  isVoidElementName "li" = false
  /\ decodeCharacterReferences "one" = "one"
  /\ decodeCharacterReferences "two" = "two"
  /\ mapGet disallowedContents "li" = Some ["li"]
  /\ exists p,
    parse "<li>one<li>two" = Ok (tt, p)
    /\ stack p = [0; 3]
    /\ reify 3 (heap p) 0
       = Some (Tree (Node.Make Fragment None None None "" [] [1; 3])
                 [ Tree (Node.Make Element (Some 0) (Some 7) (Some "li") "" [] [2])
                     [ Tree (Node.Make Text (Some 4) (Some 7) None "one" [] []) [] ];
                   Tree (Node.Make Element (Some 7) None (Some "li") "" [] [4])
                     [ Tree (Node.Make Text (Some 11) (Some 14) None "two" [] []) [] ] ]).
Proof.
  split; [ reflexivity | ]. split; [ reflexivity | ]. split; [ reflexivity | ].
  apply (li_closes_li (collaborators := collaborators)); reflexivity.
Defined.

(** In [<tbody><tr><tbody>] the second [<tbody>] closes the [tr] and
    nothing more: the first [tbody], which it may not be nested in
    either, stays open. *)
Lemma implied_close_touches_only_the_top_witness :
  let p := stateAfter 2 "<tbody><tr><tbody>" in
  stack p = [0; 1; 2]
  /\ closes (Some "tbody") "tbody" = true
  /\ exists p',
       impliedClose 11 "tbody" (last (stack p)) p = Ok (tt, p')
       /\ stack p' = [0; 1]
       /\ exists below top n,
            stack p = below ++ [top] /\ heap p !! top = Some n
            /\ stack p' = (if closes (Node.name n) "tbody" then below
                           else below ++ [top])
            /\ index p' = index p
            /\ forall j m, j <> top -> heap p !! j = Some m ->
                           Node.type m <> Text -> heap p' !! j = Some m.
Proof.
  intros p. split; [ reflexivity | ]. split; [ reflexivity | ].
  eexists. split; [ vm_compute; reflexivity | ]. split; [ reflexivity | ].
  apply (implied_close_touches_only_the_top 11 "tbody" p tt).
  vm_compute. reflexivity.
Defined.

(** ** Meta tags *)

Lemma singleton_meta_tag_twice_or_nested_witness :
  (windowTag false (stateAfter 1 "<:Window/><:Window/>")
   /\ tag (stateAfter 1 "<:Window/><:Window/>")
      = Throw (SyntaxError "A component can only have one <:Window> tag" (Some 10)))
  /\ (windowTag false (stateAfter 1 "<div><:Window/>")
      /\ 1 < length (stack (stateAfter 1 "<div><:Window/>"))
      /\ exists message,
           tag (stateAfter 1 "<div><:Window/>")
           = Throw (SyntaxError message (Some 5))).
Proof.
  assert (H1 : windowTag false (stateAfter 1 "<:Window/><:Window/>"))
    by (exists "/"%char, ">"; split; reflexivity).
  assert (H0 : windowTag false (initial "<:Window/><:Window/>"))
    by (exists "/"%char, "><:Window/>"; split; reflexivity).
  assert (H2 : windowTag false (stateAfter 1 "<div><:Window/>"))
    by (exists "/"%char, ">"; split; reflexivity).
  split; [ split; [ exact H1 | ] | split; [ exact H2 | split ] ].
  - apply (proj1 (singleton_meta_tag_twice_or_nested _ H1)
             (initial "<:Window/><:Window/>") tt
             (stateAfter 1 "<:Window/><:Window/>") H0);
      [ vm_compute; reflexivity | apply rtc_refl ].
  - vm_compute. lia.
  - apply (proj2 (singleton_meta_tag_twice_or_nested _ H2)). vm_compute. lia.
Defined.

Lemma closing_meta_tag_always_raises_witness :
  let p := stateAfter 2 "<:Window>a</:Window>" in
  windowTag true p
  /\ wellFormed p
  /\ inObject ":Window" (metaTags p) = true
  /\ exists message pos, tag p = Throw (SyntaxError message pos).
Proof.
  intros p.
  assert (Hw : windowTag true p) by (exists ">"%char, ""; split; reflexivity).
  split; [ exact Hw | ]. split; [ apply stateAfter_wellFormed | ].
  split; [ reflexivity | ].
  destruct (proj1 (closing_meta_tag_always_raises p Hw
                     (stateAfter_wellFormed _ _)) eq_refl)
    as (message & pos & Ht & _).
  by exists message, pos.
Defined.

End Examples.

(** * Further properties of [tag.js] *)

(** ** The grammar check of [readTagName] *)

(** What [validTagName] looks at: a letter, or [!] and a letter, at the
    beginning of the name. *)
Definition beginsTagName (s : string) : bool :=
  match s with
  | String c rest =>
      Regex.isLetter c
      || (Ascii.eqb "!" c
          && match rest with String d _ => Regex.isLetter d | EmptyString => false end)
  | EmptyString => false
  end.

Definition isBlock (n : Node.t) : bool :=
  bool_decide (Node.type n = IfBlock) || bool_decide (Node.type n = EachBlock).

(** Is a block among the objects the stack refers to? *)
Definition blockOnStack (p : parser) : bool :=
  existsb (fun i => match heap p !! i with Some n => isBlock n | None => false end)
          (stack p).

Lemma validTagName_letters_tail c s :
  Regex.matchHere false
    (Regex.deriv c
       (Regex.cat (Regex.plus (Regex.class Regex.isLetter))
          (Regex.cat (Regex.opt (Regex.chr ":"))
             (Regex.star (Regex.class isTagNameChar))))) s
  = Regex.isLetter c.
Proof.
  cbn [Regex.deriv Regex.plus Regex.nullable andb].
  destruct (Regex.isLetter c).
  - by apply RegexFacts.matchHere_nullable.
  - by apply RegexFacts.matchHere_dead.
Qed.

Lemma validTagName_begins s : Regex.test validTagName s = beginsTagName s.
Proof.
  unfold Regex.test, Regex.exec, validTagName.
  cbn [Regex.anchoredStart Regex.anchoredEnd Regex.body].
  assert (forall b : bool, match (if b then Some 0 else None) with
                           | Some _ => true | None => false end = b) as ->
    by (by intros []).
  destruct s as [|c rest]; [ done | ].
  cbn [Regex.matchHere negb andb orb beginsTagName].
  replace (Regex.nullable _) with false by reflexivity. cbn [orb].
  change (Regex.deriv c (Regex.cat (Regex.opt (Regex.chr "!")) ?r))
    with (Regex.alt (Regex.cat (Regex.deriv c (Regex.opt (Regex.chr "!"))) r)
                    (Regex.deriv c r)).
  rewrite RegexFacts.matchHere_alt, validTagName_letters_tail.
  destruct (Regex.isLetter c); [ by rewrite orb_true_r | ].
  rewrite orb_false_r. cbn [orb Regex.deriv Regex.opt Regex.chr].
  destruct (Ascii.eqb "!" c); cbn [andb].
  - destruct rest as [|d rest]; [ done | ].
    cbn [Regex.matchHere negb andb orb]. 
    replace (Regex.nullable _) with false by reflexivity. cbn [orb].
    change (Regex.deriv d (Regex.cat (Regex.alt Regex.eps Regex.none) ?r))
      with (Regex.alt (Regex.cat (Regex.deriv d (Regex.alt Regex.eps Regex.none)) r)
                      (Regex.deriv d r)).
    rewrite RegexFacts.matchHere_alt, validTagName_letters_tail.
    by rewrite RegexFacts.matchHere_dead.
  - by apply RegexFacts.matchHere_dead.
Qed.

Lemma tagNameEnd_not_colon t : isTagNameEnd t = true -> t <> ":"%char.
Proof. intros H ->. discriminate H. Qed.

(** X1.  [readTagName] on a token that is not a meta-tag name and does not
    begin with a colon: the token is returned when it begins like a tag
    name, whatever follows, and is refused otherwise, the empty token
    included.  The error carries the offset of the token. *)
Theorem tag_name_is_judged_by_its_beginning p tok t rest :
  unread p = tok +:+ String t rest ->
  JsString.forallb (fun c => negb (isTagNameEnd c)) tok = true ->
  isTagNameEnd t = true ->
  String.get 0 tok <> Some ":"%char ->
  inObject tok metaTagsTable = false ->
  readTagName p
  = if beginsTagName tok then Ok (tok, advance (String.length tok) p)
    else Throw (SyntaxError "Expected valid tag name" (Some (index p))).
Proof.
  intros Hu Htok Ht Hcolon Hmeta. unfold readTagName, bind at 1, gets.
  unfold bind at 1, SELF.
  assert (Hfirst : exists c s, unread p = String c s /\ c <> ":"%char).
  { rewrite Hu. destruct tok as [|c tok].
    - exists t, rest. split; [ done | by apply tagNameEnd_not_colon ].
    - exists c, (tok +:+ String t rest). split; [ done | ].
      intros ->. by apply Hcolon. }
  destruct Hfirst as (c & s & Hc & Hne).
  rewrite (eat_miss _ _ c s) by done.
  unfold bind at 1.
  rewrite (readUntil_tagName tok t rest) by done.
  rewrite Hmeta. unfold bind. rewrite validTagName_begins.
  by destruct (beginsTagName tok).
Qed.

Lemma existsb_reverse {A} (f : A -> bool) l : existsb f (rev l) = existsb f l.
Proof.
  induction l as [|x l IH]; [ done | ].
  simpl. rewrite existsb_app, IH. simpl. rewrite orb_false_r. apply orb_comm.
Qed.

Lemma insideBlock_scan l p :
  Forall (fun i => is_Some (heap p !! i)) l ->
  insideBlock l p
  = Ok (existsb (fun i => match heap p !! i with
                          | Some n => isBlock n | None => false end) l, p).
Proof.
  induction 1 as [|i l [n Hn] _ IH]; [ done | ].
  cbn [insideBlock existsb]. unfold bind at 1.
  rewrite (getNode_Ok i n p Hn), Hn. fold (isBlock n).
  destruct (isBlock n); [ done | exact IH ].
Qed.

(** X2.  [readTagName] at [:Self]: the name is accepted when one of the open
    nodes is an if-block or an each-block and refused otherwise, at the
    offset of the name.  Only the five characters of [:Self] are
    consumed, whatever follows them. *)
Theorem self_reference_needs_an_open_block p rest :
  unread p = SELF +:+ rest ->
  Forall (fun i => is_Some (heap p !! i)) (stack p) ->
  readTagName p
  = if blockOnStack p then Ok (SELF, advance 5 p)
    else Throw (SyntaxError
                  "<:Self> components can only exist inside if-blocks or each-blocks"
                  (Some (index p))).
Proof.
  intros Hu Hs. unfold readTagName, bind at 1, gets.
  unfold bind at 1. rewrite (eat_hit SELF false rest) by done.
  change (String.length SELF) with 5.
  unfold bind at 1. cbn [gets]. unfold bind at 1.
  rewrite insideBlock_scan by (by apply Forall_rev).
  rewrite existsb_reverse.
  change (heap (advance 5 p)) with (heap p).
  change (stack (advance 5 p)) with (stack p). fold (blockOnStack p).
  by destruct (blockOnStack p).
Qed.

Lemma tag_name_is_judged_by_its_beginning_witness :
  readTagName (initial "!a?>")
  = Ok ("!a?", advance 3 (initial "!a?>"))
  /\ readTagName (initial "1a>")
     = Throw (SyntaxError "Expected valid tag name" (Some 0))
  /\ readTagName (initial ">")
     = Throw (SyntaxError "Expected valid tag name" (Some 0)).
Proof.
  split; [ | split ].
  - apply (tag_name_is_judged_by_its_beginning  (initial "!a?>") "!a?" ">"%char "");
      [ reflexivity | reflexivity | reflexivity | discriminate | reflexivity ].
  - apply (tag_name_is_judged_by_its_beginning  (initial "1a>") "1a" ">"%char "");
      [ reflexivity | reflexivity | reflexivity | discriminate | reflexivity ].
  - apply (tag_name_is_judged_by_its_beginning  (initial ">") "" ">"%char "");
      [ reflexivity | reflexivity | reflexivity | discriminate | reflexivity ].
Defined.

(** A state inside an if-block, at the name of [<:Selfish>]. *)
Definition insideIfBlock : parser :=
  Parser "{{#if x}}<:Selfish>" 10 [0; 1]
    [ Node.Make Fragment None None None "" [] [1];
      Node.Make IfBlock (Some 0) None None "" [] [] ] [] None None.

Lemma self_reference_needs_an_open_block_witness :
  readTagName insideIfBlock
  = Ok (SELF, advance 5 insideIfBlock)
  /\ readTagName (advance 1 (initial "<:Self/>"))
     = Throw (SyntaxError
                "<:Self> components can only exist inside if-blocks or each-blocks"
                (Some 1)).
Proof.
  split.
  - apply (self_reference_needs_an_open_block  insideIfBlock "ish>"); [ reflexivity | ].
    repeat constructor; by eexists.
  - apply (self_reference_needs_an_open_block  (advance 1 (initial "<:Self/>")) "/>"); [ reflexivity | ].
    repeat constructor; by eexists.
Defined.

(** ** Comments *)

Lemma search_Some_matchHere b r s k :
  Regex.search b r s = Some k -> Regex.matchHere b r (JsString.drop k s) = true.
Proof.
  revert k. induction s as [|c s IH]; intros k; cbn [Regex.search].
  - destruct (Regex.matchHere b r "") eqn:E; [ | done ]. by intros [= <-].
  - destruct (Regex.matchHere b r (String c s)) eqn:E; [ by intros [= <-] | ].
    destruct (Regex.search b r s) as [k'|]; [ | done ].
    intros [= <-]. by apply IH.
Qed.

Lemma prefix_app l s :
  String.prefix l s = true -> s = l +:+ JsString.drop (String.length l) s.
Proof.
  revert s. induction l as [|a l IH]; intros s; [ done | ].
  destruct s as [|b s]; [ done | ]. cbn [String.prefix].
  destruct (ascii_dec a b) as [->|]; [ | done ].
  intros H. rewrite JsStringFacts.app_cons. f_equal. by apply IH.
Qed.

(** The leftmost match of a literal is followed by the literal. *)
Lemma search_lit_Some l s k :
  Regex.search false (Regex.lit l) s = Some k ->
  exists rest, JsString.drop k s = l +:+ rest.
Proof.
  intros H%search_Some_matchHere. rewrite RegexFacts.matchHere_lit in H.
  eexists. by apply prefix_app.
Qed.

Section Comments.
Context {collaborators : Collaborators}.

(** X3.  [tag] at a comment whose first [-->] is [k] characters after the
    [<!--]: a [Comment] node holding these [k] characters, from the
    offset of the [<] to the offset after the [-->], becomes the last
    child of the top of the stack.  The stack is as it was. *)
Theorem comment_becomes_the_last_child p body k top n :
  unread p = "<!--" +:+ body ->
  Regex.exec commentEnd body = Some k ->
  last (stack p) = Some top ->
  heap p !! top = Some n ->
  tag p
  = Ok (tt,
        setHeap
          (<[top := Node.setChildren (Node.children n ++ [length (heap p)]) n]>
             (heap p ++ [ Node.Make Comment (Some (index p)) (Some (index p + k + 7))
                            None (JsString.take k body) [] [] ]))
          (setIndex (index p + k + 7) p)).
Proof.
  intros Hu Hk Htop Hn. unfold tag.
  unfold bind at 1. cbn [gets]. unfold bind at 1. cbn [modify].
  unfold bind at 1. cbn [current gets stack setIndex].
  change (setIndex (index p + 1) p) with (advance 1 p).
  assert (Hu1 : unread (advance 1 p) = "!--" +:+ body)
    by (by rewrite unread_advance, Hu).
  unfold bind at 1. rewrite (eat_hit "!--" false body) by done.
  rewrite advance_advance. cbn [String.length Nat.add].
  assert (Hu4 : unread (advance 4 p) = body)
    by (by rewrite unread_advance, Hu).
  unfold bind at 1. rewrite readUntil_unread, Hu4, Hk.
  rewrite advance_advance.
  destruct (search_lit_Some "-->" body k Hk) as [rest Hrest].
  assert (Hu5 : unread (advance (4 + k) p) = "-->" +:+ rest).
  { by rewrite <- advance_advance, unread_advance, Hu4. }
  unfold bind at 1. rewrite (eat_hit "-->" false rest) by done.
  rewrite advance_advance. cbn [String.length].
  unfold bind at 1. cbn [gets]. unfold bind at 1. cbn [alloc].
  unfold bind at 1. cbn [current gets]. unfold pushChild, updNode.
  unfold bind at 1. cbn [stack setHeap advance setIndex]. rewrite Htop.
  assert (Hlt : top < length (heap p)) by (by eapply lookup_lt_Some).
  unfold getNode.
  change (heap (setHeap ?h _)) with h.
  change (heap (advance _ p)) with (heap p).
  change (index (advance ?j p)) with (index p + j).
  rewrite lookup_app_l, Hn by done.
  replace (index p + (4 + k + 3)) with (index p + k + 7) by lia.
  rewrite advance_as_setIndex.
  replace (index p + (4 + k + 3)) with (index p + k + 7) by lia.
  reflexivity.
Qed.

End Comments.

Lemma comment_becomes_the_last_child_witness :
  tag (collaborators := Reference.collaborators) (initial "<!-- a -->b")
  = Ok (tt,
        Parser "<!-- a -->b" 10 [0]
          [ Node.Make Fragment None None None "" [] [1];
            Node.Make Comment (Some 0) (Some 10) None " a " [] [] ] [] None None).
Proof.
  apply (comment_becomes_the_last_child (collaborators := Reference.collaborators)
           (initial "<!-- a -->b") " a -->b" 3 0 root); reflexivity.
Defined.

(** ** Whitespace stripping *)

Lemma updNode_setData_children r d p a q j n :
  updNode r (Node.setData d) p = Ok (a, q) ->
  heap p !! j = Some n ->
  exists n', heap q !! j = Some n' /\ Node.children n' = Node.children n.
Proof.
  intros (k & m & -> & Hm & ->)%updNode_Ok_inv Hn. simpl.
  destruct (decide (k = j)) as [->|Hne].
  - rewrite list_lookup_insert_eq by (by eapply lookup_lt_Some).
    simplify_eq. by eexists.
  - rewrite list_lookup_insert_ne by done. by eexists.
Qed.

Lemma updNode_elsewhere r f p a q j :
  updNode r f p = Ok (a, q) -> r <> Some j -> heap q !! j = heap p !! j.
Proof.
  intros (k & m & -> & Hm & ->)%updNode_Ok_inv Hne. simpl.
  apply list_lookup_insert_ne. congruence.
Qed.

(** Follow the children of [i] along the updates of a run. *)
Ltac chase_children i :=
  repeat match goal with
    | Hc : heap ?x !! i = Some ?ex, Hu : updNode (Some i) _ ?x = Ok (_, ?y) |- _ =>
        lazymatch goal with
        | _ : heap y !! i = Some _ |- _ => fail
        | _ => pose proof (updNode_lookup _ _ _ _ _ _ Hu Hc)
        end
    | Hc : heap ?x !! i = Some ?ex, Hu : updNode _ (Node.setData _) ?x = Ok (_, ?y) |- _ =>
        lazymatch goal with
        | _ : heap y !! i = Some _ |- _ => fail
        | _ =>
            let e' := fresh "e'" in let He' := fresh "He'" in let Hcs := fresh "Hcs" in
            destruct (updNode_setData_children _ _ _ _ _ _ _ Hu Hc) as (e' & He' & Hcs)
        end
    end.

(** X4.  [stripWhitespace] changes the store and nothing else.  Of the
    element it removes at most the first child and at most the last.
    Other objects are as they were, unless they are that first or that
    last child and a text node: children in between, whitespace or not,
    are never touched. *)
Theorem stripWhitespace_touches_the_ends_only i p a p' e :
  stripWhitespace (Some i) p = Ok (a, p') ->
  heap p !! i = Some e ->
  (exists e', heap p' !! i = Some e'
      /\ (Node.children e' = Node.children e
          \/ Node.children e' = tail (Node.children e)
          \/ Node.children e' = removelast (Node.children e)
          \/ Node.children e' = removelast (tail (Node.children e))))
  /\ (forall j m, j <> i -> heap p !! j = Some m ->
        Node.type m <> Text
        \/ (head (Node.children e) <> Some j /\ last (Node.children e) <> Some j) ->
        heap p' !! j = Some m)
  /\ p' = setHeap (heap p') p
  /\ length (heap p') = length (heap p).
Proof.
  intros H He.
  pose proof (stripWhitespace_storeMoved _ _ _ _ H) as Hstore.
  pose proof (stripWhitespace_sameSize _ _ _ _ H) as Hsize.
  pose proof (stripWhitespace_keepsOthers _ _ _ _ H) as Hkeep.
  split; [ | split; [ | done ] ].
  - unfold stripWhitespace in H. inv_run H; simplify_eq.
    all: chase_children i0.
    all: eexists; split; [ eassumption | ].
    all: simpl; repeat match goal with Hx : Node.children _ = _ |- _ => rewrite Hx end.
    all: eauto.
  - intros j m Hj Hm [Ht|[Hhd Hlast]]; [ by apply Hkeep | ].
    unfold stripWhitespace in H. inv_run H; simplify_eq.
    all: repeat match goal with
           | Hc : Node.children _ = _ |- _ => rewrite Hc in Hhd, Hlast; clear Hc
           end; cbn [head] in Hhd.
    all: repeat match goal with
           | Hu : updNode ?r _ ?x = Ok (_, ?y) |- _ =>
               let E := fresh "E" in
               assert (E : heap y !! j = heap x !! j)
                 by (apply (updNode_elsewhere _ _ _ _ _ _ Hu); congruence);
               clear Hu
           end.
    all: congruence.
Qed.

Lemma updNode_run k f p n :
  heap p !! k = Some n ->
  updNode (Some k) f p = Ok (tt, setHeap (<[k := f n]> (heap p)) p).
Proof. intros Hn. unfold updNode, bind. by rewrite (getNode_Ok k n p Hn). Qed.

Lemma setChildren_same n : Node.setChildren (Node.children n) n = n.
Proof. by destruct n. Qed.

(** Reading the store after a sequence of updates. *)
Ltac read_store :=
  cbn [heap setHeap];
  repeat first
    [ rewrite list_lookup_insert_ne by congruence
    | rewrite list_lookup_insert_eq
        by (rewrite ?length_insert; eapply lookup_lt_Some; eassumption) ].

(** One step of a run whose outcome is known. *)
Ltac step_getNode k n :=
  rewrite (getNode_Ok k n) by (read_store; first [ eassumption | reflexivity ]).
Ltac step_updNode k n :=
  rewrite (updNode_run k _ _ n) by (read_store; first [ eassumption | reflexivity ]).
Ltac run_getNode k n := unfold bind at 1; step_getNode k n.
Ltac run_updNode k n := unfold bind at 1; step_updNode k n.

(** X5.  The first and the last child are read before either is trimmed, and
    an only child is both: a text node that is the only child of the
    element is trimmed at both ends, and is removed from the element
    when nothing is left of it. *)
Theorem only_text_child_is_trimmed_at_both_ends p i e c t :
  heap p !! i = Some e ->
  Node.children e = [c] ->
  c <> i ->
  heap p !! c = Some t ->
  Node.type t = Text ->
  let d := trimEnd (trimStart (Node.data t)) in
  exists p',
    stripWhitespace (Some i) p = Ok (tt, p')
    /\ heap p' !! c = Some (Node.setData d t)
    /\ heap p' !! i
       = Some (Node.setChildren (if JsString.truthy d then [c] else []) e)
    /\ forall j, j <> i -> j <> c -> heap p' !! j = heap p !! j.
Proof.
  intros He Hcs Hne Ht Htext d. unfold stripWhitespace.
  run_getNode i e. rewrite Hcs. cbn [last].
  run_getNode c t. rewrite bool_decide_eq_true_2 by done.
  set (t1 := Node.setData (trimStart (Node.data t)) t).
  assert (Hd : d = trimEnd (Node.data t1)) by done.
  unfold bind at 1. run_updNode c t.
  destruct (JsString.truthy (trimStart (Node.data t))) eqn:E1; cbn [negb]; cbv iota.
  - cbn [ret]. run_getNode c t1. rewrite bool_decide_eq_true_2 by done.
    run_updNode c t1. rewrite <- Hd.
    destruct (JsString.truthy d) eqn:E2; cbn [negb]; cbv iota.
    + eexists. split; [ reflexivity | ]. split; [ by read_store | ].
      split; [ read_store; by rewrite <- Hcs, setChildren_same | ].
      intros j Hj Hjc. by read_store.
    + step_updNode i e.
      eexists. split; [ reflexivity | ]. split; [ by read_store | ].
      split; [ read_store; by rewrite Hcs | ].
      intros j Hj Hjc. by read_store.
  - assert (Hd0 : d = "").
    { rewrite Hd. subst t1. simpl. by destruct (trimStart (Node.data t)). }
    step_updNode i e. rewrite Hcs. cbn [tail].
    run_getNode c t1. rewrite bool_decide_eq_true_2 by done.
    run_updNode c t1. rewrite <- Hd, Hd0. cbn [JsString.truthy negb]. cbv iota.
    step_updNode i (Node.setChildren [] e).
    eexists. split; [ reflexivity | ]. split; [ by read_store | ].
    split; [ by read_store | ].
    intros j Hj Hjc. by read_store.
Qed.

(** X6.  Text nodes at the two ends of the children: the first loses its
    leading whitespace, the last its trailing whitespace, and each is
    removed from the element when nothing is left of it.  The children in
    between stay, in their order. *)
Theorem text_children_at_the_ends_are_trimmed p i e c1 mid c2 t1 t2 :
  heap p !! i = Some e ->
  Node.children e = c1 :: mid ++ [c2] ->
  c1 <> i -> c2 <> i -> c1 <> c2 ->
  heap p !! c1 = Some t1 -> Node.type t1 = Text ->
  heap p !! c2 = Some t2 -> Node.type t2 = Text ->
  let d1 := trimStart (Node.data t1) in
  let d2 := trimEnd (Node.data t2) in
  exists p',
    stripWhitespace (Some i) p = Ok (tt, p')
    /\ heap p' !! c1 = Some (Node.setData d1 t1)
    /\ heap p' !! c2 = Some (Node.setData d2 t2)
    /\ heap p' !! i
       = Some (Node.setChildren
                 ((if JsString.truthy d1 then [c1] else []) ++ mid
                  ++ (if JsString.truthy d2 then [c2] else [])) e)
    /\ forall j, j <> i -> j <> c1 -> j <> c2 -> heap p' !! j = heap p !! j.
Proof.
  intros He Hcs Hne1 Hne2 Hne Ht1 Htext1 Ht2 Htext2 d1 d2.
  assert (Hlast : last (Node.children e) = Some c2)
    by (by rewrite Hcs, app_comm_cons, last_snoc).
  unfold stripWhitespace.
  run_getNode i e. rewrite Hlast, Hcs.
  run_getNode c1 t1. rewrite bool_decide_eq_true_2 by done.
  unfold bind at 1. run_updNode c1 t1. fold d1.
  destruct (JsString.truthy d1) eqn:E1; cbn [negb]; cbv iota.
  - cbn [ret]. run_getNode c2 t2. rewrite bool_decide_eq_true_2 by done.
    run_updNode c2 t2. fold d2.
    destruct (JsString.truthy d2) eqn:E2; cbn [negb]; cbv iota.
    + eexists. split; [ reflexivity | ]. split; [ by read_store | ].
      split; [ by read_store | ].
      split; [ read_store; cbn [app]; by rewrite <- Hcs, setChildren_same | ].
      intros j Hj Hj1 Hj2. by read_store.
    + step_updNode i e.
      eexists. split; [ reflexivity | ]. split; [ by read_store | ].
      split; [ by read_store | ].
      split; [ read_store; cbn [app];
               by rewrite Hcs, app_comm_cons, removelast_last, app_nil_r | ].
      intros j Hj Hj1 Hj2. by read_store.
  - step_updNode i e. rewrite Hcs. cbn [tail].
    run_getNode c2 t2. rewrite bool_decide_eq_true_2 by done.
    run_updNode c2 t2. fold d2.
    destruct (JsString.truthy d2) eqn:E2; cbn [negb]; cbv iota.
    + eexists. split; [ reflexivity | ]. split; [ by read_store | ].
      split; [ by read_store | ].
      split; [ by read_store | ].
      intros j Hj Hj1 Hj2. by read_store.
    + step_updNode i (Node.setChildren (mid ++ [c2]) e).
      eexists. split; [ reflexivity | ]. split; [ by read_store | ].
      split; [ by read_store | ].
      split; [ read_store; simpl; by rewrite removelast_last, app_nil_r | ].
      intros j Hj Hj1 Hj2. by read_store.
Qed.

(** Computations that succeed on every state whose store has [size]
    objects, and keep that size. *)
Definition succeedsOn (size : nat) {A} (m : M A) : Prop :=
  forall p, length (heap p) = size ->
    exists a p', m p = Ok (a, p') /\ length (heap p') = size.

Lemma succeedsOn_ret size {A} (a : A) : succeedsOn size (ret a).
Proof. intros p Hp. by exists a, p. Qed.

Lemma succeedsOn_bind size {A B} (m : M A) (k : A -> M B) :
  succeedsOn size m -> (forall a, succeedsOn size (k a)) -> succeedsOn size (bind m k).
Proof.
  intros Hm Hk p Hp. destruct (Hm p Hp) as (a & p1 & H1 & Hp1).
  destruct (Hk a p1 Hp1) as (b & p2 & H2 & Hp2).
  exists b, p2. split; [ | done ]. unfold bind. by rewrite H1.
Qed.

Lemma succeedsOn_when size (b : bool) (m : M unit) :
  succeedsOn size m -> succeedsOn size (when b then m).
Proof. destruct b; [ done | intros _; apply succeedsOn_ret ]. Qed.

Lemma succeedsOn_getNode size k : k < size -> succeedsOn size (getNode (Some k)).
Proof.
  intros Hk p Hp. destruct (lookup_lt_is_Some_2 (heap p) k) as [n Hn]; [ lia | ].
  exists n, p. by rewrite (getNode_Ok k n p Hn).
Qed.

Lemma succeedsOn_updNode size k f : k < size -> succeedsOn size (updNode (Some k) f).
Proof.
  intros Hk p Hp. destruct (lookup_lt_is_Some_2 (heap p) k) as [n Hn]; [ lia | ].
  eexists _, _. rewrite (updNode_run k f p n Hn). split; [ done | ].
  simpl. by rewrite length_insert.
Qed.

(** [stripWhitespace] does not fail on an element whose children are
    objects of the store. *)
Lemma stripWhitespace_succeeds i p e :
  heap p !! i = Some e ->
  Forall (fun c => c < length (heap p)) (Node.children e) ->
  exists p', stripWhitespace (Some i) p = Ok (tt, p').
Proof.
  intros He Hcs. unfold stripWhitespace. run_getNode i e.
  assert (Hi : i < length (heap p)) by (by eapply lookup_lt_Some).
  destruct (Node.children e) as [|c cs] eqn:E; [ by eexists | ].
  assert (Hc : c < length (heap p)) by (by inversion Hcs).
  assert (exists l, last (c :: cs) = Some l /\ l < length (heap p)) as (l & -> & Hl).
  { destruct (last (c :: cs)) as [l|] eqn:El; [ | by apply last_None in El ].
    exists l. split; [ done | ].
    apply last_elem_of in El. by eapply Forall_forall in Hcs. }
  match goal with
  | |- exists p', ?m p = _ =>
      assert (Hm : succeedsOn (length (heap p)) m)
  end.
  { repeat first
      [ by simple apply succeedsOn_getNode
      | by simple apply succeedsOn_updNode
      | simple apply succeedsOn_when
      | simple apply succeedsOn_bind; [ | intros ? ] ]. }
  destruct (Hm p eq_refl) as ([] & p' & Hp' & _). eauto.
Qed.

(** An element with text at both ends and whitespace in between. *)
Definition paddedElement : parser :=
  Parser "<p> a<b/> <i/>  </p>" 16 [0; 1]
    [ Node.Make Fragment None None None "" [] [1];
      Node.Make Element (Some 0) None (Some "p") "" [] [2; 3; 4; 5; 6];
      Node.Make Text (Some 3) (Some 5) None " a" [] [];
      Node.Make Element (Some 5) (Some 9) (Some "b") "" [] [];
      Node.Make Text (Some 9) (Some 10) None " " [] [];
      Node.Make Element (Some 10) (Some 14) (Some "i") "" [] [];
      Node.Make Text (Some 14) (Some 16) None "  " [] [] ] [] None None.

Lemma stripWhitespace_touches_the_ends_only_witness :
  exists p',
    stripWhitespace (Some 1) paddedElement = Ok (tt, p')
    /\ (exists e', heap p' !! 1 = Some e'
          /\ (Node.children e' = [2; 3; 4; 5; 6]
              \/ Node.children e' = [3; 4; 5; 6]
              \/ Node.children e' = [2; 3; 4; 5]
              \/ Node.children e' = [3; 4; 5]))
    /\ heap p' !! 4 = Some (Node.Make Text (Some 9) (Some 10) None " " [] []).
Proof.
  eexists. split; [ vm_compute; reflexivity | ].
  destruct (stripWhitespace_touches_the_ends_only 1 paddedElement tt _
              (Node.Make Element (Some 0) None (Some "p") "" [] [2; 3; 4; 5; 6])
              ltac:(vm_compute; reflexivity) eq_refl)
    as (Hchildren & Hothers & _).
  split; [ exact Hchildren | ].
  apply Hothers; [ discriminate | reflexivity | ].
  right. split; discriminate.
Defined.

Lemma text_children_at_the_ends_are_trimmed_witness :
  exists p',
    stripWhitespace (Some 1) paddedElement = Ok (tt, p')
    /\ heap p' !! 2 = Some (Node.Make Text (Some 3) (Some 5) None "a" [] [])
    /\ heap p' !! 6 = Some (Node.Make Text (Some 14) (Some 16) None "" [] [])
    /\ heap p' !! 1
       = Some (Node.Make Element (Some 0) None (Some "p") "" [] [2; 3; 4; 5])
    /\ forall j, j <> 1 -> j <> 2 -> j <> 6 -> heap p' !! j = heap paddedElement !! j.
Proof.
  apply (text_children_at_the_ends_are_trimmed paddedElement 1
           (Node.Make Element (Some 0) None (Some "p") "" [] [2; 3; 4; 5; 6])
           2 [3; 4; 5] 6
           (Node.Make Text (Some 3) (Some 5) None " a" [] [])
           (Node.Make Text (Some 14) (Some 16) None "  " [] []));
    first [ reflexivity | discriminate ].
Defined.

(** An element whose only child is text with whitespace on both sides. *)
Definition paddedText : parser :=
  Parser "<p> a </p>" 6 [0; 1]
    [ Node.Make Fragment None None None "" [] [1];
      Node.Make Element (Some 0) None (Some "p") "" [] [2];
      Node.Make Text (Some 3) (Some 6) None " a " [] [] ] [] None None.

Lemma only_text_child_is_trimmed_at_both_ends_witness :
  exists p',
    stripWhitespace (Some 1) paddedText = Ok (tt, p')
    /\ heap p' !! 2 = Some (Node.Make Text (Some 3) (Some 6) None "a" [] [])
    /\ heap p' !! 1 = Some (Node.Make Element (Some 0) None (Some "p") "" [] [2])
    /\ forall j, j <> 1 -> j <> 2 -> heap p' !! j = heap paddedText !! j.
Proof.
  apply (only_text_child_is_trimmed_at_both_ends paddedText 1
           (Node.Make Element (Some 0) None (Some "p") "" [] [2]) 2
           (Node.Make Text (Some 3) (Some 6) None " a " [] []));
    first [ reflexivity | discriminate ].
Defined.

(** ** Closing tags *)

Section ClosingTags.
Context {collaborators : Collaborators}.

(** The header of a closing tag whose name begins with a letter. *)
Lemma tag_closing_header p c tok t rest :
  Regex.isLetter c = true ->
  JsString.forallb (fun c => negb (isTagNameEnd c)) tok = true ->
  isTagNameEnd t = true ->
  unread p = "</" +:+ String c tok +:+ String t rest ->
  tag p = (checkMetaTag (index p) true (String c tok) ;;;
           allowWhitespace ;;;
           closeTag (index p) (String c tok) (last (stack p)))
            (advance (S (S (S (String.length tok)))) p)
  /\ unread (advance (S (S (S (String.length tok)))) p) = String t rest.
Proof.
  intros Hc Htok Ht Hu.
  assert (Hu1 : unread (advance 1 p) = "/" +:+ String c tok +:+ String t rest).
  { by rewrite unread_advance, Hu. }
  assert (Hu2 : unread (advance 2 p) = String c tok +:+ String t rest).
  { by rewrite unread_advance, Hu. }
  split.
  - unfold tag.
    unfold bind at 1. cbn [gets]. unfold bind at 1. cbn [modify].
    unfold bind at 1. cbn [current gets stack setIndex].
    change (setIndex (index p + 1) p) with (advance 1 p).
    unfold bind at 1.
    rewrite (eat_miss "!" "--" "/" (String c tok +:+ String t rest)) by done.
    unfold bind at 1.
    rewrite (eat_hit "/" false (String c tok +:+ String t rest)) by done.
    rewrite advance_advance. cbn [String.length Nat.add].
    unfold bind at 1.
    rewrite (readTagName_letter _ c tok t rest) by done.
    by rewrite advance_advance.
  - rewrite unread_advance, Hu.
    change (JsString.drop (S (S (S (String.length tok))))
              ("</" +:+ String c tok +:+ String t rest))
      with (JsString.drop (String.length tok) (tok +:+ String t rest)).
    apply JsStringFacts.drop_app_length.
Qed.

(** X7.  A closing tag with a void-element name raises an error at the
    offset of its [<], before the stack is looked at. *)
Theorem void_element_cannot_be_closed p c tok t rest :
  Regex.isLetter c = true ->
  JsString.forallb (fun c => negb (isTagNameEnd c)) tok = true ->
  isTagNameEnd t = true ->
  unread p = "</" +:+ String c tok +:+ String t rest ->
  inObject (String c tok) metaTagsTable = false ->
  isVoidElementName (String c tok) = true ->
  tag p
  = Throw (SyntaxError
             ("<" +:+ String c tok
              +:+ "> is a void element and cannot have children, or a closing tag")
             (Some (index p))).
Proof.
  intros Hc Htok Ht Hu Hmeta Hvoid.
  destruct (tag_closing_header p c tok t rest Hc Htok Ht Hu) as [-> Hu3].
  unfold bind at 1. unfold checkMetaTag. rewrite Hmeta. cbn [ret].
  unfold bind at 1. rewrite allowWhitespace_unread.
  unfold closeTag. unfold bind at 1. by rewrite Hvoid.
Qed.

(** X8.  A closing tag whose name is not followed, after optional
    whitespace, by [>] raises an error at the offset where the [>] is
    missing. *)
Theorem closing_tag_needs_its_bracket p c tok t rest :
  Regex.isLetter c = true ->
  JsString.forallb (fun c => negb (isTagNameEnd c)) tok = true ->
  isTagNameEnd t = true ->
  unread p = "</" +:+ String c tok +:+ String t rest ->
  inObject (String c tok) metaTagsTable = false ->
  isVoidElementName (String c tok) = false ->
  let k := leadingSpaces (String t rest) in
  JsString.take 1 (JsString.drop k (String t rest)) <> ">" ->
  tag p = Throw (SyntaxError "Expected '>'"
                   (Some (index p + 3 + String.length tok + k))).
Proof.
  intros Hc Htok Ht Hu Hmeta Hvoid k Hmiss.
  destruct (tag_closing_header p c tok t rest Hc Htok Ht Hu) as [-> Hu3].
  unfold bind at 1. unfold checkMetaTag. rewrite Hmeta. cbn [ret].
  unfold bind at 1. rewrite allowWhitespace_unread, Hu3. fold k.
  unfold closeTag. unfold bind at 1. rewrite Hvoid. cbn [ret].
  unfold bind at 1. rewrite eat_unread, unread_advance, Hu3.
  cbn [String.length].
  destruct (String.eqb_spec (JsString.take 1 (JsString.drop k (String t rest))) ">")
    as [Heq|_]; [ done | ].
  unfold bind at 1. cbn [negb errorHere].
  do 3 f_equal. cbn [index advance setIndex]. lia.
Qed.

(** The walk of a closing tag over a stack that holds no node of its
    name ends in an error: it pops elements until it meets a node that
    is not an element, the root at the latest. *)
Lemma closeWalk_not_open start name r : forall st fuel p root,
  stack p = r :: st ->
  heap p !! r = Some root -> Node.type root <> Element ->
  (forall i, i ∈ stack p ->
     exists n, heap p !! i = Some n /\ Node.name n <> Some name) ->
  length st < fuel ->
  closeWalk fuel start name (last (stack p)) p
  = Throw (SyntaxError
             ("</" +:+ name +:+ "> attempted to close an element that was not open")
             (Some start)).
Proof.
  induction st as [|top st IH] using rev_ind; intros fuel p root Hs Hr Hroot Hall Hfuel.
  - rewrite Hs. cbn [last]. destruct fuel as [|fuel]; [ simpl in Hfuel; lia | ].
    cbn [closeWalk]. run_getNode r root.
    destruct (Hall r) as (n & Hn & Hname); [ rewrite Hs; by left | ].
    simplify_eq. rewrite bool_decide_eq_false_2 by done.
    unfold bind at 1. by rewrite bool_decide_eq_false_2.
  - assert (Hlast : last (stack p) = Some top)
      by (by rewrite Hs, app_comm_cons, last_snoc).
    rewrite Hlast. rewrite length_app in Hfuel. simpl in Hfuel.
    destruct fuel as [|fuel]; [ lia | ].
    destruct (Hall top) as (n & Hn & Hname).
    { rewrite Hs, app_comm_cons. apply elem_of_app. right. by left. }
    cbn [closeWalk]. run_getNode top n.
    rewrite bool_decide_eq_false_2 by done.
    unfold bind at 1.
    destruct (decide (Node.type n = Element)) as [He|He].
    2:{ by rewrite bool_decide_eq_false_2. }
    rewrite bool_decide_eq_true_2 by done. cbn [negb ret].
    run_updNode top n. unfold bind at 1. cbn [stackPop modify].
    unfold bind at 1. cbn [current gets].
    set (p2 := setStack _ _).
    assert (Hs2 : stack p2 = r :: st).
    { subst p2. cbn [stack setStack setHeap]. 
      by rewrite Hs, app_comm_cons, removelast_last. }
    assert (Hne : r <> top) by (intros ->; simplify_eq; done).
    apply (IH fuel p2 root); [ done | | done | | lia ].
    + subst p2. cbn [heap setStack setHeap]. by rewrite list_lookup_insert_ne.
    + intros i Hi. rewrite Hs2 in Hi.
      destruct (Hall i) as (m & Hm & Hmn).
      { rewrite Hs, app_comm_cons. apply elem_of_app. by left. }
      subst p2. cbn [heap setStack setHeap].
      destruct (decide (top = i)) as [->|Hti].
      * rewrite list_lookup_insert_eq by (by eapply lookup_lt_Some).
        simplify_eq. by eexists.
      * rewrite list_lookup_insert_ne by done. by eexists.
Qed.

(** X9.  A closing tag whose name is the name of no open node raises an
    error at the offset of its [<]. *)
Theorem closing_tag_without_an_open_element p c tok t rest rest' :
  wellFormed p ->
  Regex.isLetter c = true ->
  JsString.forallb (fun c => negb (isTagNameEnd c)) tok = true ->
  isTagNameEnd t = true ->
  unread p = "</" +:+ String c tok +:+ String t rest ->
  inObject (String c tok) metaTagsTable = false ->
  isVoidElementName (String c tok) = false ->
  JsString.drop (leadingSpaces (String t rest)) (String t rest) = ">" +:+ rest' ->
  (forall i n, i ∈ stack p -> heap p !! i = Some n ->
               Node.name n <> Some (String c tok)) ->
  tag p
  = Throw (SyntaxError
             ("</" +:+ String c tok
              +:+ "> attempted to close an element that was not open")
             (Some (index p))).
Proof.
  intros Hw Hc Htok Ht Hu Hmeta Hvoid Hclose Hnames.
  destruct (tag_closing_header p c tok t rest Hc Htok Ht Hu) as [-> Hu3].
  unfold bind at 1. unfold checkMetaTag. rewrite Hmeta. cbn [ret].
  unfold bind at 1. rewrite allowWhitespace_unread, Hu3.
  set (k := leadingSpaces (String t rest)) in *. rewrite advance_advance.
  set (p1 := advance _ p).
  assert (Hu4 : unread p1 = ">" +:+ rest').
  { subst p1. by rewrite <- advance_advance, unread_advance, Hu3. }
  unfold closeTag. unfold bind at 1. rewrite Hvoid. cbn [ret].
  unfold bind at 1. rewrite (eat_hit ">" false rest') by done.
  cbn [negb ret String.length]. unfold bind at 1. unfold bind at 1. cbn [gets].
  unfold bind at 1.
  destruct (wf_root p Hw) as (r & st & root & Hs & Hr & Hroot & _).
  cbn [ret].
  change (last (stack p)) with (last (stack (advance 1 p1))).
  rewrite (closeWalk_not_open _ _ r st _ _ root); try done.
  - congruence.
  - intros i Hi.
    destruct (lookup_lt_is_Some_2 (heap p) i) as [n Hn];
      [ by apply (wf_stack p Hw) | ].
    exists n. split; [ done | ]. by eapply Hnames.
  - change (stack (advance 1 p1)) with (stack p). rewrite Hs. simpl. lia.
Qed.



End ClosingTags.

Lemma void_element_cannot_be_closed_witness :
  tag (collaborators := Reference.collaborators) (initial "</br>")
  = Throw (SyntaxError
             "<br> is a void element and cannot have children, or a closing tag"
             (Some 0)).
Proof.
  apply (void_element_cannot_be_closed (collaborators := Reference.collaborators)
           (initial "</br>") "b" "r" ">" ""); reflexivity.
Defined.

Lemma closing_tag_needs_its_bracket_witness :
  tag (collaborators := Reference.collaborators) (initial "</div x>")
  = Throw (SyntaxError "Expected '>'" (Some 6)).
Proof.
  apply (closing_tag_needs_its_bracket (collaborators := Reference.collaborators)
           (initial "</div x>") "d" "iv" " " "x>");
    first [ reflexivity | discriminate ].
Defined.

Lemma closing_tag_without_an_open_element_witness :
  tag (collaborators := Reference.collaborators) (Examples.stateAfter 1 "<p></div>")
  = Throw (SyntaxError "</div> attempted to close an element that was not open"
             (Some 3)).
Proof.
  apply (closing_tag_without_an_open_element
           (collaborators := Reference.collaborators)
           (Examples.stateAfter 1 "<p></div>") "d" "iv" ">" "" "");
    try reflexivity.
  - apply Examples.stateAfter_wellFormed.
  - intros i n Hi Hn. change (i ∈ [0; 1]) in Hi.
    apply elem_of_cons in Hi as [->|Hi];
      [ | apply list_elem_of_singleton in Hi as -> ];
      vm_compute in Hn; by simplify_eq.
Defined.


(** ** Attribute values *)

Lemma app_empty_r s : s +:+ "" = s.
Proof. induction s as [|c s IH]; [ done | by rewrite JsStringFacts.app_cons, IH ]. Qed.

Lemma done_quoted q c : done_ (Some (JsString.ofChar q)) c = Ascii.eqb c q.
Proof.
  unfold done_, JsString.ofChar. cbn [String.eqb]. by destruct (Ascii.eqb c q).
Qed.

Lemma done_unquoted c : done_ None c = isInvalidUnquoted c.
Proof.
  unfold done_, Regex.test, Regex.exec, invalidUnquotedAttributeCharacters, JsString.ofChar.
  cbn [Regex.anchoredStart Regex.anchoredEnd Regex.body Regex.search Regex.matchHere
       Regex.nullable Regex.deriv negb andb orb].
  destruct (isInvalidUnquoted c); reflexivity.
Qed.

Lemma unread_empty_index p : unread p = "" -> String.length (template p) <= index p.
Proof.
  intros Hu. pose proof (JsStringFacts.length_drop (index p) (template p)) as Hl.
  unfold unread, JsString.sliceFrom in Hu. rewrite Hu in Hl. simpl in Hl. lia.
Qed.

(** A literal that is not at the cursor is not consumed. *)
Lemma eat_first_miss s0 p :
  String.get 0 (unread p) <> Some s0 ->
  eat (String s0 "") false p = Ok (false, p).
Proof.
  intros H. rewrite eat_unread. cbn [String.length].
  destruct (unread p) as [|c rest]; [ done | ].
  cbn [JsString.take String.eqb]. cbn [String.get] in H.
  destruct (Ascii.eqb_spec c s0) as [->|_]; [ done | done ].
Qed.

Definition doubleQuoteChar : ascii := ascii_of_nat 34.

(** How a value opens: with a single quote, with a double quote, or
    bare; and the quote mark [readAttributeValue] then works with. *)
Inductive opens : string -> option string -> Prop :=
| opens_single : opens "'" (Some "'")
| opens_double : opens doubleQuote (Some doubleQuote)
| opens_bare : opens "" None.

(** Characters of a value that are neither its terminator nor a brace. *)
Definition literalChar (quoteMark : option string) (c : ascii) : bool :=
  negb (done_ quoteMark c) && negb (Ascii.eqb c "{").

Section Values.
Context {collaborators : Collaborators}.

(** The loop of [readAttributeValue] over literal text up to the
    terminator. *)
Lemma readAttributeValueLoop_literal quoteMark t rest :
  done_ quoteMark t = true -> t <> "{"%char ->
  forall text fuel p start acc chunks,
    unread p = text +:+ String t rest ->
    JsString.forallb (literalChar quoteMark) text = true ->
    String.length text < fuel ->
    readAttributeValueLoop fuel quoteMark start acc chunks p
    = Ok (map decodeChunk
            (if JsString.truthy (acc +:+ text)
             then chunks ++ [ TextChunk start (index p + String.length text)
                                (acc +:+ text) ]
             else chunks),
          advance (String.length text
                   + match quoteMark with Some _ => 1 | None => 0 end) p).
Proof.
  intros Hdone Hbrace text.
  induction text as [|c text IH]; intros fuel p start acc chunks Hu Hlit Hfuel;
    (destruct fuel as [|fuel]; [ simpl in Hfuel; lia | ]);
    cbn [readAttributeValueLoop];
    unfold bind at 1; cbn [gets]; unfold bind at 1; cbn [gets].
  - rewrite JsStringFacts.app_empty_l in Hu.
    rewrite (proj2 (Nat.ltb_lt _ _) (index_lt_length _ _ _ Hu)).
    unfold bind at 1. rewrite (eat_miss "{" "{" t rest) by done.
    unfold bind at 1. cbn [gets]. rewrite (charAt_unread _ _ _ Hu), Hdone.
    rewrite app_empty_r. cbn [String.length Nat.add]. rewrite Nat.add_0_r.
    unfold bind at 1. destruct quoteMark as [q|].
    + rewrite bool_decide_eq_true_2 by done. reflexivity.
    + rewrite bool_decide_eq_false_2 by (by intros [? ?]).
      cbn [ret]. by rewrite advance_0.
  - rewrite JsStringFacts.app_cons in Hu.
    cbn [JsString.forallb] in Hlit. apply andb_true_iff in Hlit as [Hc Hlit].
    unfold literalChar in Hc. apply andb_true_iff in Hc as [Hc1 Hc2].
    apply negb_true_iff in Hc1, Hc2. apply Ascii.eqb_neq in Hc2.
    rewrite (proj2 (Nat.ltb_lt _ _) (index_lt_length _ _ _ Hu)).
    unfold bind at 1. rewrite (eat_miss "{" "{" c (text +:+ String t rest)) by done.
    unfold bind at 1. cbn [gets]. rewrite (charAt_unread _ _ _ Hu), Hc1.
    unfold bind at 1. cbn [modify].
    change (setIndex (index p + 1) p) with (advance 1 p).
    rewrite (IH fuel (advance 1 p)); [ | by rewrite unread_advance, Hu | done | simpl in Hfuel; lia ].
    rewrite advance_advance.
    replace ((acc +:+ JsString.ofChar c) +:+ text) with (acc +:+ String c text)
      by (by rewrite JsStringFacts.app_assoc).
    cbn [String.length index advance setIndex Nat.add].
    replace (index p + 1 + String.length text) with (index p + S (String.length text))
      by lia.
    reflexivity.
Qed.

(** The loop over literal text that runs to the end of the template. *)
Lemma readAttributeValueLoop_unterminated quoteMark :
  forall text fuel p start acc chunks,
    unread p = text ->
    JsString.forallb (literalChar quoteMark) text = true ->
    String.length text < fuel ->
    readAttributeValueLoop fuel quoteMark start acc chunks p
    = Throw (SyntaxError "Unexpected end of input"
               (Some (index p + String.length text))).
Proof.
  intros text.
  induction text as [|c text IH]; intros fuel p start acc chunks Hu Hlit Hfuel;
    (destruct fuel as [|fuel]; [ simpl in Hfuel; lia | ]);
    cbn [readAttributeValueLoop];
    unfold bind at 1; cbn [gets]; unfold bind at 1; cbn [gets].
  - rewrite (proj2 (Nat.ltb_ge _ _) (unread_empty_index _ Hu)).
    cbn [String.length]. by rewrite Nat.add_0_r.
  - cbn [JsString.forallb] in Hlit. apply andb_true_iff in Hlit as [Hc Hlit].
    unfold literalChar in Hc. apply andb_true_iff in Hc as [Hc1 Hc2].
    apply negb_true_iff in Hc1, Hc2. apply Ascii.eqb_neq in Hc2.
    rewrite (proj2 (Nat.ltb_lt _ _) (index_lt_length _ _ _ Hu)).
    unfold bind at 1. rewrite (eat_miss "{" "{" c text) by done.
    unfold bind at 1. cbn [gets]. rewrite (charAt_unread _ _ _ Hu), Hc1.
    unfold bind at 1. cbn [modify].
    change (setIndex (index p + 1) p) with (advance 1 p).
    rewrite (IH fuel (advance 1 p)); [ | by rewrite unread_advance, Hu | done | simpl in Hfuel; lia ].
    do 3 f_equal. cbn [String.length index advance setIndex]. lia.
Qed.

Lemma get_0_app a t r :
  String.get 0 (a +:+ String t r)
  = match a with String c _ => Some c | EmptyString => Some t end.
Proof. by destruct a. Qed.

Lemma length_unread p : String.length (unread p) = String.length (template p) - index p.
Proof. apply JsStringFacts.length_drop. Qed.

(** The quotes of [readAttributeValue]. *)
Lemma readAttributeValue_opens p opening quoteMark body :
  opens opening quoteMark ->
  unread p = opening +:+ body ->
  (quoteMark <> Some doubleQuote -> String.get 0 body <> Some doubleQuoteChar) ->
  (quoteMark = None -> String.get 0 body <> Some "'"%char) ->
  readAttributeValue p
  = readAttributeValueLoop (S (String.length (template p))) quoteMark
      (index p + String.length opening) "" [] (advance (String.length opening) p).
Proof.
  intros Ho Hu Hdq Hsq. unfold readAttributeValue. destruct Ho.
  - unfold bind at 1. rewrite (eat_hit "'" false body) by done.
    cbn [String.length].
    unfold bind at 1. unfold doubleQuote.
    rewrite eat_first_miss by (rewrite unread_advance, Hu; by apply Hdq).
    reflexivity.
  - unfold bind at 1. unfold doubleQuote at 1.
    rewrite eat_first_miss by (by rewrite Hu).
    unfold bind at 1. rewrite (eat_hit doubleQuote false body) by done.
    reflexivity.
  - rewrite JsStringFacts.app_empty_l in Hu.
    unfold bind at 1. rewrite eat_first_miss by (rewrite Hu; by apply Hsq).
    unfold bind at 1. unfold doubleQuote at 1.
    rewrite eat_first_miss by (rewrite Hu; by apply Hdq).
    cbn [String.length]. rewrite advance_0.
    unfold bind at 1. cbn [gets]. unfold bind at 1. cbn [gets].
    by rewrite Nat.add_0_r.
Qed.

(** X11.  A quoted value of literal text: one text chunk, between the
    quotes and with its character references decoded, or no chunk at all
    when there is nothing between the quotes.  The cursor ends after the
    closing quote. *)
Theorem quoted_literal_value p q text rest :
  opens (JsString.ofChar q) (Some (JsString.ofChar q)) ->
  unread p = String q (text +:+ String q rest) ->
  JsString.forallb (literalChar (Some (JsString.ofChar q))) text = true ->
  String.get 0 text <> Some doubleQuoteChar ->
  readAttributeValue p
  = Ok (if JsString.truthy text
        then [ TextChunk (index p + 1) (index p + 1 + String.length text)
                 (decodeCharacterReferences text) ]
        else [],
        advance (String.length text + 2) p).
Proof.
  intros Ho Hu Hlit Hfirst.
  assert (Hq : q <> "{"%char) by (intros ->; inversion Ho).
  rewrite (readAttributeValue_opens p (JsString.ofChar q) (Some (JsString.ofChar q))
             (text +:+ String q rest)); [ | done | done | | done ].
  2:{ intros Hne. rewrite get_0_app. destruct text; [ | done ].
      intros [= ->]. by apply Hne. }
  cbn [String.length JsString.ofChar].
  assert (Hd : done_ (Some (JsString.ofChar q)) q = true)
    by (rewrite done_quoted; apply Ascii.eqb_refl).
  rewrite (readAttributeValueLoop_literal _ q rest Hd Hq text); [ | | done | ].
  - rewrite advance_advance, JsStringFacts.app_empty_l.
    replace (1 + (String.length text + 1)) with (String.length text + 2) by lia.
    by destruct text.
  - by rewrite unread_advance, Hu.
  - pose proof (length_unread p) as Hl. rewrite Hu in Hl.
    cbn [String.length] in Hl. rewrite JsStringFacts.length_app in Hl.
    change (template (advance 1 p)) with (template p). lia.
Qed.

Lemma readAttributeValue_bare p text t rest :
  unread p = text +:+ String t rest ->
  JsString.forallb (literalChar None) text = true ->
  isInvalidUnquoted t = true ->
  (text = "" -> t <> "'"%char /\ t <> doubleQuoteChar) ->
  readAttributeValue p
  = Ok (if JsString.truthy text
        then [ TextChunk (index p) (index p + String.length text)
                 (decodeCharacterReferences text) ]
        else [],
        advance (String.length text) p).
Proof.
  intros Hu Hlit Ht Hempty.
  assert (Hfirst : String.get 0 (text +:+ String t rest) <> Some "'"%char
                   /\ String.get 0 (text +:+ String t rest) <> Some doubleQuoteChar).
  { rewrite get_0_app. destruct text as [|c text].
    - destruct (Hempty eq_refl). split; congruence.
    - cbn [JsString.forallb] in Hlit. apply andb_true_iff in Hlit as [Hc _].
      unfold literalChar in Hc. rewrite done_unquoted in Hc.
      split; intros [= ->]; discriminate Hc. }
  destruct Hfirst as [Hsq Hdq].
  rewrite (readAttributeValue_opens p "" None (text +:+ String t rest));
    [ | constructor | done | done | done ].
  cbn [String.length]. rewrite advance_0, Nat.add_0_r.
  assert (Hd : done_ None t = true) by (by rewrite done_unquoted).
  assert (Hb : t <> "{"%char) by (intros ->; discriminate Ht).
  rewrite (readAttributeValueLoop_literal _ t rest Hd Hb text); [ | done | done | ].
  - rewrite Nat.add_0_r, JsStringFacts.app_empty_l. by destruct text.
  - pose proof (length_unread p) as Hl. rewrite Hu in Hl.
    rewrite JsStringFacts.length_app in Hl. lia.
Qed.

(** X12.  A bare value of literal text ends before the first character that
    may not be in a bare value, which is not consumed. *)
Theorem unquoted_literal_value p text t rest :
  unread p = text +:+ String t rest ->
  JsString.forallb (literalChar None) text = true ->
  isInvalidUnquoted t = true ->
  (text = "" -> t <> "'"%char /\ t <> doubleQuoteChar) ->
  readAttributeValue p
  = Ok (if JsString.truthy text
        then [ TextChunk (index p) (index p + String.length text)
                 (decodeCharacterReferences text) ]
        else [],
        advance (String.length text) p).
Proof. apply readAttributeValue_bare. Qed.

(** X13.  A value of literal text that runs to the end of the template,
    quoted or bare, raises an error at the end of the template. *)
Theorem value_without_an_end p opening quoteMark text :
  opens opening quoteMark ->
  unread p = opening +:+ text ->
  JsString.forallb (literalChar quoteMark) text = true ->
  String.get 0 text <> Some doubleQuoteChar ->
  index p <= String.length (template p) ->
  readAttributeValue p
  = Throw (SyntaxError "Unexpected end of input" (Some (String.length (template p)))).
Proof.
  intros Ho Hu Hlit Hfirst Hidx.
  rewrite (readAttributeValue_opens p opening quoteMark text); [ | done | done | done | ].
  2:{ intros ->. destruct text as [|c text]; [ done | ].
      cbn [JsString.forallb] in Hlit. apply andb_true_iff in Hlit as [Hc _].
      unfold literalChar in Hc. rewrite done_unquoted in Hc.
      intros [= ->]. discriminate Hc. }
  pose proof (length_unread p) as Hl. rewrite Hu in Hl.
  rewrite JsStringFacts.length_app in Hl.
  rewrite (readAttributeValueLoop_unterminated quoteMark text); [ | | done | ].
  - do 3 f_equal. cbn [index advance setIndex]. lia.
  - rewrite unread_advance, Hu. apply JsStringFacts.drop_app_length.
  - change (template (advance _ p)) with (template p). lia.
Qed.

(** X14.  A single quote in front of a double quote is passed over: the value
    is the double-quoted value that follows it. *)
Theorem single_quote_before_a_double_quote_is_skipped p rest :
  unread p = "'" +:+ doubleQuote +:+ rest ->
  readAttributeValue p = readAttributeValue (advance 1 p).
Proof.
  intros Hu. unfold readAttributeValue.
  unfold bind at 1. rewrite (eat_hit "'" false (doubleQuote +:+ rest)) by done.
  cbn [String.length].
  assert (Hu1 : unread (advance 1 p) = doubleQuote +:+ rest)
    by (by rewrite unread_advance, Hu).
  unfold bind at 1. rewrite (eat_hit doubleQuote false rest) by done.
  symmetry. unfold bind at 1.
  rewrite (eat_miss "'" "" doubleQuoteChar rest) by done.
  unfold bind at 1. rewrite (eat_hit doubleQuote false rest) by done.
  reflexivity.
Qed.

End Values.

Lemma quoted_literal_value_witness :
  readAttributeValue (collaborators := Reference.collaborators)
    (advance 11 (initial "<div class='a b' id=''>"))
  = Ok ([ TextChunk 12 15 "a b" ], advance 16 (initial "<div class='a b' id=''>"))
  /\ readAttributeValue (collaborators := Reference.collaborators)
       (advance 20 (initial "<div class='a b' id=''>"))
     = Ok ([], advance 22 (initial "<div class='a b' id=''>")).
Proof.
  split.
  - apply (quoted_literal_value (collaborators := Reference.collaborators)
             (advance 11 (initial "<div class='a b' id=''>")) "'" "a b" " id=''>");
      [ constructor | reflexivity | reflexivity | discriminate ].
  - apply (quoted_literal_value (collaborators := Reference.collaborators)
             (advance 20 (initial "<div class='a b' id=''>")) "'" "" ">");
      [ constructor | reflexivity | reflexivity | discriminate ].
Defined.

Lemma unquoted_literal_value_witness :
  readAttributeValue (collaborators := Reference.collaborators)
    (advance 11 (initial "<div class=a/>"))
  = Ok ([ TextChunk 11 12 "a" ], advance 12 (initial "<div class=a/>")).
Proof.
  apply (unquoted_literal_value (collaborators := Reference.collaborators)
           (advance 11 (initial "<div class=a/>")) "a" "/" ">");
    [ reflexivity | reflexivity | reflexivity | discriminate ].
Defined.

Lemma value_without_an_end_witness :
  readAttributeValue (collaborators := Reference.collaborators)
    (advance 11 (initial "<div class='a b>"))
  = Throw (SyntaxError "Unexpected end of input" (Some 16))
  /\ readAttributeValue (collaborators := Reference.collaborators)
       (advance 11 (initial "<div class=a"))
     = Throw (SyntaxError "Unexpected end of input" (Some 12)).
Proof.
  split.
  - apply (value_without_an_end (collaborators := Reference.collaborators)
             (advance 11 (initial "<div class='a b>")) "'" (Some "'") "a b>");
      [ constructor | reflexivity | reflexivity | discriminate | simpl; lia ].
  - apply (value_without_an_end (collaborators := Reference.collaborators)
             (advance 11 (initial "<div class=a")) "" None "a");
      [ constructor | reflexivity | reflexivity | discriminate | simpl; lia ].
Defined.

(** A value in double quotes inside single quotes. *)
Definition bothQuotes : string :=
  "<a b='" +:+ doubleQuote +:+ "x" +:+ doubleQuote +:+ "'>".

Lemma single_quote_before_a_double_quote_is_skipped_witness :
  readAttributeValue (collaborators := Reference.collaborators)
    (advance 5 (initial bothQuotes))
  = readAttributeValue (collaborators := Reference.collaborators)
      (advance 6 (initial bothQuotes))
  /\ readAttributeValue (collaborators := Reference.collaborators)
       (advance 6 (initial bothQuotes))
     = Ok ([ TextChunk 7 8 "x" ], advance 9 (initial bothQuotes)).
Proof.
  split; [ | reflexivity ].
  apply (single_quote_before_a_double_quote_is_skipped
           (collaborators := Reference.collaborators)
           (advance 5 (initial bothQuotes)) ("x" +:+ doubleQuote +:+ "'>")).
  reflexivity.
Defined.

(** ** Chunks and the source *)

(** What the chunks of a value are before character references are
    decoded: a text chunk holds the text of the template between its
    offsets, which is not empty; a mustache chunk begins at [{{] and ends
    after [}}]; there is no other chunk. *)
Definition fromSource (template : string) (c : chunk) : Prop :=
  match c with
  | TextChunk s e d => d = JsString.slice s e template /\ d <> ""
  | MustacheTagChunk s e _ =>
      JsString.slice s (s + 2) template = "{{"
      /\ exists close, e = close + 2 /\ JsString.slice close e template = "}}"
  | AttributeShorthandChunk _ _ _ => False
  end.

Lemma take_snoc k s c :
  String.get k s = Some c ->
  JsString.take (S k) s = JsString.take k s +:+ JsString.ofChar c.
Proof.
  revert s. induction k as [|k IH]; intros [|d s]; try done.
  - cbn [String.get]. by intros [= ->].
  - cbn [String.get]. intros H. change (JsString.take (S (S k)) (String d s))
      with (String d (JsString.take (S k) s)).
    rewrite (IH s H). reflexivity.
Qed.

Lemma get_drop_sub start i s :
  start <= i -> String.get i s = String.get (i - start) (JsString.drop start s).
Proof.
  revert i s. induction start as [|start IH]; intros i s Hle.
  - by rewrite Nat.sub_0_r.
  - destruct i as [|i]; [ lia | ]. destruct s as [|d s].
    + by destruct (i - start).
    + cbn [String.get JsString.drop Nat.sub]. apply IH. lia.
Qed.

Lemma slice_snoc start i s c :
  start <= i -> String.get i s = Some c ->
  JsString.slice start (S i) s = JsString.slice start i s +:+ JsString.ofChar c.
Proof.
  intros Hle Hc. unfold JsString.slice.
  replace (S i - start) with (S (i - start)) by lia.
  apply take_snoc. by rewrite <- get_drop_sub.
Qed.

Lemma slice_empty i s : JsString.slice i i s = "".
Proof. unfold JsString.slice. by rewrite Nat.sub_diag. Qed.

Lemma eat_Ok_true str p q :
  eat str false p = Ok (true, q) ->
  JsString.slice (index p) (index p + String.length str) (template p) = str
  /\ q = setIndex (index p + String.length str) p.
Proof.
  unfold eat, bind, pmatch, gets.
  destruct (String.eqb_spec
              (JsString.slice (index p) (index p + String.length str) (template p)) str)
    as [Heq|_]; [ | done ].
  by intros [= <-].
Qed.

Lemma eat_Ok_false str p q : eat str false p = Ok (false, q) -> q = p.
Proof.
  unfold eat, bind, pmatch, gets.
  destruct (String.eqb _ str); [ done | ]. by intros [= <-].
Qed.

Section Chunks.
Context {collaborators : Collaborators}.

Lemma readAttributeValueLoop_fromSource fuel quoteMark :
  forall start acc chunks p result p',
    readAttributeValueLoop fuel quoteMark start acc chunks p = Ok (result, p') ->
    acc = JsString.slice start (index p) (template p) ->
    start <= index p ->
    Forall (fromSource (template p)) chunks ->
    exists raw, result = map decodeChunk raw /\ Forall (fromSource (template p)) raw.
Proof.
  induction fuel as [|fuel IH]; intros start acc chunks p result p' H Hacc Hle Hall;
    [ done | ].
  cbn [readAttributeValueLoop] in H.
  apply bind_Ok_inv in H as (i & p0 & [-> ->]%gets_Ok_inv & H).
  apply bind_Ok_inv in H as (len & p0 & [-> ->]%gets_Ok_inv & H).
  destruct (index p <? String.length (template p)) eqn:Hlt; [ | done ].
  apply bind_Ok_inv in H as (opened & p1 & Heat & H).
  assert (Hchunks1 : Forall (fromSource (template p))
            (if JsString.truthy acc
             then chunks ++ [ TextChunk start (index p) acc ] else chunks)).
  { destruct acc as [|c acc]; [ done | ]. cbn [JsString.truthy].
    apply Forall_app. split; [ done | ]. apply Forall_singleton. by split. }
  destruct opened.
  - apply eat_Ok_true in Heat as [Hopen ->].
    apply bind_Ok_inv in H as (expression & p2 & Hexp & H).
    apply bind_Ok_inv in H as ([] & p3 & Hws & H).
    apply bind_Ok_inv in H as (closed & p4 & Hclose & H).
    destruct closed; [ | done ].
    apply eat_Ok_true in Hclose as [Hshut ->].
    apply bind_Ok_inv in H as ([] & p5 & [_ ->]%ret_Ok_inv & H).
    apply bind_Ok_inv in H as (e & p5 & [-> ->]%gets_Ok_inv & H).
    pose proof (atCursor_cursorMoved _ _ _ _ Hexp) as Hp2.
    pose proof (allowWhitespace_cursorMoved _ _ _ Hws) as Hp3.
    assert (Ht : template p3 = template p).
    { rewrite Hp3, Hp2. reflexivity. }
    cbn [index template setIndex String.length] in *.
    eapply IH in H as (raw & -> & Hraw).
    + exists raw. split; [ done | ]. cbn [template setIndex] in Hraw.
      by rewrite Ht in Hraw.
    + cbn [index template setIndex]. by rewrite slice_empty.
    + done.
    + cbn [template setIndex]. rewrite Ht.
      apply Forall_app. split; [ done | ]. apply Forall_singleton.
      split; [ done | ]. exists (index p3). split; [ done | ]. by rewrite <- Ht.
  - apply eat_Ok_false in Heat as ->.
    apply bind_Ok_inv in H as (c & p2 & [-> ->]%gets_Ok_inv & H).
    destruct (JsString.charAt (index p) (template p)) as [char|] eqn:Hchar; [ | done ].
    destruct (done_ quoteMark char).
    + apply bind_Ok_inv in H as ([] & p2 & _ & H).
      apply ret_Ok_inv in H as [-> _]. by eexists.
    + apply bind_Ok_inv in H as ([] & p2 & ->%modify_Ok_inv & H).
      eapply IH in H as (raw & -> & Hraw).
      * by exists raw.
      * cbn [index template setIndex]. rewrite Hacc, Nat.add_1_r.
        symmetry. by apply slice_snoc.
      * cbn [index setIndex]. lia.
      * done.
Qed.

(** X15.  The chunks of a value come from the source: each is the image by
    character decoding of a chunk whose text is the text of the template
    between its offsets, or whose offsets are those of a [{{] and of the
    end of a [}}].  No empty text chunk and no shorthand chunk is ever
    produced. *)
Theorem value_chunks_come_from_the_source p chunks p' :
  readAttributeValue p = Ok (chunks, p') ->
  exists raw,
    chunks = map decodeChunk raw /\ Forall (fromSource (template p)) raw.
Proof.
  intros H. unfold readAttributeValue in H.
  apply bind_Ok_inv in H as (single & p1 & H1 & H).
  apply bind_Ok_inv in H as (double & p2 & H2 & H).
  apply bind_Ok_inv in H as (start & p3 & [-> ->]%gets_Ok_inv & H).
  apply bind_Ok_inv in H as (fuel & p3 & [-> ->]%gets_Ok_inv & H).
  pose proof (eat_cursorMoved _ _ _ _ _ H1) as Hp1.
  pose proof (eat_cursorMoved _ _ _ _ _ H2) as Hp2.
  assert (Ht : template p2 = template p) by (rewrite Hp2, Hp1; reflexivity).
  eapply readAttributeValueLoop_fromSource in H as (raw & -> & Hraw).
  - exists raw. split; [ done | ]. by rewrite <- Ht.
  - by rewrite slice_empty.
  - done.
  - done.
Qed.

End Chunks.

Definition mustacheValue : string :=
  "<a b=" +:+ doubleQuote +:+ "x{{y}}" +:+ doubleQuote +:+ ">".

Lemma value_chunks_come_from_the_source_witness :
  readAttributeValue (collaborators := Reference.collaborators)
    (advance 5 (initial mustacheValue))
  = Ok ([ TextChunk 6 7 "x"; MustacheTagChunk 7 12 (Identifier 9 10 "y") ],
        advance 13 (initial mustacheValue))
  /\ exists raw,
      [ TextChunk 6 7 "x"; MustacheTagChunk 7 12 (Identifier 9 10 "y") ]
      = map (decodeChunk (collaborators := Reference.collaborators)) raw
      /\ Forall (fromSource mustacheValue) raw.
Proof.
  split; [ reflexivity | ].
  apply (value_chunks_come_from_the_source (collaborators := Reference.collaborators)
           (advance 5 (initial mustacheValue)) _ (advance 13 (initial mustacheValue))).
  reflexivity.
Defined.

(** ** Attributes *)

(** A token that is no directive, no ref and no shorthand. *)
Definition plainName (token : string) : bool :=
  negb (Regex.test onPrefix token) && negb (Regex.test bindPrefix token)
  && negb (Regex.test refPrefix token) && negb (Regex.test shorthand token).

Section AttributeKinds.
Context {collaborators : Collaborators}.

(** The name of an attribute and the whitespace after it. *)
Lemma readAttribute_name names p token t rest :
  unread p = token +:+ String t rest ->
  token <> "" ->
  JsString.forallb (fun c => negb (isAttributeNameEnd c)) token = true ->
  isAttributeNameEnd t = true ->
  token ∉ names ->
  let k := leadingSpaces (String t rest) in
  let q := advance (String.length token + k) p in
  unread q = JsString.drop k (String t rest)
  /\ readAttribute names p
     = (if Regex.test onPrefix token then
          (eat "=" true ;;;
           a <- atCursor (fun tpl i =>
                  readEventHandlerDirective tpl i (index p) (JsString.sliceFrom 3 token)) ;;
           ret (Some a, names ++ [token]))
        else if Regex.test bindPrefix token then
          (a <- atCursor (fun tpl i =>
                  readBindingDirective tpl i (index p) (JsString.sliceFrom 5 token)) ;;
           ret (Some a, names ++ [token]))
        else if Regex.test refPrefix token then
          (e <- gets index ;;
           ret (Some (Ref (index p) e (JsString.sliceFrom 4 token)), names ++ [token]))
        else if Regex.test shorthand token then
          (e <- gets index ;;
           ret (Some (Attribute (index p) e (JsString.sliceFrom 1 token)
                        (ValueChunks
                           (getShorthandValue (index p + 1) (JsString.sliceFrom 1 token)))),
                names ++ [token]))
        else
          (eq <- eat "=" false ;;
           value <- (if eq then (chunks <- readAttributeValue ;; ret (ValueChunks chunks))
                     else ret ValueTrue) ;;
           e <- gets index ;;
           ret (Some (Attribute (index p) e token value), names ++ [token]))) q.
Proof.
  intros Hu Hne Htok Ht Hfresh k q.
  assert (Hu1 : unread (advance (String.length token) p) = String t rest).
  { rewrite unread_advance, Hu. apply JsStringFacts.drop_app_length. }
  split.
  - subst q. by rewrite <- advance_advance, unread_advance, Hu1.
  - unfold readAttribute.
    unfold bind at 1. cbn [gets]. unfold bind at 1.
    rewrite (readUntil_attributeName token t rest) by done.
    destruct token as [|c token]; [ done | ]. cbn [JsString.truthy negb].
    unfold bind at 1. unfold setHas at 1. rewrite bool_decide_eq_false_2 by done.
    cbn [ret]. unfold bind at 1. rewrite allowWhitespace_unread, Hu1. fold k.
    rewrite advance_advance. fold q.
    unfold setAdd, setHas. rewrite bool_decide_eq_false_2 by done.
    reflexivity.
Qed.

(** X16.  An attribute without a value: its value is [true], and its end is
    the offset after the whitespace that follows the name. *)
Theorem attribute_without_a_value names p token t rest :
  unread p = token +:+ String t rest ->
  token <> "" ->
  JsString.forallb (fun c => negb (isAttributeNameEnd c)) token = true ->
  isAttributeNameEnd t = true ->
  token ∉ names ->
  plainName token = true ->
  let k := leadingSpaces (String t rest) in
  String.get 0 (JsString.drop k (String t rest)) <> Some "="%char ->
  readAttribute names p
  = Ok ((Some (Attribute (index p) (index p + String.length token + k) token ValueTrue),
         names ++ [token]),
        advance (String.length token + k) p).
Proof.
  intros Hu Hne Htok Ht Hfresh Hplain k Hnext.
  destruct (readAttribute_name names p token t rest Hu Hne Htok Ht Hfresh) as [Hq ->].
  fold k in Hq |- *.
  unfold plainName in Hplain.
  repeat (apply andb_true_iff in Hplain as [Hplain ?]).
  repeat match goal with
         | Hb : negb _ = true |- _ => apply negb_true_iff in Hb; rewrite Hb
         end.
  unfold bind at 1. rewrite eat_first_miss by (by rewrite Hq).
  unfold bind at 1. cbn [ret]. unfold bind at 1. cbn [gets ret].
  replace (index p + String.length token + k)
    with (index p + (String.length token + k)) by lia.
  reflexivity.
Qed.

(** X17.  A ref: the name is what follows [ref:], no value is read, and the
    end is the offset after the whitespace that follows the token. *)
Theorem ref_attribute names p name t rest :
  unread p = "ref:" +:+ name +:+ String t rest ->
  JsString.forallb (fun c => negb (isAttributeNameEnd c)) name = true ->
  isAttributeNameEnd t = true ->
  ("ref:" +:+ name) ∉ names ->
  let k := leadingSpaces (String t rest) in
  readAttribute names p
  = Ok ((Some (Ref (index p) (index p + String.length name + k + 4) name),
         names ++ ["ref:" +:+ name]),
        advance (String.length name + k + 4) p).
Proof.
  intros Hu Htok Ht Hfresh k.
  destruct (readAttribute_name names p ("ref:" +:+ name) t rest) as [Hq ->];
    [ by rewrite JsStringFacts.app_assoc | done | | done | done | ].
  { change ("ref:" +:+ name) with (String "r" (String "e" (String "f" (String ":" name)))).
    cbn [JsString.forallb]. by rewrite Htok. }
  fold k in Hq |- *.
  change ("ref:" +:+ name) with (String "r" (String "e" (String "f" (String ":" name)))).
  unfold onPrefix, bindPrefix.
  rewrite !(PatternFacts.prefix_test_first _ _ "r") by done.
  replace (Regex.test refPrefix _) with true.
  2:{ unfold Regex.test, Regex.exec, refPrefix.
      cbn [Regex.anchoredStart Regex.anchoredEnd Regex.body].
      rewrite RegexFacts.matchHere_lit. cbn [String.prefix].
      repeat (destruct (ascii_dec _ _); [ | done ]). by destruct name. }
  unfold bind at 1. cbn [gets ret JsString.sliceFrom JsString.drop String.length].
  replace (String.length name + k + 4)
    with (S (S (S (S (String.length name)))) + k) by lia.
  replace (index p + String.length name + k + 4)
    with (index p + (S (S (S (S (String.length name)))) + k)) by lia.
  reflexivity.
Qed.

(** X18.  An event handler needs its [=]: without it the error is raised at
    the offset after the whitespace that follows the token. *)
Theorem event_handler_needs_a_value names p name t rest :
  unread p = "on:" +:+ name +:+ String t rest ->
  JsString.forallb (fun c => negb (isAttributeNameEnd c)) name = true ->
  isAttributeNameEnd t = true ->
  ("on:" +:+ name) ∉ names ->
  let k := leadingSpaces (String t rest) in
  String.get 0 (JsString.drop k (String t rest)) <> Some "="%char ->
  exists message,
    readAttribute names p
    = Throw (SyntaxError message (Some (index p + String.length name + k + 3))).
Proof.
  intros Hu Htok Ht Hfresh k Hnext. exists "Expected =".
  destruct (readAttribute_name names p ("on:" +:+ name) t rest) as [Hq ->];
    [ by rewrite JsStringFacts.app_assoc | done | | done | done | ].
  { change ("on:" +:+ name) with (String "o" (String "n" (String ":" name))).
    cbn [JsString.forallb]. by rewrite Htok. }
  fold k in Hq |- *.
  replace (Regex.test onPrefix _) with true.
  2:{ unfold Regex.test, Regex.exec, onPrefix.
      cbn [Regex.anchoredStart Regex.anchoredEnd Regex.body].
      rewrite RegexFacts.matchHere_lit.
      change ("on:" +:+ name) with (String "o" (String "n" (String ":" name))).
      cbn [String.prefix].
      repeat (destruct (ascii_dec _ _); [ | done ]). by destruct name. }
  unfold bind at 1. rewrite eat_unread, Hq. cbn [String.length].
  destruct (JsString.drop k (String t rest)) as [|c s] eqn:E.
  - cbn [JsString.take String.eqb]. do 3 f_equal.
    change (String.length ("on:" +:+ name)) with (3 + String.length name).
    cbn [index advance setIndex]. lia.
  - cbn [JsString.take String.eqb]. cbn [String.get] in Hnext.
    destruct (Ascii.eqb_spec c "=") as [->|_]; [ done | ].
    do 3 f_equal.
    change (String.length ("on:" +:+ name)) with (3 + String.length name).
    cbn [index advance setIndex]. lia.
Qed.

(** X19.  Directives are handed to their readers: the reader of event
    handlers after the [=], the reader of bindings at the cursor, each
    with the offset of the token and the name after the prefix.  What
    the reader returns is the attribute. *)
Theorem directives_go_to_their_readers names p (binding : bool) name t rest :
  let prefix := if binding then "bind:" else "on:" in
  unread p = prefix +:+ name +:+ String t rest ->
  JsString.forallb (fun c => negb (isAttributeNameEnd c)) name = true ->
  isAttributeNameEnd t = true ->
  (prefix +:+ name) ∉ names ->
  let k := leadingSpaces (String t rest) in
  (binding = false -> String.get 0 (JsString.drop k (String t rest)) = Some "="%char) ->
  let cursor := index p + String.length prefix + String.length name + k
                + (if binding then 0 else 1) in
  readAttribute names p
  = match (if binding then readBindingDirective else readEventHandlerDirective)
            (template p) cursor (index p) name with
    | Ok (a, j) => Ok ((Some a, names ++ [prefix +:+ name]), setIndex j p)
    | Throw e => Throw e
    | Timeout => Timeout
    end.
Proof.
  intros prefix Hu Htok Ht Hfresh k Hnext cursor.
  destruct (readAttribute_name names p (prefix +:+ name) t rest) as [Hq ->];
    [ by rewrite JsStringFacts.app_assoc | by destruct binding | | done | done | ].
  { destruct binding; subst prefix.
    - change ("bind:" +:+ name)
        with (String "b" (String "i" (String "n" (String "d" (String ":" name))))).
      cbn [JsString.forallb]. by rewrite Htok.
    - change ("on:" +:+ name) with (String "o" (String "n" (String ":" name))).
      cbn [JsString.forallb]. by rewrite Htok. }
  fold k in Hq |- *.
  assert (Hlen : String.length (prefix +:+ name)
                 = String.length prefix + String.length name)
    by apply JsStringFacts.length_app.
  destruct binding; subst prefix cursor.
  - change ("bind:" +:+ name)
      with (String "b" (String "i" (String "n" (String "d" (String ":" name))))) in *.
    unfold onPrefix.
    rewrite !(PatternFacts.prefix_test_first _ _ "b") by done.
    replace (Regex.test bindPrefix _) with true.
    2:{ unfold Regex.test, Regex.exec, bindPrefix.
        cbn [Regex.anchoredStart Regex.anchoredEnd Regex.body].
        rewrite RegexFacts.matchHere_lit. cbn [String.prefix].
        repeat (destruct (ascii_dec _ _); [ | done ]). by destruct name. }
    unfold bind at 1, atCursor.
    cbn [template index advance setIndex JsString.sliceFrom JsString.drop String.length] in *.
    replace (index p + (S (S (S (S (S (String.length name))))) + k))
      with (index p + 5 + String.length name + k + 0) by lia.
    destruct (readBindingDirective _ _ _ _) as [[a j]| |]; reflexivity.
  - change ("on:" +:+ name) with (String "o" (String "n" (String ":" name))) in *.
    replace (Regex.test onPrefix _) with true.
    2:{ unfold Regex.test, Regex.exec, onPrefix.
        cbn [Regex.anchoredStart Regex.anchoredEnd Regex.body].
        rewrite RegexFacts.matchHere_lit. cbn [String.prefix].
        repeat (destruct (ascii_dec _ _); [ | done ]). by destruct name. }
    specialize (Hnext eq_refl).
    destruct (JsString.drop k (String t rest)) as [|c s] eqn:E; [ done | ].
    cbn [String.get] in Hnext. injection Hnext as ->.
    unfold bind at 1. rewrite (eat_hit "=" true s) by done.
    rewrite advance_advance.
    unfold bind at 1, atCursor.
    cbn [template index advance setIndex JsString.sliceFrom JsString.drop String.length] in *.
    replace (index p + (S (S (S (String.length name))) + k + 1))
      with (index p + 3 + String.length name + k + 1) by lia.
    destruct (readEventHandlerDirective _ _ _ _) as [[a j]| |]; reflexivity.
Qed.

(** A plain attribute with [=]: the value is read right after the [=]. *)
Lemma readAttribute_value names p token t rest after :
  unread p = token +:+ String t rest ->
  token <> "" ->
  JsString.forallb (fun c => negb (isAttributeNameEnd c)) token = true ->
  isAttributeNameEnd t = true ->
  token ∉ names ->
  plainName token = true ->
  let k := leadingSpaces (String t rest) in
  JsString.drop k (String t rest) = "=" +:+ after ->
  unread (advance (String.length token + k + 1) p) = after
  /\ readAttribute names p
     = match readAttributeValue (advance (String.length token + k + 1) p) with
       | Ok (chunks, q) =>
           Ok ((Some (Attribute (index p) (index q) token (ValueChunks chunks)),
                names ++ [token]), q)
       | Throw e => Throw e
       | Timeout => Timeout
       end.
Proof.
  intros Hu Hne Htok Ht Hfresh Hplain k Hnext.
  destruct (readAttribute_name names p token t rest Hu Hne Htok Ht Hfresh) as [Hq ->].
  fold k in Hq |- *. rewrite Hnext in Hq.
  split; [ by rewrite <- advance_advance, unread_advance, Hq | ].
  unfold plainName in Hplain.
  repeat (apply andb_true_iff in Hplain as [Hplain ?]).
  repeat match goal with
         | Hb : negb _ = true |- _ => apply negb_true_iff in Hb; rewrite Hb
         end.
  unfold bind at 1. rewrite (eat_hit "=" false after) by done.
  rewrite advance_advance. cbn [String.length].
  unfold bind at 1. unfold bind at 1.
  destruct (readAttributeValue _) as [[chunks q]| |]; reflexivity.
Qed.

(** X20.  Whitespace is skipped before the [=], not after it: when the [=]
    that follows the name and optional whitespace is itself followed by
    whitespace, or by another character that cannot begin a bare value,
    the value is the empty sequence of chunks and the cursor stays right
    after the [=]. *)
Theorem nothing_after_the_equals_sign_is_an_empty_value names p token t rest s rest' :
  unread p = token +:+ String t rest ->
  token <> "" ->
  JsString.forallb (fun c => negb (isAttributeNameEnd c)) token = true ->
  isAttributeNameEnd t = true ->
  token ∉ names ->
  plainName token = true ->
  let k := leadingSpaces (String t rest) in
  JsString.drop k (String t rest) = "=" +:+ String s rest' ->
  isInvalidUnquoted s = true ->
  s <> "'"%char -> s <> doubleQuoteChar ->
  readAttribute names p
  = Ok ((Some (Attribute (index p) (index p + String.length token + k + 1) token
                 (ValueChunks [])),
         names ++ [token]),
        advance (String.length token + k + 1) p).
Proof.
  intros Hu Hne Htok Ht Hfresh Hplain k Hnext Hs Hsq Hdq.
  destruct (readAttribute_value names p token t rest (String s rest'))
    as [Hafter ->]; try done.
  fold k in Hafter |- *.
  rewrite (readAttributeValue_bare _ "" s rest'); [ | done | done | done | done ].
  cbn [JsString.truthy String.length]. rewrite advance_0.
  replace (index p + String.length token + k + 1)
    with (index p + (String.length token + k + 1)) by lia.
  reflexivity.
Qed.

End AttributeKinds.

Lemma attribute_without_a_value_witness :
  readAttribute (collaborators := Reference.collaborators) []
    (advance 5 (initial "<div data-id   hidden>"))
  = Ok ((Some (Attribute 5 15 "data-id" ValueTrue), ["data-id"]),
        advance 15 (initial "<div data-id   hidden>")).
Proof.
  apply (attribute_without_a_value (collaborators := Reference.collaborators) []
           (advance 5 (initial "<div data-id   hidden>")) "data-id" " " "  hidden>");
    [ reflexivity | discriminate | reflexivity | reflexivity
    | apply not_elem_of_nil | reflexivity | discriminate ].
Defined.

Lemma ref_attribute_witness :
  readAttribute (collaborators := Reference.collaborators) []
    (advance 5 (initial "<div ref:box >"))
  = Ok ((Some (Ref 5 13 "box"), ["ref:box"]), advance 13 (initial "<div ref:box >")).
Proof.
  apply (ref_attribute (collaborators := Reference.collaborators) []
           (advance 5 (initial "<div ref:box >")) "box" " " ">");
    [ reflexivity | reflexivity | reflexivity | apply not_elem_of_nil ].
Defined.

Lemma event_handler_needs_a_value_witness :
  exists message,
    readAttribute (collaborators := Reference.collaborators) []
      (advance 8 (initial "<button on:click >"))
    = Throw (SyntaxError message (Some 17)).
Proof.
  apply (event_handler_needs_a_value (collaborators := Reference.collaborators) []
           (advance 8 (initial "<button on:click >")) "click" " " ">");
    [ reflexivity | reflexivity | reflexivity | apply not_elem_of_nil | discriminate ].
Defined.

Lemma directives_go_to_their_readers_witness :
  readAttribute (collaborators := Reference.collaborators) []
    (advance 7 (initial "<input bind:value=name>"))
  = match Reference.noDirective "<input bind:value=name>" 17 7 "value" with
    | Ok (a, j) =>
        Ok ((Some a, ["bind:value"]), setIndex j (advance 7 (initial "<input bind:value=name>")))
    | Throw e => Throw e
    | Timeout => Timeout
    end.
Proof.
  apply (directives_go_to_their_readers (collaborators := Reference.collaborators) []
           (advance 7 (initial "<input bind:value=name>")) true "value" "=" "name>");
    [ reflexivity | reflexivity | reflexivity | apply not_elem_of_nil | discriminate ].
Defined.

Lemma nothing_after_the_equals_sign_is_an_empty_value_witness :
  readAttribute (collaborators := Reference.collaborators) []
    (advance 3 (initial "<a href = x>"))
  = Ok ((Some (Attribute 3 9 "href" (ValueChunks [])), ["href"]),
        advance 9 (initial "<a href = x>"))
  /\ readAttribute (collaborators := Reference.collaborators) []
       (advance 3 (initial "<a href= x>"))
     = Ok ((Some (Attribute 3 8 "href" (ValueChunks [])), ["href"]),
           advance 8 (initial "<a href= x>")).
Proof.
  split.
  - apply (nothing_after_the_equals_sign_is_an_empty_value
             (collaborators := Reference.collaborators) []
             (advance 3 (initial "<a href = x>")) "href" " " "= x>" " " "x>");
      [ reflexivity | discriminate | reflexivity | reflexivity | apply not_elem_of_nil
      | reflexivity | reflexivity | reflexivity | discriminate | discriminate ].
  - apply (nothing_after_the_equals_sign_is_an_empty_value
             (collaborators := Reference.collaborators) []
             (advance 3 (initial "<a href= x>")) "href" "=" " x>" " " "x>");
      [ reflexivity | discriminate | reflexivity | reflexivity | apply not_elem_of_nil
      | reflexivity | reflexivity | reflexivity | discriminate | discriminate ].
Defined.

(** ** Opening tags *)

(** The ways an opening tag ends. *)
Inductive tagEnd : string -> Prop :=
| tagEnd_selfClosing : tagEnd "/>"
| tagEnd_open : tagEnd ">".

Section OpeningTags.
Context {collaborators : Collaborators}.

(** What [createElement] does at the end of an opening tag.  The new
    element is the next object of the store and the last child of the
    top of the stack; after [/>] or with a void name it gets its end and
    is not pushed, otherwise it is pushed and has no end yet. *)
Lemma createElement_run start name attributes p ending rest top n :
  tagEnd ending ->
  unread p = ending +:+ rest ->
  last (stack p) = Some top ->
  heap p !! top = Some n ->
  let new := length (heap p) in
  let element := Node.Make Element (Some start) None (Some name) "" attributes [] in
  let store := <[top := Node.setChildren (Node.children n ++ [new]) n]>
                 (heap p ++ [element]) in
  let e := index p + String.length ending in
  createElement start name attributes p
  = Ok (tt,
        if String.eqb ending "/>" || isVoidElementName name
        then setHeap (<[new := Node.setEnd (Some e) element]> store) (setIndex e p)
        else setStack (stack p ++ [new]) (setHeap store (setIndex e p))).
Proof.
  intros Hend Hu Htop Hn new element store e.
  assert (Hlt : top < length (heap p)) by (by eapply lookup_lt_Some).
  assert (Hne : top <> new) by (subst new; lia).
  unfold createElement.
  unfold bind at 1. cbn [alloc]. unfold bind at 1. cbn [current gets].
  cbn [stack setHeap]. rewrite Htop.
  unfold bind at 1, pushChild.
  rewrite (updNode_run top _ _ n) by (cbn [heap setHeap]; by rewrite lookup_app_l).
  cbn [heap setHeap]. fold new element store.
  set (p1 := setHeap store _).
  assert (Hu1 : unread p1 = ending +:+ rest) by exact Hu.
  assert (Hnew : store !! new = Some element).
  { subst store. rewrite list_lookup_insert_ne by done.
    subst new. by rewrite lookup_app_r, Nat.sub_diag by lia. }
  destruct Hend.
  - unfold bind at 1. rewrite (eat_hit "/" false (">" +:+ rest)) by done.
    cbn [orb String.length].
    unfold bind at 1. rewrite (eat_hit ">" true rest) by (by rewrite unread_advance, Hu1).
    rewrite advance_advance. unfold bind at 1. cbn [gets].
    rewrite (updNode_run new _ _ element) by done.
    cbn [String.eqb Ascii.eqb Bool.eqb orb]. reflexivity.
  - unfold bind at 1. rewrite (eat_miss "/" "" ">" rest) by done.
    cbn [orb String.length].
    unfold bind at 1. rewrite (eat_hit ">" true rest) by done.
    change (String.eqb ">" "/>") with false. cbn [orb].
    destruct (isVoidElementName name).
    + unfold bind at 1. cbn [gets].
      rewrite (updNode_run new _ _ element) by done. reflexivity.
    + reflexivity.
Qed.

(** X21.  An opening tag that closes nothing and is no top-level special
    block: once its attributes are read, a new element with the offset of
    the [<] as its start, the name and the attributes becomes the last
    child of the top of the stack.  After [/>], or with a void name, the
    element gets the offset after the tag as its end and the stack is as
    it was; otherwise the element is pushed. *)
Theorem opening_tag_creates_an_element p c tok t rest top n attributes names q
    ending rest' :
  Regex.isLetter c = true ->
  JsString.forallb (fun c => negb (isTagNameEnd c)) tok = true ->
  isTagNameEnd t = true ->
  unread p = "<" +:+ String c tok +:+ String t rest ->
  inObject (String c tok) metaTagsTable = false ->
  last (stack p) = Some top ->
  heap p !! top = Some n ->
  closes (Node.name n) (String c tok) = false ->
  (length (stack p) = 1 -> mapGet specials (String c tok) = None) ->
  readAttributes (S (String.length (template p))) [] []
    (advance (leadingSpaces (String t rest)) (advance (S (S (String.length tok))) p))
  = Ok ((attributes, names), q) ->
  tagEnd ending ->
  JsString.drop (leadingSpaces (unread q)) (unread q) = ending +:+ rest' ->
  let new := length (heap p) in
  let element :=
    Node.Make Element (Some (index p)) None (Some (String c tok)) "" attributes [] in
  let store := <[top := Node.setChildren (Node.children n ++ [new]) n]>
                 (heap p ++ [element]) in
  let e := index q + leadingSpaces (unread q) + String.length ending in
  tag p
  = Ok (tt,
        if String.eqb ending "/>" || isVoidElementName (String c tok)
        then setHeap (<[new := Node.setEnd (Some e) element]> store) (setIndex e p)
        else setStack (stack p ++ [new]) (setHeap store (setIndex e p))).
Proof.
  intros Hc Htok Ht Hu Hmeta Htop Hn Hcloses Hspecial Hattrs Hend Hrest
    new element store e.
  destruct (tag_named_header p c tok t rest Hc Htok Ht Hu) as [-> Hu2].
  unfold bind at 1. unfold checkMetaTag. rewrite Hmeta. cbn [ret].
  unfold bind at 1. rewrite allowWhitespace_unread, Hu2.
  unfold bind at 1. unfold impliedClose. unfold bind at 1.
  rewrite Htop. rewrite (getNode_Ok top n) by done.
  unfold closes in Hcloses.
  assert (Himplied :
    forall s, match Node.name n ≫= mapGet disallowedContents with
              | Some disallowed =>
                  when setHas disallowed (String c tok)
                  then (stripWhitespace (Some top) ;;;
                        updNode (Some top) (Node.setEnd (Some (index p))) ;;; stackPop)
              | None => ret tt
              end s = Ok (tt, s)).
  { intros s. destruct (Node.name n ≫= mapGet disallowedContents); [ | done ].
    by rewrite Hcloses. }
  rewrite Himplied. clear Himplied.
  unfold openTag. unfold bind at 1. cbn [gets]. unfold bind at 1.
  change (template (advance _ (advance _ p))) with (template p).
  rewrite Hattrs.
  pose proof (readAttributes_cursorMoved _ _ _ _ _ _ Hattrs) as Hq.
  unfold cursorMoved in Hq. cbn [setIndex advance template stack heap metaTags js css] in Hq.
  unfold bind at 1. rewrite allowWhitespace_unread.
  unfold bind at 1. cbn [gets fst].
  set (q' := advance (leadingSpaces (unread q)) q).
  assert (Hu3 : unread q' = ending +:+ rest').
  { subst q'. by rewrite unread_advance. }
  assert (Hstack : stack q' = stack p) by (subst q'; rewrite Hq; reflexivity).
  assert (Hheap : heap q' = heap p) by (subst q'; rewrite Hq; reflexivity).
  replace (if length (stack q') =? 1 then mapGet specials (String c tok) else None)
    with (@None ((string -> nat -> nat -> list attribute -> result (content * nat))
                 * property)).
  2:{ rewrite Hstack. destruct (Nat.eqb_spec (length (stack p)) 1) as [H1|]; [ | done ].
      by rewrite Hspecial. }
  rewrite (createElement_run _ _ _ q' ending rest' top n); [ | done | done | | ].
  2:{ by rewrite Hstack. }
  2:{ by rewrite Hheap. }
  rewrite Hheap, Hstack. fold new element store.
  replace (index q' + String.length ending) with e
    by (subst q' e; cbn [index advance setIndex]; lia).
  replace (setIndex e q') with (setIndex e p); [ done | ].
  subst q'. rewrite Hq. reflexivity.
Qed.

End OpeningTags.

Lemma opening_tag_creates_an_element_witness :
  tag (collaborators := Reference.collaborators)
    (Examples.stateAfter 1 "<div><span class=a />")
  = Ok (tt,
        Parser "<div><span class=a />" 21 [0; 1]
          [ Node.Make Fragment None None None "" [] [1];
            Node.Make Element (Some 0) None (Some "div") "" [] [2];
            Node.Make Element (Some 5) (Some 21) (Some "span") ""
              [ Attribute 11 18 "class" (ValueChunks [ TextChunk 17 18 "a" ]) ] [] ]
          [] None None).
Proof.
  apply (opening_tag_creates_an_element (collaborators := Reference.collaborators)
           (Examples.stateAfter 1 "<div><span class=a />")
           "s" "pan" " " "class=a />" 1
           (Node.Make Element (Some 0) None (Some "div") "" [] [])
           [ Attribute 11 18 "class" (ValueChunks [ TextChunk 17 18 "a" ]) ]
           ["class"]
           (advance 14 (Examples.stateAfter 1 "<div><span class=a />"))
           "/>" "");
    first [ by vm_compute | constructor ].
Defined.

(** ** Special blocks, first occurrence *)

Section FirstSpecial.
Context {collaborators : Collaborators}.

(** X22.  The first top-level [<script] or [<style] tag: once its attributes
    are read and its [>] is met, the reader of its kind is called after
    the [>] with the offset of the tag and the attributes, and what it
    returns is stored in the slot of the kind.  No node is created: the
    tree and the stack are as they were. *)
Theorem first_special_block_fills_its_slot p name t rest read pr
    attributes names q rest' block j :
  wellFormed p ->
  length (stack p) = 1 ->
  mapGet specials name = Some (read, pr) ->
  isTagNameEnd t = true ->
  unread p = "<" +:+ name +:+ String t rest ->
  getProperty pr p = None ->
  readAttributes (S (String.length (template p))) [] []
    (advance (leadingSpaces (String t rest)) (advance (S (String.length name)) p))
  = Ok ((attributes, names), q) ->
  JsString.drop (leadingSpaces (unread q)) (unread q) = ">" +:+ rest' ->
  read (template p) (index q + leadingSpaces (unread q) + 1) (index p) attributes
  = Ok (block, j) ->
  tag p = Ok (tt, setProperty pr block (setIndex j p)).
Proof.
  intros Hw Hdepth Hsp Ht Hu Hslot Hattrs Hrest Hread.
  destruct (wellFormed_root_only p Hw Hdepth) as (root & n & Hl & Hn & Hname).
  assert (Hname' : exists c tok, name = String c tok /\ Regex.isLetter c = true
            /\ JsString.forallb (fun c => negb (isTagNameEnd c)) tok = true
            /\ inObject name metaTagsTable = false).
  { destruct (specials_names _ _ _ Hsp) as [[-> _]|[-> _]]; do 2 eexists; done. }
  destruct Hname' as (c & tok & -> & Hc & Htok & Hmeta).
  destruct (tag_named_header p c tok t rest Hc Htok Ht Hu) as [-> Hu2].
  set (p1 := advance (S (S (String.length tok))) p) in *.
  unfold bind at 1. unfold checkMetaTag. rewrite Hmeta. cbn [ret].
  unfold bind at 1. rewrite allowWhitespace_unread, Hu2.
  unfold bind at 1. unfold impliedClose. unfold bind at 1.
  rewrite Hl. rewrite (getNode_Ok root n) by done. rewrite Hname. cbn [mbind option_bind ret].
  unfold openTag. unfold bind at 1. cbn [gets]. unfold bind at 1.
  change (template (advance _ p1)) with (template p).
  change (String.length (String c tok)) with (S (String.length tok)) in Hattrs.
  fold p1 in Hattrs. rewrite Hattrs.
  pose proof (readAttributes_cursorMoved _ _ _ _ _ _ Hattrs) as Hq.
  unfold cursorMoved in Hq.
  cbn [setIndex advance template stack heap metaTags js css] in Hq.
  unfold bind at 1. rewrite allowWhitespace_unread.
  unfold bind at 1. cbn [gets fst].
  set (q' := advance (leadingSpaces (unread q)) q).
  assert (Hu3 : unread q' = ">" +:+ rest').
  { subst q'. by rewrite unread_advance. }
  replace (length (stack q')) with 1 by (subst q'; rewrite Hq; simpl; done).
  cbn [Nat.eqb]. rewrite Hsp.
  unfold bind at 1. cbn [gets].
  replace (getProperty pr q') with (getProperty pr p)
    by (subst q'; rewrite Hq; by destruct pr).
  rewrite Hslot. rewrite bool_decide_eq_false_2 by (by intros [? ?]).
  unfold bind at 1. cbn [ret]. unfold bind at 1.
  rewrite (eat_hit ">" true rest') by done.
  cbn [String.length]. unfold bind at 1, atCursor.
  replace (template (advance 1 q')) with (template p)
    by (subst q'; rewrite Hq; reflexivity).
  replace (index (advance 1 q')) with (index q + leadingSpaces (unread q) + 1)
    by (subst q'; reflexivity).
  rewrite Hread. cbn [modify].
  subst q'. rewrite Hq. by destruct pr.
Qed.

End FirstSpecial.

Lemma first_special_block_fills_its_slot_witness :
  tag (collaborators := Reference.collaborators)
    (initial "<style media=print>p{}</style>")
  = Ok (tt,
        Parser "<style media=print>p{}</style>" 30 [0] [ root ] [] None
          (Some (Content 0 30
                   [ Attribute 7 18 "media" (ValueChunks [ TextChunk 13 18 "print" ]) ]
                   "p{}"))).
Proof.
  apply (first_special_block_fills_its_slot (collaborators := Reference.collaborators)
           (initial "<style media=print>p{}</style>") "style" " " "media=print>p{}</style>"
           (Reference.readRaw "</style>") PropertyCss
           [ Attribute 7 18 "media" (ValueChunks [ TextChunk 13 18 "print" ]) ]
           ["media"]
           (advance 18 (initial "<style media=print>p{}</style>"))
           "p{}</style>"
           (Content 0 30
              [ Attribute 7 18 "media" (ValueChunks [ TextChunk 13 18 "print" ]) ]
              "p{}")
           30);
    first [ apply initial_wellFormed | by vm_compute ].
Defined.

(** ** The implied close, once more *)

(** X23.  The implied close on a stack whose top is [top]: when the name of
    the top allows the new name, nothing changes at all; when it does not,
    the top is stripped of whitespace, gets the offset of the new tag as
    its end and is popped.  It keeps its type, name, start and
    attributes. *)
Theorem implied_close_ends_the_parent_at_the_new_tag start name p top n :
  last (stack p) = Some top ->
  heap p !! top = Some n ->
  Forall (fun c => c < length (heap p)) (Node.children n) ->
  exists p',
    impliedClose start name (last (stack p)) p = Ok (tt, p')
    /\ if closes (Node.name n) name
       then stack p' = removelast (stack p)
            /\ index p' = index p
            /\ exists n', heap p' !! top = Some n'
                          /\ Node.end_ n' = Some start /\ sameIdentity n n'
       else p' = p.
Proof.
  intros Htop Hn Hkids. unfold impliedClose. rewrite Htop.
  run_getNode top n. unfold closes.
  destruct (Node.name n ≫= mapGet disallowedContents) as [disallowed|];
    [ | by exists p ].
  destruct (setHas disallowed name); [ | by exists p ].
  destruct (stripWhitespace_succeeds top p n Hn Hkids) as [p1 Hstrip].
  assert (Hin : top ∈ stack p) by (by apply last_elem_of).
  pose proof (stripWhitespace_frames 0 _ _ _ _ Hin Hstrip) as Hframe.
  pose proof (stripWhitespace_storeMoved _ _ _ _ Hstrip) as Hstore.
  destruct (fr_identity _ _ _ Hframe top n Hn) as (n1 & Hn1 & Hident).
  unfold bind at 1. rewrite Hstrip. run_updNode top n1. cbn [stackPop modify].
  eexists. split; [ reflexivity | ].
  cbn [stack index heap setStack setHeap].
  rewrite (storeMoved_stack _ _ Hstore), (storeMoved_index _ _ Hstore).
  split; [ done | ]. split; [ done | ].
  eexists. split; [ by read_store | ].
  split; [ done | ]. etrans; [ exact Hident | apply setEnd_identity ].
Qed.

Lemma implied_close_ends_the_parent_at_the_new_tag_witness :
  let p := Examples.stateAfter 2 "<p> a <div>" in
  stack p = [0; 1]
  /\ exists p',
      impliedClose 6 "div" (last (stack p)) p
      = Ok (tt, p')
      /\ if closes (Some "p") "div"
         then stack p' = removelast (stack p)
              /\ index p' = index p
              /\ exists n', heap p' !! 1 = Some n'
                            /\ Node.end_ n' = Some 6
                            /\ sameIdentity
                                 (Node.Make Element (Some 0) None (Some "p") "" [] [2]) n'
         else p' = p.
Proof.
  intros p. split; [ by vm_compute | ].
  apply (implied_close_ends_the_parent_at_the_new_tag 6 "div" p 1
           (Node.Make Element (Some 0) None (Some "p") "" [] [2]));
    [ by vm_compute | by vm_compute | ].
  apply List.Forall_cons; [ vm_compute; lia | apply List.Forall_nil ].
Defined.

(** ** What the tag handler keeps *)

Section Kept.
Context {collaborators : Collaborators}.

(** X24.  A successful run of [tag] keeps the template, the registered meta
    tags and every object of the store, with its type, name, start and
    attributes.  An object that is neither on the stack nor a text node
    is kept exactly as it is: a closed element is never changed again.
    What the stack gains is a new object. *)
Theorem tag_keeps_what_is_built p a p' :
  tag p = Ok (a, p') ->
  template p' = template p
  /\ (forall k, k ∈ metaTags p -> k ∈ metaTags p')
  /\ length (heap p) <= length (heap p')
  /\ (forall i n, heap p !! i = Some n ->
        exists n', heap p' !! i = Some n'
                   /\ Node.type n' = Node.type n /\ Node.name n' = Node.name n
                   /\ Node.start n' = Node.start n
                   /\ Node.attributes n' = Node.attributes n)
  /\ (forall i n, heap p !! i = Some n -> i ∉ stack p -> Node.type n <> Text ->
        heap p' !! i = Some n)
  /\ (forall i, i ∈ stack p' -> i ∈ stack p \/ length (heap p) <= i).
Proof.
  intros H. destruct (tag_frames p a p' H) as [Ht Hm Hl Hi Hc Hs].
  split_and!; try done.
  intros i n Hn. apply Hc; [ by eapply lookup_lt_Some | done ].
Qed.

(** X25.  [tag] keeps the store well formed: after a successful run the root
    fragment is still at the bottom of the stack, and the stack and the
    children of every object refer to objects of the store. *)
Theorem tag_keeps_the_store_well_formed p a p' :
  wellFormed p -> tag p = Ok (a, p') -> wellFormed p'.
Proof. intros Hw H. by eapply tag_wf. Qed.

End Kept.

Lemma tag_keeps_what_is_built_witness :
  let p := Examples.stateAfter 5 "<div><br>a<p>b</p></div>" in
  let p' := Examples.stateAfter 6 "<div><br>a<p>b</p></div>" in
  tag (collaborators := Reference.collaborators) p = Ok (tt, p')
  /\ heap p !! 2 = Some (Node.Make Element (Some 5) (Some 9) (Some "br") "" [] [])
  /\ heap p' !! 2 = Some (Node.Make Element (Some 5) (Some 9) (Some "br") "" [] []).
Proof.
  intros p p'.
  assert (Ht : tag (collaborators := Reference.collaborators) p = Ok (tt, p'))
    by (by vm_compute).
  split; [ exact Ht | ]. split; [ by vm_compute | ].
  destruct (tag_keeps_what_is_built (collaborators := Reference.collaborators)
              p tt p' Ht) as (_ & _ & _ & _ & Hclosed & _).
  apply Hclosed; [ by vm_compute | | done ].
  change (2 ∉ [0; 1; 4]). intros Hin.
  repeat (apply elem_of_cons in Hin as [Hin|Hin]; [ discriminate | ]).
  by apply elem_of_nil in Hin.
Defined.

Lemma tag_keeps_the_store_well_formed_witness :
  wellFormed (Examples.stateAfter 1 "<div><p>a</div>")
  /\ tag (collaborators := Reference.collaborators)
       (Examples.stateAfter 1 "<div><p>a</div>")
     = Ok (tt, Examples.stateAfter 2 "<div><p>a</div>")
  /\ wellFormed (Examples.stateAfter 2 "<div><p>a</div>").
Proof.
  assert (Ht : tag (collaborators := Reference.collaborators)
                 (Examples.stateAfter 1 "<div><p>a</div>")
               = Ok (tt, Examples.stateAfter 2 "<div><p>a</div>")) by (by vm_compute).
  split; [ apply Examples.stateAfter_wellFormed | ]. split; [ exact Ht | ].
  apply (tag_keeps_the_store_well_formed (collaborators := Reference.collaborators)
           _ tt _ (Examples.stateAfter_wellFormed 1 "<div><p>a</div>") Ht).
Defined.

(** ** Missing brackets and braces *)

Section Missing.
Context {collaborators : Collaborators}.

(** An opening tag that closes nothing and is no top-level special
    block comes to [createElement] once its attributes are read. *)
Lemma tag_reaches_createElement p c tok t rest top n attributes names q :
  Regex.isLetter c = true ->
  JsString.forallb (fun c => negb (isTagNameEnd c)) tok = true ->
  isTagNameEnd t = true ->
  unread p = "<" +:+ String c tok +:+ String t rest ->
  inObject (String c tok) metaTagsTable = false ->
  last (stack p) = Some top ->
  heap p !! top = Some n ->
  closes (Node.name n) (String c tok) = false ->
  (length (stack p) = 1 -> mapGet specials (String c tok) = None) ->
  readAttributes (S (String.length (template p))) [] []
    (advance (leadingSpaces (String t rest)) (advance (S (S (String.length tok))) p))
  = Ok ((attributes, names), q) ->
  q = setIndex (index q) p
  /\ tag p = createElement (index p) (String c tok) attributes
               (advance (leadingSpaces (unread q)) q).
Proof.
  intros Hc Htok Ht Hu Hmeta Htop Hn Hcloses Hspecial Hattrs.
  pose proof (readAttributes_cursorMoved _ _ _ _ _ _ Hattrs) as Hq.
  unfold cursorMoved in Hq. cbn [setIndex advance template stack heap metaTags js css] in Hq.
  split; [ exact Hq | ].
  destruct (tag_named_header p c tok t rest Hc Htok Ht Hu) as [-> Hu2].
  unfold bind at 1. unfold checkMetaTag. rewrite Hmeta. cbn [ret].
  unfold bind at 1. rewrite allowWhitespace_unread, Hu2.
  unfold bind at 1. unfold impliedClose. unfold bind at 1.
  rewrite Htop. rewrite (getNode_Ok top n) by done.
  unfold closes in Hcloses.
  assert (Himplied :
    forall s, match Node.name n ≫= mapGet disallowedContents with
              | Some disallowed =>
                  when setHas disallowed (String c tok)
                  then (stripWhitespace (Some top) ;;;
                        updNode (Some top) (Node.setEnd (Some (index p))) ;;; stackPop)
              | None => ret tt
              end s = Ok (tt, s)).
  { intros s. destruct (Node.name n ≫= mapGet disallowedContents); [ | done ].
    by rewrite Hcloses. }
  rewrite Himplied. clear Himplied.
  unfold openTag. unfold bind at 1. cbn [gets]. unfold bind at 1.
  change (template (advance _ (advance _ p))) with (template p).
  rewrite Hattrs.
  unfold bind at 1. rewrite allowWhitespace_unread.
  unfold bind at 1. cbn [gets fst].
  set (q' := advance (leadingSpaces (unread q)) q).
  assert (Hstack : stack q' = stack p) by (subst q'; rewrite Hq; reflexivity).
  replace (if length (stack q') =? 1 then mapGet specials (String c tok) else None)
    with (@None ((string -> nat -> nat -> list attribute -> result (content * nat))
                 * property)); [ done | ].
  rewrite Hstack. destruct (Nat.eqb_spec (length (stack p)) 1) as [H1|]; [ | done ].
  by rewrite Hspecial.
Qed.

(** X26.  An opening tag whose attributes are followed by something other
    than [>] or [/>] raises an error at the offset where the [>] is
    missing: after the [/] when there is one. *)
Theorem opening_tag_needs_its_bracket p c tok t rest top n attributes names q
    (slash : bool) x rest' :
  Regex.isLetter c = true ->
  JsString.forallb (fun c => negb (isTagNameEnd c)) tok = true ->
  isTagNameEnd t = true ->
  unread p = "<" +:+ String c tok +:+ String t rest ->
  inObject (String c tok) metaTagsTable = false ->
  last (stack p) = Some top ->
  heap p !! top = Some n ->
  closes (Node.name n) (String c tok) = false ->
  (length (stack p) = 1 -> mapGet specials (String c tok) = None) ->
  readAttributes (S (String.length (template p))) [] []
    (advance (leadingSpaces (String t rest)) (advance (S (S (String.length tok))) p))
  = Ok ((attributes, names), q) ->
  JsString.drop (leadingSpaces (unread q)) (unread q)
  = (if slash then "/" else "") +:+ String x rest' ->
  x <> ">"%char ->
  (slash = false -> x <> "/"%char) ->
  exists message,
    tag p = Throw (SyntaxError message
                     (Some (index q + leadingSpaces (unread q)
                            + (if slash then 1 else 0)))).
Proof.
  intros Hc Htok Ht Hu Hmeta Htop Hn Hcloses Hspecial Hattrs Hrest Hx Hslash.
  exists "Expected >".
  destruct (tag_reaches_createElement p c tok t rest top n attributes names q)
    as [Hq ->]; try done.
  set (q' := advance (leadingSpaces (unread q)) q).
  assert (Hu3 : unread q' = (if slash then "/" else "") +:+ String x rest').
  { subst q'. by rewrite unread_advance. }
  assert (Hstack : stack q' = stack p) by (subst q'; rewrite Hq; reflexivity).
  assert (Hheap : heap q' = heap p) by (subst q'; rewrite Hq; reflexivity).
  assert (Hlt : top < length (heap p)) by (by eapply lookup_lt_Some).
  unfold createElement.
  unfold bind at 1. cbn [alloc]. unfold bind at 1. cbn [current gets].
  cbn [stack setHeap]. rewrite Hstack, Htop.
  unfold bind at 1, pushChild.
  rewrite (updNode_run top _ _ n)
    by (cbn [heap setHeap]; rewrite Hheap; by rewrite lookup_app_l).
  cbn [heap setHeap]. set (q2 := setHeap _ _).
  assert (Hu4 : unread q2 = (if slash then "/" else "") +:+ String x rest') by exact Hu3.
  destruct slash.
  - unfold bind at 1. rewrite (eat_hit "/" false (String x rest')) by done.
    change ("/" +:+ String x rest') with (String "/" (String x rest')) in Hu4.
    unfold bind at 1. rewrite eat_unread, unread_advance, Hu4.
    cbn [String.length JsString.drop JsString.take String.eqb].
    destruct (Ascii.eqb_spec x ">") as [->|_]; [ done | ].
    do 3 f_equal; subst q2 q'; cbn [index advance setIndex setHeap]; lia.
  - rewrite JsStringFacts.app_empty_l in Hu4.
    unfold bind at 1. rewrite (eat_miss "/" "" x rest') by auto.
    unfold bind at 1. rewrite eat_unread, Hu4.
    cbn [String.length JsString.take String.eqb].
    destruct (Ascii.eqb_spec x ">") as [->|_]; [ done | ].
    do 3 f_equal; subst q2 q'; cbn [index advance setIndex setHeap]; lia.
Qed.

(** X27.  An embedded expression in a value needs its [}}]: when what
    follows the expression and optional whitespace is something else, the
    error is raised at that offset. *)
Theorem mustache_in_a_value_needs_its_braces p opening quoteMark body e j :
  opens opening quoteMark ->
  unread p = opening +:+ "{{" +:+ body ->
  readExpression (template p) (index p + String.length opening + 2) = Ok (e, j) ->
  let k := leadingSpaces (unread (setIndex j p)) in
  JsString.take 2 (JsString.drop k (unread (setIndex j p))) <> "}}" ->
  readAttributeValue p = Throw (SyntaxError "Expected }}" (Some (j + k))).
Proof.
  intros Ho Hu He k Hmiss.
  rewrite (readAttributeValue_opens p opening quoteMark ("{{" +:+ body));
    [ | done | done | done | done ].
  set (p1 := advance (String.length opening) p).
  assert (Hu1 : unread p1 = "{{" +:+ body).
  { subst p1. rewrite unread_advance, Hu. apply JsStringFacts.drop_app_length. }
  cbn [readAttributeValueLoop].
  unfold bind at 1. cbn [gets]. unfold bind at 1. cbn [gets].
  rewrite (proj2 (Nat.ltb_lt _ _) (index_lt_length _ _ _ Hu1)).
  unfold bind at 1. rewrite (eat_hit "{{" false body) by done.
  cbn [String.length JsString.truthy].
  unfold bind at 1. unfold atCursor at 1.
  change (template (advance 2 p1)) with (template p).
  replace (index (advance 2 p1)) with (index p + String.length opening + 2)
    by (subst p1; reflexivity).
  rewrite He.
  unfold bind at 1. rewrite allowWhitespace_unread.
  change (unread (setIndex j (advance 2 p1))) with (unread (setIndex j p)). fold k.
  unfold bind at 1. rewrite eat_unread, unread_advance.
  change (unread (setIndex j (advance 2 p1))) with (unread (setIndex j p)).
  cbn [String.length].
  destruct (String.eqb_spec (JsString.take 2 (JsString.drop k (unread (setIndex j p)))) "}}")
    as [Heq|_]; [ done | ].
  unfold bind at 1. cbn [negb errorHere]. reflexivity.
Qed.

End Missing.

Lemma opening_tag_needs_its_bracket_witness :
  (exists message,
      tag (collaborators := Reference.collaborators) (initial "<div a=b =c>")
      = Throw (SyntaxError message (Some 9)))
  /\ (exists message,
         tag (collaborators := Reference.collaborators) (initial "<div a=b / >")
         = Throw (SyntaxError message (Some 10))).
Proof.
  split.
  - apply (opening_tag_needs_its_bracket (collaborators := Reference.collaborators)
             (initial "<div a=b =c>") "d" "iv" " " "a=b =c>" 0 root
             [ Attribute 5 8 "a" (ValueChunks [ TextChunk 7 8 "b" ]) ] ["a"]
             (advance 9 (initial "<div a=b =c>")) false "=" "c>");
      first [ by vm_compute | discriminate ].
  - apply (opening_tag_needs_its_bracket (collaborators := Reference.collaborators)
             (initial "<div a=b / >") "d" "iv" " " "a=b / >" 0 root
             [ Attribute 5 8 "a" (ValueChunks [ TextChunk 7 8 "b" ]) ] ["a"]
             (advance 9 (initial "<div a=b / >")) true " " ">");
      first [ by vm_compute | discriminate ].
Defined.

Lemma mustache_in_a_value_needs_its_braces_witness :
  readAttributeValue (collaborators := Reference.collaborators)
    (advance 5 (initial "<a b='{{x y}}'>"))
  = Throw (SyntaxError "Expected }}" (Some 10)).
Proof.
  apply (mustache_in_a_value_needs_its_braces (collaborators := Reference.collaborators)
           (advance 5 (initial "<a b='{{x y}}'>")) "'" (Some "'") "x y}}'>"
           (Identifier 8 9 "x") 9);
    first [ constructor | by vm_compute | discriminate ].
Defined.

(** ** Equal names that pass the uniqueness check *)

(** C5, at the inputs [<div foo :foo>] and [<div :foo foo>].  Each tag
    is parsed without an error into an element with two attributes named
    [foo]: the uniqueness check looks at the token [:foo], and the colon
    is taken off only afterwards.  With the shorthand written out, as in
    [<div foo foo='{{foo}}'>], the second [foo] raises the error. *)
Theorem shorthand_escapes_the_uniqueness_check :
  (exists p n,
      tag (collaborators := Reference.collaborators) (initial "<div foo :foo>")
      = Ok (tt, p)
      /\ heap p !! 1 = Some n
      /\ Node.attributes n
         = [ Attribute 5 9 "foo" ValueTrue;
             Attribute 9 13 "foo"
               (ValueChunks [ AttributeShorthandChunk 10 13 (Identifier 10 13 "foo") ]) ]
      /\ ~ NoDup (attributeName <$> Node.attributes n))
  /\ (exists p n,
         tag (collaborators := Reference.collaborators) (initial "<div :foo foo>")
         = Ok (tt, p)
         /\ heap p !! 1 = Some n
         /\ attributeName <$> Node.attributes n = ["foo"; "foo"])
  /\ tag (collaborators := Reference.collaborators) (initial "<div foo foo='{{foo}}'>")
     = Throw (SyntaxError "Attributes need to be unique" (Some 9)).
Proof.
  split; [ | split ].
  - do 2 eexists. split; [ vm_compute; reflexivity | ].
    split; [ reflexivity | ]. split; [ reflexivity | ].
    simpl. intros Hn. apply NoDup_cons_1_1 in Hn. apply Hn. by left.
  - do 2 eexists. split; [ vm_compute; reflexivity | ]. split; reflexivity.
  - vm_compute. reflexivity.
Qed.
